(** * Mint: the collateralized-debt-position ledger of kalata-contracts

    A shallow embedding of [contracts/Mint.sol] (the CDP contract) and the
    properties of its operations: opening, adjusting, closing and
    liquidating positions, the asset registry and the enumeration queries.

    Unsigned 256-bit integers and addresses are integers of [Z]; arithmetic
    that the contract performs through SafeMath reverts on overflow, raw
    arithmetic wraps around.  The contract's storage is a record; a call
    runs in a monad of storage, external calls and failure, and either
    succeeds with a new storage or reverts.  Token contracts and the oracle
    are outside the contract: their answers are part of the environment of
    a call.  Events are not modelled, nor is reentrancy.

    The first part holds the definitions: the contract, function by
    function, then the notions the statements need and a small deployment
    used in the examples.  The second part holds the proofs, general lemmas
    first, then one section for each property. *)

From Stdlib Require Import ZArith String List Bool Lia.
From stdpp Require Import gmap list.

Local Open Scope Z_scope.

(** ** Machine integers *)

(** [address] and [uint] are both integers of [Z]; the names are kept to
    read the definitions against the source. *)
Abbreviation address := Z (only parsing).
Abbreviation uint := Z (only parsing).

Definition MAX_UINT : Z := 2 ^ 256 - 1.

(** Reduction of an integer to 256 bits, the result of raw EVM arithmetic. *)
Definition wrap (x : Z) : Z := x mod 2 ^ 256.

Definition in_range (x : Z) : Prop := 0 <= x <= MAX_UINT.

(** Result of a pure computation that may revert with a message. *)
Inductive res (A : Type) : Type :=
| Ok (a : A)
| Err (msg : string).
Arguments Ok {A} a.
Arguments Err {A} msg.

(** SafeMath (OpenZeppelin) and SafeDecimalMath are libraries that
    [Mint.sol] imports and uses on every amount; their files are not among
    the sources.  They are modelled here: SafeMath operations revert where
    the raw operation would wrap around or divide by zero; SafeDecimalMath
    is fixed-point arithmetic with 18 decimals that truncates toward zero. *)
Module SafeMath.

(** Modelled from the spec: [SafeMath.add], missing from the sources; reverts
    when the sum wraps around. *)
Definition add (a b : uint) : res uint :=
  let c := wrap (a + b) in
  if c >=? a then Ok c else Err "SafeMath: addition overflow".

(** Modelled from the spec: [SafeMath.sub], missing from the sources; reverts
    when the subtrahend exceeds the minuend. *)
Definition sub (a b : uint) : res uint :=
  if b <=? a then Ok (wrap (a - b)) else Err "SafeMath: subtraction overflow".

(** Modelled from the spec: [SafeMath.mul], missing from the sources; reverts
    when the product wraps around. *)
Definition mul (a b : uint) : res uint :=
  if a =? 0 then Ok 0
  else
    let c := wrap (a * b) in
    if c / a =? b then Ok c else Err "SafeMath: multiplication overflow".

(** Modelled from the spec: [SafeMath.div], missing from the sources;
    truncating division that reverts on a zero divisor. *)
Definition div (a b : uint) : res uint :=
  if 0 <? b then Ok (a / b) else Err "SafeMath: division by zero".

End SafeMath.

Module SafeDecimalMath.

(** Modelled from the spec: [SafeDecimalMath.unit()], missing from the
    sources; the fixed-point representation of one, with 18 decimals. *)
Definition unit : uint := 10 ^ 18.

(** Modelled from the spec: [SafeDecimalMath.multiplyDecimal], missing from
    the sources; the product of two fixed-point numbers, truncated. *)
Definition multiplyDecimal (x y : uint) : res uint :=
  match SafeMath.mul x y with
  | Ok p => Ok (p / unit)
  | Err m => Err m
  end.

(** Modelled from the spec: [SafeDecimalMath.divideDecimal], missing from
    the sources; the quotient of two fixed-point numbers, truncated. *)
Definition divideDecimal (x y : uint) : res uint :=
  match SafeMath.mul x unit with
  | Ok p => SafeMath.div p y
  | Err m => Err m
  end.

End SafeDecimalMath.

Import SafeDecimalMath.

(** ** Storage *)

Record AssetConfig : Type := mkAssetConfig {
  token : address;
  auctionDiscount : uint;
  minCollateralRatio : uint;
  endPrice : uint
}.

Record Position : Type := mkPosition {
  idx : uint;
  owner : address;
  collateralToken : address;
  collateralAmount : uint;
  assetToken : address;
  assetAmount : uint
}.

(** The value a mapping holds at a key never written, or after [delete]. *)
Definition zeroAssetConfig : AssetConfig := mkAssetConfig 0 0 0 0.
Definition zeroPosition : Position := mkPosition 0 0 0 0 0 0.

Record State : Type := mkState {
  ownable_owner : address;            (* OwnableUpgradeable._owner *)
  _factory : address;
  _oracle : address;
  _collector : address;
  _baseToken : address;
  _protocolFeeRate : uint;
  _priceExpireTime : uint;
  assetConfigMap : gmap Z AssetConfig;
  assetTokenArray : list address;
  idxPositionMap : gmap Z Position;
  postionIdxArray : list uint;
  currentpositionIndex : uint;
  ownerPositionIndex : gmap (Z * Z * Z) uint;
  _initialized : bool                 (* Initializable._initialized *)
}.

(** Reading a mapping: absent keys read as the zero value. *)
Definition readAssetConfig (s : State) (a : address) : AssetConfig :=
  default zeroAssetConfig (assetConfigMap s !! a).

Definition readPosition (s : State) (i : uint) : Position :=
  default zeroPosition (idxPositionMap s !! i).

Definition readOwnerPositionIndex (s : State) (o c a : address) : uint :=
  default 0 (ownerPositionIndex s !! (o, c, a)).

(** ** The environment of a call *)

(** Calls the contract makes to token contracts. *)
Inductive ExtCall : Type :=
| CallTransferFrom (tok sender recipient : address) (amount : uint)
| CallTransfer (tok recipient : address) (amount : uint)
| CallMint (tok recipient : address) (amount : uint)
| CallBurn (tok account : address) (amount : uint).

(** What a token contract answers: [transfer] and [transferFrom] return a
    boolean or revert; [mint] and [burn] return nothing or revert. *)
Inductive Response : Type := RetTrue | RetFalse | Throws.

Record Env : Type := mkEnv {
  msgSender : address;
  this : address;
  blockTimestamp : uint;
  (* IOracle(oracle).queryPrice(asset) = (price, lastUpdatedTime) *)
  oracleQueryPrice : address -> address -> uint * uint;
  (* the answer of a token contract to a call, given the calls made before *)
  respond : list ExtCall -> ExtCall -> Response
}.

(** ** Transactions

    A computation runs on the storage and the list of external calls made so
    far.  When it reverts, the outcome keeps the storage and the calls as
    they were at the point of failure, which lets statements speak about the
    order of checks, writes and calls; [transact] is what an observer sees:
    a reverted call leaves the storage as it was and no call takes effect. *)

Inductive outcome (A : Type) : Type :=
| Success (a : A) (s : State) (calls : list ExtCall)
| Reverted (msg : string) (s : State) (calls : list ExtCall).
Arguments Success {A} a s calls.
Arguments Reverted {A} msg s calls.

Definition M (A : Type) : Type := State -> list ExtCall -> outcome A.

Definition ret {A} (a : A) : M A := fun s c => Success a s c.

Definition bind {A B} (m : M A) (k : A -> M B) : M B :=
  fun s c =>
    match m s c with
    | Success a s' c' => k a s' c'
    | Reverted msg s' c' => Reverted msg s' c'
    end.

Notation "x <- m ;; k" := (bind m (fun x => k))
  (at level 100, m at next level, right associativity).
Notation "m ;;; k" := (bind m (fun _ => k))
  (at level 100, right associativity).

Definition revert {A} (msg : string) : M A := fun s c => Reverted msg s c.

Definition require (b : bool) (msg : string) : M () :=
  if b then ret () else revert msg.

Definition lift {A} (r : res A) : M A :=
  match r with
  | Ok a => ret a
  | Err msg => revert msg
  end.

Definition getState : M State := fun s c => Success s s c.
Definition putState (s' : State) : M () := fun _ c => Success () s' c.

(** An external call to a token: it is recorded, and the token's answer is
    returned; a token that reverts makes the caller revert.  The reason
    string of the token's own revert is not modelled: the caller reverts
    with one fixed message. *)
Definition extcall (env : Env) (call : ExtCall) : M bool :=
  fun s c =>
    match respond env c call with
    | RetTrue => Success true s (c ++ [call])
    | RetFalse => Success false s (c ++ [call])
    | Throws => Reverted "external call reverted" s (c ++ [call])
    end.

(** What is observable after a top-level call: the storage, the external
    calls that took effect, and the returned value or the revert message. *)
Definition transact {A} (m : M A) (s : State) : State * list ExtCall * res A :=
  match m s [] with
  | Success a s' c' => (s', c', Ok a)
  | Reverted msg _ _ => (s, [], Err msg)
  end.

(** Sequencing of pure computations that may revert. *)
Definition rbind {A B} (r : res A) (k : A -> res B) : res B :=
  match r with
  | Ok a => k a
  | Err msg => Err msg
  end.

Notation "x <~ r ;; k" := (rbind r (fun x => k))
  (at level 100, r at next level, right associativity).

Definition rrequire (b : bool) (msg : string) : res () :=
  if b then Ok () else Err msg.

(** ** Storage updates *)

Definition set_factory (v : address) (s : State) : State :=
  mkState (ownable_owner s) v (_oracle s) (_collector s) (_baseToken s)
    (_protocolFeeRate s) (_priceExpireTime s) (assetConfigMap s)
    (assetTokenArray s) (idxPositionMap s) (postionIdxArray s)
    (currentpositionIndex s) (ownerPositionIndex s)
    (_initialized s).

Definition set_ownable_owner (v : address) (s : State) : State :=
  mkState v (_factory s) (_oracle s) (_collector s) (_baseToken s)
    (_protocolFeeRate s) (_priceExpireTime s) (assetConfigMap s)
    (assetTokenArray s) (idxPositionMap s) (postionIdxArray s)
    (currentpositionIndex s) (ownerPositionIndex s)
    (_initialized s).

Definition set_config (factory oracle collector baseToken : address)
    (protocolFeeRate priceExpireTime : uint) (s : State) : State :=
  mkState (ownable_owner s) factory oracle collector baseToken
    protocolFeeRate priceExpireTime (assetConfigMap s)
    (assetTokenArray s) (idxPositionMap s) (postionIdxArray s)
    (currentpositionIndex s) (ownerPositionIndex s)
    (_initialized s).

Definition set_assetConfigMap (v : gmap Z AssetConfig) (s : State) : State :=
  mkState (ownable_owner s) (_factory s) (_oracle s) (_collector s) (_baseToken s)
    (_protocolFeeRate s) (_priceExpireTime s) v
    (assetTokenArray s) (idxPositionMap s) (postionIdxArray s)
    (currentpositionIndex s) (ownerPositionIndex s)
    (_initialized s).

Definition set_assetTokenArray (v : list address) (s : State) : State :=
  mkState (ownable_owner s) (_factory s) (_oracle s) (_collector s) (_baseToken s)
    (_protocolFeeRate s) (_priceExpireTime s) (assetConfigMap s)
    v (idxPositionMap s) (postionIdxArray s)
    (currentpositionIndex s) (ownerPositionIndex s)
    (_initialized s).

Definition set_idxPositionMap (v : gmap Z Position) (s : State) : State :=
  mkState (ownable_owner s) (_factory s) (_oracle s) (_collector s) (_baseToken s)
    (_protocolFeeRate s) (_priceExpireTime s) (assetConfigMap s)
    (assetTokenArray s) v (postionIdxArray s)
    (currentpositionIndex s) (ownerPositionIndex s)
    (_initialized s).

Definition set_postionIdxArray (v : list uint) (s : State) : State :=
  mkState (ownable_owner s) (_factory s) (_oracle s) (_collector s) (_baseToken s)
    (_protocolFeeRate s) (_priceExpireTime s) (assetConfigMap s)
    (assetTokenArray s) (idxPositionMap s) v
    (currentpositionIndex s) (ownerPositionIndex s)
    (_initialized s).

Definition set_currentpositionIndex (v : uint) (s : State) : State :=
  mkState (ownable_owner s) (_factory s) (_oracle s) (_collector s) (_baseToken s)
    (_protocolFeeRate s) (_priceExpireTime s) (assetConfigMap s)
    (assetTokenArray s) (idxPositionMap s) (postionIdxArray s)
    v (ownerPositionIndex s)
    (_initialized s).

Definition set_ownerPositionIndex (v : gmap (Z * Z * Z) uint) (s : State) : State :=
  mkState (ownable_owner s) (_factory s) (_oracle s) (_collector s) (_baseToken s)
    (_protocolFeeRate s) (_priceExpireTime s) (assetConfigMap s)
    (assetTokenArray s) (idxPositionMap s) (postionIdxArray s)
    (currentpositionIndex s) v
    (_initialized s).

Definition set_initialized (v : bool) (s : State) : State :=
  mkState (ownable_owner s) (_factory s) (_oracle s) (_collector s) (_baseToken s)
    (_protocolFeeRate s) (_priceExpireTime s) (assetConfigMap s)
    (assetTokenArray s) (idxPositionMap s) (postionIdxArray s)
    (currentpositionIndex s) (ownerPositionIndex s) v.

Definition modify (f : State -> State) : M () :=
  fun s c => Success () (f s) c.

(** ** The contract *)

(** The linear search of [saveAssetConfig] and [savePosition]: is [x] an
    element of the storage array? *)
Fixpoint arrayContains (arr : list Z) (x : Z) : bool :=
  match arr with
  | [] => false
  | y :: rest => if y =? x then true else arrayContains rest x
  end.

Definition onlyOwner (env : Env) : M () :=
  s <- getState ;;
  require (ownable_owner s =? msgSender env) "Ownable: caller is not the owner".

Definition onlyFactoryOrOwner (env : Env) : M () :=
  s <- getState ;;
  require ((_factory s =? msgSender env) || (ownable_owner s =? msgSender env))
          "Unauthorized, only factory/owner can perform".

Definition _updateConfig (factory oracle collector baseToken : address)
    (protocolFeeRate priceExpireTime : uint) : M () :=
  modify (set_config factory oracle collector baseToken protocolFeeRate priceExpireTime).

(** Modelled from the spec: the [initializer] modifier of OpenZeppelin's
    [Initializable], which is missing from the sources and which the
    specification does not describe; it is given the one-time behaviour of
    that library: on a storage that was initialized the call reverts,
    otherwise the flag is set before the body runs. *)
Definition initializer : M () :=
  s <- getState ;;
  require (negb (_initialized s)) "Initializable: contract is already initialized" ;;;
  modify (set_initialized true).

(** [initialize]; [__Ownable_init] makes the caller the owner. *)
Definition initialize (env : Env) (factory oracle collector baseToken : address)
    (protocolFeeRate priceExpireTime : uint) : M () :=
  initializer ;;;
  modify (set_ownable_owner (msgSender env)) ;;;
  modify (set_currentpositionIndex 1) ;;;
  require (protocolFeeRate <=? unit) "protocolFeeRate must be less than 100%." ;;;
  _updateConfig factory oracle collector baseToken protocolFeeRate priceExpireTime.

Definition setFactory (env : Env) (factory : address) : M () :=
  onlyOwner env ;;;
  require (negb (factory =? 0)) "Invalid parameter" ;;;
  modify (set_factory factory).

Definition updateConfig (env : Env) (factory oracle collector baseToken : address)
    (protocolFeeRate priceExpireTime : uint) : M () :=
  onlyOwner env ;;;
  _updateConfig factory oracle collector baseToken protocolFeeRate priceExpireTime.

Definition assertAuctionDiscount (auctionDiscount : uint) : M () :=
  require (auctionDiscount <=? unit) "auctionDiscount must be less than 100%.".

Definition assertMinCollateralRatio (minCollateralRatio : uint) : M () :=
  require (minCollateralRatio >=? unit) "minCollateralRatio must be bigger than 100%".

Definition saveAssetConfig (assetToken : address) (assetConfig : AssetConfig) : M () :=
  s <- getState ;;
  let exists_ := arrayContains (assetTokenArray s) assetToken in
  (if negb exists_
   then modify (fun s => set_assetTokenArray (assetTokenArray s ++ [assetToken]) s)
   else ret ()) ;;;
  modify (fun s => set_assetConfigMap (<[assetToken := assetConfig]> (assetConfigMap s)) s).

Definition _saveAsset (assetToken : address) (auctionDiscount minCollateralRatio : uint) : M () :=
  require (negb (assetToken =? 0)) "Invalid assetToken address" ;;;
  assertAuctionDiscount auctionDiscount ;;;
  assertMinCollateralRatio minCollateralRatio ;;;
  s <- getState ;;
  let assetConfig := readAssetConfig s assetToken in
  let assetConfig :=
    mkAssetConfig assetToken auctionDiscount minCollateralRatio (endPrice assetConfig) in
  saveAssetConfig assetToken assetConfig.

Definition updateAsset (env : Env) (assetToken : address)
    (auctionDiscount minCollateralRatio : uint) : M () :=
  onlyFactoryOrOwner env ;;;
  _saveAsset assetToken auctionDiscount minCollateralRatio.

Definition registerAsset (env : Env) (assetToken : address)
    (auctionDiscount minCollateralRatio : uint) : M () :=
  onlyFactoryOrOwner env ;;;
  s <- getState ;;
  require (token (readAssetConfig s assetToken) =? 0) "Asset was already registered" ;;;
  _saveAsset assetToken auctionDiscount minCollateralRatio.

Definition registerMigration (env : Env) (assetToken : address) (endPrice : uint) : M () :=
  onlyFactoryOrOwner env ;;;
  require (negb (assetToken =? 0)) "Invalid assetToken address" ;;;
  s <- getState ;;
  let assetConfig := readAssetConfig s assetToken in
  let assetConfig :=
    mkAssetConfig (token assetConfig) (auctionDiscount assetConfig) unit endPrice in
  saveAssetConfig assetToken assetConfig.

(** *** The position ledger *)

Definition savePosition (positionIndex : uint) (position : Position) : M () :=
  s <- getState ;;
  let exists_ := arrayContains (postionIdxArray s) positionIndex in
  (if negb exists_
   then modify (fun s => set_postionIdxArray (postionIdxArray s ++ [positionIndex]) s)
   else ret ()) ;;;
  modify (fun s => set_idxPositionMap (<[positionIndex := position]> (idxPositionMap s)) s).

(** Reading a storage array at an index below its length. *)
Definition arrayGet (arr : list Z) (i : nat) : Z := default 0 (arr !! i).

(** The loop of [removePosition], from [i] on, for [n] more rounds:
    [length] was read once before the loop, the array is read and written
    in place.  [delete postionIdxArray[length - 1]] zeroes the last slot;
    the array keeps its length. *)
Fixpoint removeLoop (positionIndex : uint) (length : nat) (n : nat) (i : nat)
    (arr : list uint) : list uint :=
  match n with
  | O => arr
  | S n' =>
      let arr' :=
        if arrayGet arr i =? positionIndex then
          let arr1 :=
            if negb (Nat.eqb i (length - 1))
            then <[i := arrayGet arr (length - 1)]> arr
            else arr in
          <[(length - 1)%nat := 0]> arr1
        else arr in
      removeLoop positionIndex length n' (S i) arr'
  end.

Definition removePosition (positionIndex : uint) : M () :=
  modify (fun s => set_idxPositionMap (delete positionIndex (idxPositionMap s)) s) ;;;
  s <- getState ;;
  let length := List.length (postionIdxArray s) in
  modify (set_postionIdxArray
            (removeLoop positionIndex length length 0 (postionIdxArray s))).

(** *** Prices *)

Definition readPrice (env : Env) (s : State) (tok : address) : uint * uint :=
  if _baseToken s =? tok then (unit, 2 ^ 256 - 1)
  else oracleQueryPrice env (_oracle s) tok.

Definition queryPrice (env : Env) (s : State)
    (targetAssetToken denominateAssetToken : address) : res uint :=
  let '(tokenPrice, lastUpdatedTime) := readPrice env s targetAssetToken in
  let '(denominateTokenPrice, denominateLastUpdatedTime) :=
    readPrice env s denominateAssetToken in
  _ <~ rrequire (tokenPrice >? 0) "Oracle price is zero" ;;
  _ <~ rrequire (denominateTokenPrice >? 0) "Oracle price is zero" ;;
  relativePrice <~ divideDecimal tokenPrice denominateTokenPrice ;;
  requiredTime <~ SafeMath.sub (blockTimestamp env) (_priceExpireTime s) ;;
  _ <~ rrequire ((lastUpdatedTime >=? requiredTime)
                 && (denominateLastUpdatedTime >=? requiredTime))
                "Price is too old" ;;
  Ok relativePrice.

Definition assertMigratedAsset (endPrice : uint) : M () :=
  require (endPrice =? 0) "Operation is not allowed for the deprecated asset".

Definition assertCollateral (positionCollateralToken collateralToken : address)
    (collateralAmount : uint) : M () :=
  require ((positionCollateralToken =? collateralToken) && negb (collateralAmount =? 0))
          " Wrong collateral".

Definition assertAsset (postionAssetToken assetToken : address) (assetAmount : uint) : M () :=
  require ((assetToken =? postionAssetToken) && (assetAmount >? 0)) "Wrong asset".

(** *** Operations on positions *)

Definition openPosition (env : Env) (collateralToken : address) (collateralAmount : uint)
    (assetToken : address) (collateralRatio : uint) : M uint :=
  let sender := msgSender env in
  require (negb (collateralToken =? 0)) "Invalid collateralToken address" ;;;
  require (negb (assetToken =? 0)) "Invalid assetContract address" ;;;
  require (collateralAmount >? 0) "Wrong collateral" ;;;
  ok <- extcall env (CallTransferFrom collateralToken sender (this env) collateralAmount) ;;
  require ok "Unable to execute transferFrom, recipient may have reverted" ;;;
  s <- getState ;;
  let assetConfig := readAssetConfig s assetToken in
  require (token assetConfig =? assetToken) "Asset not registed" ;;;
  require (endPrice assetConfig =? 0) "Operation is not allowed for the deprecated asset" ;;;
  require (minCollateralRatio assetConfig >? 0) "Invalid _minCollateralRatio" ;;;
  require (collateralRatio >=? minCollateralRatio assetConfig)
          "Can not open a position with low collateral ratio than minimum" ;;;
  relativeCollateralPrice <- lift (queryPrice env s collateralToken assetToken) ;;
  mintAmount <- lift (v <~ multiplyDecimal collateralAmount relativeCollateralPrice ;;
                      divideDecimal v collateralRatio) ;;
  require (mintAmount >? 0) "collateral is too small" ;;;
  let position :=
    mkPosition (currentpositionIndex s) sender collateralToken collateralAmount
               assetToken mintAmount in
  savePosition (idx position) position ;;;
  (* [currentpositionIndex += 1], a raw addition *)
  modify (fun s => set_currentpositionIndex (wrap (currentpositionIndex s + 1)) s) ;;;
  _ <- extcall env (CallMint assetToken sender mintAmount) ;;
  modify (fun s => set_ownerPositionIndex
                     (<[(sender, collateralToken, assetToken) := idx position]>
                        (ownerPositionIndex s)) s) ;;;
  ret (idx position).

Definition with_collateralAmount (p : Position) (v : uint) : Position :=
  mkPosition (idx p) (owner p) (collateralToken p) v (assetToken p) (assetAmount p).

Definition with_assetAmount (p : Position) (v : uint) : Position :=
  mkPosition (idx p) (owner p) (collateralToken p) (collateralAmount p) (assetToken p) v.

Definition deposit (env : Env) (positionIndex : uint) (collateralToken_ : address)
    (collateralAmount_ : uint) : M () :=
  let sender := msgSender env in
  require (negb (collateralToken_ =? 0)) "Invalid collateralToken address" ;;;
  require (positionIndex >? 0) "Invalid positionIndex" ;;;
  s <- getState ;;
  let position := readPosition s positionIndex in
  require (owner position =? sender) "deposit unauthorized" ;;;
  assertCollateral (collateralToken position) collateralToken_ collateralAmount_ ;;;
  let assetToken_ := assetToken position in
  let assetConfig := readAssetConfig s assetToken_ in
  assertMigratedAsset (endPrice assetConfig) ;;;
  ok <- extcall env (CallTransferFrom collateralToken_ sender (this env) collateralAmount_) ;;
  require ok "Unable to execute transferFrom, recipient may have reverted" ;;;
  newAmount <- lift (SafeMath.add (collateralAmount position) collateralAmount_) ;;
  let position := with_collateralAmount position newAmount in
  savePosition positionIndex position.

Definition withdraw (env : Env) (positionIndex : uint) (collateralToken_ : address)
    (withdrawAmount : uint) : M () :=
  require (negb (collateralToken_ =? 0)) "invalid address" ;;;
  s <- getState ;;
  let position := readPosition s positionIndex in
  require (owner position =? msgSender env) "withdraw unauthorized" ;;;
  assertCollateral (collateralToken position) collateralToken_ withdrawAmount ;;;
  require (collateralAmount position >=? withdrawAmount)
          "Cannot withdraw more than you provide" ;;;
  let assetToken_ := assetToken position in
  let assetConfig := readAssetConfig s assetToken_ in
  relativeCollateralPrice <-
    lift (queryPrice env s (collateralToken position) (assetToken position)) ;;
  newCollateralAmount <- lift (SafeMath.sub (collateralAmount position) withdrawAmount) ;;
  assetValueInCollateralAsset <-
    lift (multiplyDecimal (assetAmount position) relativeCollateralPrice) ;;
  required <- lift (multiplyDecimal assetValueInCollateralAsset
                                    (minCollateralRatio assetConfig)) ;;
  require (required <=? newCollateralAmount)
          "Cannot withdraw collateral over than minimum collateral ratio" ;;;
  let position := with_collateralAmount position newCollateralAmount in
  (if (collateralAmount position =? 0) && (assetAmount position =? 0)
   then removePosition positionIndex
   else savePosition positionIndex position) ;;;
  s1 <- getState ;;
  require (_protocolFeeRate s1 >? 0) "_protocolFeeRate is zero" ;;;
  protocolFee <- lift (multiplyDecimal withdrawAmount (_protocolFeeRate s1)) ;;
  toSender <- lift (SafeMath.sub withdrawAmount protocolFee) ;;
  ok <- extcall env (CallTransfer collateralToken_ (msgSender env) toSender) ;;
  require ok "Mint:withdraw,transfer to sender failed" ;;;
  ok <- extcall env (CallTransfer collateralToken_ (_collector s1) protocolFee) ;;
  require ok "Mint:withdraw,IERC20 transfer to collector failed".

Definition mint (env : Env) (positionIndex : uint) (assetToken_ : address)
    (assetAmount_ : uint) : M () :=
  require (negb (assetToken_ =? 0)) "invalid address" ;;;
  s <- getState ;;
  let position := readPosition s positionIndex in
  require (owner position =? msgSender env) "mint unauthorized" ;;;
  assertAsset (assetToken position) assetToken_ assetAmount_ ;;;
  let assetConfig := readAssetConfig s (assetToken position) in
  assertMigratedAsset (endPrice assetConfig) ;;;
  relativeCollateralPrice <-
    lift (queryPrice env s (collateralToken position) (assetToken position)) ;;
  newAssetAmount <- lift (SafeMath.add assetAmount_ (assetAmount position)) ;;
  assetValueInCollateralAsset <-
    lift (multiplyDecimal newAssetAmount relativeCollateralPrice) ;;
  required <- lift (multiplyDecimal assetValueInCollateralAsset
                                    (minCollateralRatio assetConfig)) ;;
  require (required <=? collateralAmount position)
          "Cannot mint asset over than min collateral ratio" ;;;
  newAmount <- lift (SafeMath.add (assetAmount position) assetAmount_) ;;
  let position := with_assetAmount position newAmount in
  savePosition positionIndex position ;;;
  _ <- extcall env (CallMint (token assetConfig) (msgSender env) assetAmount_) ;;
  ret ().

Definition closePosition (env : Env) (positionIndex : uint) : M () :=
  let positionOwner := msgSender env in
  s <- getState ;;
  let position := readPosition s positionIndex in
  require ((assetAmount position >? 0) && negb (assetToken position =? 0)
           && (collateralAmount position >? 0) && (assetAmount position >? 0))
          "Nothing to close" ;;;
  require (owner position =? positionOwner) "closePosition: unauthorized" ;;;
  ok <- extcall env (CallTransferFrom (assetToken position) positionOwner (this env)
                                      (assetAmount position)) ;;
  require ok "transferFrom failed" ;;;
  _ <- extcall env (CallBurn (assetToken position) (this env) (assetAmount position)) ;;
  let withdrawAmount := collateralAmount position in
  protocolFee <- lift (multiplyDecimal withdrawAmount (_protocolFeeRate s)) ;;
  toSender <- lift (SafeMath.sub withdrawAmount protocolFee) ;;
  ok <- extcall env (CallTransfer (collateralToken position) positionOwner toSender) ;;
  require ok "Mint:withdraw,transfer to sender failed" ;;;
  ok <- extcall env (CallTransfer (collateralToken position) (_collector s) protocolFee) ;;
  require ok "Mint:withdraw,IERC20 transfer to collector failed" ;;;
  removePosition positionIndex ;;;
  modify (fun s => set_ownerPositionIndex
                     (delete (positionOwner, collateralToken position, assetToken position)
                             (ownerPositionIndex s)) s).

(** *** Liquidation *)

Definition isValidPostion (s : State) (position : Position) (assetPrice : uint) : res bool :=
  assetValue <~ multiplyDecimal (assetAmount position) assetPrice ;;
  currentCollateralRatio <~ divideDecimal (collateralAmount position) assetValue ;;
  Ok (currentCollateralRatio >=? minCollateralRatio (readAssetConfig s (assetToken position))).

Definition auction (env : Env) (positionIndex : uint) (liquidateAssetAmount : uint) : M () :=
  let sender := msgSender env in
  s <- getState ;;
  let position := readPosition s positionIndex in
  let assetConfig := readAssetConfig s (assetToken position) in
  let assetPrice := fst (oracleQueryPrice env (_oracle s) (assetToken position)) in
  valid <- lift (isValidPostion s position assetPrice) ;;
  require (negb valid) "Mint: AUCTION_CANNOT_LIQUIDATE_SAFELY_POSITION" ;;;
  discountedPrice <-
    lift (d <~ SafeMath.sub unit (auctionDiscount assetConfig) ;;
          divideDecimal assetPrice d) ;;
  maxLiquidateAssetAmount <- lift (divideDecimal (collateralAmount position) discountedPrice) ;;
  let liquidateAssetAmount :=
    if liquidateAssetAmount >? maxLiquidateAssetAmount
    then maxLiquidateAssetAmount else liquidateAssetAmount in
  let liquidateAssetAmount :=
    if liquidateAssetAmount >? assetAmount position
    then assetAmount position else liquidateAssetAmount in
  ok <- extcall env (CallTransferFrom (assetToken position) sender (this env)
                                      liquidateAssetAmount) ;;
  require ok "Mint: AUCTION_TRANSFER_FROM_FAIL" ;;;
  returnCollateralAmount <- lift (multiplyDecimal liquidateAssetAmount discountedPrice) ;;
  newCollateral <- lift (SafeMath.sub (collateralAmount position) returnCollateralAmount) ;;
  let position1 := with_collateralAmount position newCollateral in
  newAsset <- lift (SafeMath.sub (assetAmount position1) liquidateAssetAmount) ;;
  let position2 := with_assetAmount position1 newAsset in
  (if collateralAmount position2 =? 0 then
     removePosition positionIndex
   else if assetAmount position2 =? 0 then
     (* the boolean returned by this transfer is not looked at *)
     _ <- extcall env (CallTransfer (collateralToken position2) (owner position2)
                                    (collateralAmount position2)) ;;
     removePosition positionIndex
   else
     modify (fun s => set_idxPositionMap
                        (<[positionIndex := position2]> (idxPositionMap s)) s)) ;;;
  s1 <- getState ;;
  protocolFee <- lift (multiplyDecimal returnCollateralAmount (_protocolFeeRate s1)) ;;
  returnCollateralAmount' <- lift (SafeMath.sub returnCollateralAmount protocolFee) ;;
  ok <- extcall env (CallTransfer (collateralToken position2) (_collector s1) protocolFee) ;;
  require ok "Mint: AUCTION_TRANSFER_FAIL" ;;;
  ok <- extcall env (CallTransfer (collateralToken position2) sender returnCollateralAmount') ;;
  require ok "Mint: AUCTION_TRANSFER_FAIL".

(** *** Queries *)

Definition queryPosition (s : State) (positionIndex : uint)
    : address * address * uint * address * uint :=
  let m := readPosition s positionIndex in
  (owner m, collateralToken m, collateralAmount m, assetToken m, assetAmount m).

Definition queryPositionIndex (s : State) (postionOwner collateralToken assetToken : address)
    : uint :=
  readOwnerPositionIndex s postionOwner collateralToken assetToken.

Definition queryAssetConfig (s : State) (assetToken : address) : uint * uint * uint :=
  let m := readAssetConfig s assetToken in
  (auctionDiscount m, minCollateralRatio m, endPrice m).

Definition queryConfig (s : State)
    : address * address * address * address * uint * uint :=
  (_factory s, _oracle s, _collector s, _baseToken s, _protocolFeeRate s,
   _priceExpireTime s).

Definition calculateProtocolFee (s : State) (returnCollateralAmount : uint) : res uint :=
  multiplyDecimal returnCollateralAmount (_protocolFeeRate s).

Definition transferAsset (env : Env) (assetToken sender recipient : address)
    (amount : uint) : M () :=
  ok <- extcall env (CallTransferFrom assetToken sender recipient amount) ;;
  require ok "Unable to execute transferFrom, recipient may have reverted".

(** The six parallel memory arrays the enumeration queries return. *)
Record PositionArrays : Type := mkPositionArrays {
  idxes : list uint;
  positionOwners : list address;
  collateralTokens : list address;
  collateralAmounts : list uint;
  assetTokens : list address;
  assetAmounts : list uint
}.

(** [new uint[](length)] for each of the six arrays. *)
Definition newArrays (length : nat) : PositionArrays :=
  mkPositionArrays (replicate length 0) (replicate length 0) (replicate length 0)
                   (replicate length 0) (replicate length 0) (replicate length 0).

(** A write to a memory array; an index beyond the length reverts. *)
Definition memWrite (arr : list Z) (i : nat) (v : Z) : res (list Z) :=
  if (i <? List.length arr)%nat then Ok (<[i := v]> arr)
  else Err "array index out of bounds".

(** The body of the [if] in the enumeration loops: one row at [index]. *)
Definition writeRow (out : PositionArrays) (index : nat) (position : Position)
    : res PositionArrays :=
  a1 <~ memWrite (idxes out) index (idx position) ;;
  a2 <~ memWrite (positionOwners out) index (owner position) ;;
  a3 <~ memWrite (collateralTokens out) index (collateralToken position) ;;
  a4 <~ memWrite (collateralAmounts out) index (collateralAmount position) ;;
  a5 <~ memWrite (assetTokens out) index (assetToken position) ;;
  a6 <~ memWrite (assetAmounts out) index (assetAmount position) ;;
  Ok (mkPositionArrays a1 a2 a3 a4 a5 a6).

(** The enumeration loop over [postionIdxArray]: [todo] is the part of the
    array still to visit, [index] the next free row. *)
Fixpoint scanPositions (s : State) (cond : Position -> res bool) (todo : list uint)
    (index : nat) (out : PositionArrays) : res PositionArrays :=
  match todo with
  | [] => Ok out
  | i :: rest =>
      let position := readPosition s i in
      b <~ cond position ;;
      if (b : bool) then
        out' <~ writeRow out index position ;;
        scanPositions s cond rest (S index) out'
      else scanPositions s cond rest index out
  end.

Definition queryInvalidPositioins (env : Env) (s : State) (asset : address)
    : res PositionArrays :=
  let out := newArrays 0 in
  let assetPrice := fst (oracleQueryPrice env (_oracle s) asset) in
  if assetPrice >? 0 then
    scanPositions s
      (fun position =>
         if assetToken position =? asset
         then v <~ isValidPostion s position assetPrice ;; Ok (negb v)
         else Ok false)
      (postionIdxArray s) 0 out
  else Ok out.

Definition queryAllPositions (s : State) (owner_ : address) : res PositionArrays :=
  _ <~ rrequire (negb (owner_ =? 0)) "Invalid address" ;;
  let length := List.length (postionIdxArray s) in
  scanPositions s (fun position => Ok (owner position =? owner_))
    (postionIdxArray s) 0 (newArrays length).

Definition queryPositions (s : State) (owner_ assetToken_ : address) : res PositionArrays :=
  let length := List.length (postionIdxArray s) in
  scanPositions s
    (fun position =>
       Ok (((owner position =? owner_) || (owner_ =? 0))
           && ((assetToken position =? assetToken_) || (assetToken_ =? 0))))
    (postionIdxArray s) 0 (newArrays length).

(** ** Outcomes of a run *)

(** The run failed. *)
Definition reverts {A} (o : outcome A) : Prop :=
  match o with
  | Reverted _ _ _ => True
  | Success _ _ _ => False
  end.

(** The run failed with the given message. *)
Definition revertsWith {A} (msg : string) (o : outcome A) : Prop :=
  match o with
  | Reverted m _ _ => m = msg
  | Success _ _ _ => False
  end.

(** The storage an observer sees after a top-level call. *)
Definition exec {A} (m : M A) (s : State) : State := fst (fst (transact m s)).

(** The external calls that took effect in a top-level call. *)
Definition callsOf {A} (m : M A) (s : State) : list ExtCall := snd (fst (transact m s)).

(** ** Auxiliary definitions for the statements *)

(** The storage after [savePosition]. *)
Definition savePosition_state (positionIndex : uint) (position : Position) (s : State) : State :=
  set_idxPositionMap (<[positionIndex := position]> (idxPositionMap s))
    (if arrayContains (postionIdxArray s) positionIndex then s
     else set_postionIdxArray (postionIdxArray s ++ [positionIndex]) s).

(** The storage after [removePosition]. *)
Definition removePosition_state (positionIndex : uint) (s : State) : State :=
  set_postionIdxArray
    (removeLoop positionIndex (List.length (postionIdxArray s))
                (List.length (postionIdxArray s)) 0 (postionIdxArray s))
    (set_idxPositionMap (delete positionIndex (idxPositionMap s)) s).

(** The caller passes [onlyFactoryOrOwner]. *)
Definition authorized (env : Env) (s : State) : Prop :=
  _factory s = msgSender env \/ ownable_owner s = msgSender env.

(** The messages with which the arithmetic libraries revert. *)
Definition safeMathError (m : string) : Prop :=
  m = "SafeMath: addition overflow"%string
  \/ m = "SafeMath: subtraction overflow"%string
  \/ m = "SafeMath: multiplication overflow"%string
  \/ m = "SafeMath: division by zero"%string.

(** The messages of the checks in question. *)
Definition PositionSafe : string := "Mint: AUCTION_CANNOT_LIQUIDATE_SAFELY_POSITION".
Definition ZeroPrice : string := "Oracle price is zero".
Definition StalePrice : string := "Price is too old".

(** The solvency predicate in the words of the specification: a position
    is valid when its collateral is at least
    [assetAmount * relativePrice * minCollateralRatio], with [relativePrice]
    the price of the asset token over the price of the collateral token as
    [queryPrice] computes it (with its checks for zero and stale prices),
    products in truncating fixed point.  It is compared below with
    [isValidPostion], the predicate [auction] uses. *)
Definition spec_isValidPosition (env : Env) (s : State) (position : Position) : res bool :=
  relativePrice <~ queryPrice env s (assetToken position) (collateralToken position) ;;
  debtValue <~ multiplyDecimal (assetAmount position) relativePrice ;;
  required <~ multiplyDecimal debtValue
                (minCollateralRatio (readAssetConfig s (assetToken position))) ;;
  Ok (collateralAmount position >=? required).

(** The top-level calls that change positions. *)
Inductive Operation : Type :=
| OpenPosition (collateralToken_ : address) (collateralAmount_ : uint)
               (assetToken_ : address) (collateralRatio : uint)
| Deposit (positionIndex : uint) (collateralToken_ : address) (collateralAmount_ : uint)
| Withdraw (positionIndex : uint) (collateralToken_ : address) (withdrawAmount : uint)
| Mint (positionIndex : uint) (assetToken_ : address) (assetAmount_ : uint)
| ClosePosition (positionIndex : uint)
| Auction (positionIndex : uint) (liquidateAssetAmount : uint).

Definition perform (env : Env) (op : Operation) : M () :=
  match op with
  | OpenPosition c a t r => _ <- openPosition env c a t r ;; ret ()
  | Deposit i c a => deposit env i c a
  | Withdraw i c a => withdraw env i c a
  | Mint i t a => mint env i t a
  | ClosePosition i => closePosition env i
  | Auction i a => auction env i a
  end.

(** The messages of the validations of [openPosition] that concern the
    asset and the amount to mint: the asset is registered, it is not
    migrated, its minimum ratio is set, the ratio is at least the minimum,
    the minted amount is positive. *)
Definition openPositionValidationError (m : string) : Prop :=
  m = "Asset not registed"%string
  \/ m = "Operation is not allowed for the deprecated asset"%string
  \/ m = "Invalid _minCollateralRatio"%string
  \/ m = "Can not open a position with low collateral ratio than minimum"%string
  \/ m = "collateral is too small"%string.

(** Validation staged before any external call and any write: a call of
    [openPosition] that fails one of these validations has, at the point of
    failure, initiated no external call and written nothing. *)
Definition openPositionValidatesFirst (env : Env) (s : State)
    (collateralToken_ : address) (collateralAmount_ : uint)
    (assetToken_ : address) (collateralRatio : uint) : Prop :=
  forall m s1 calls,
    openPosition env collateralToken_ collateralAmount_ assetToken_ collateralRatio s []
    = Reverted m s1 calls ->
    openPositionValidationError m ->
    s1 = s /\ calls = [].

(** Calls of [transfer] and [transferFrom], the ones that return a boolean. *)
Definition isTransfer (call : ExtCall) : bool :=
  match call with
  | CallTransferFrom _ _ _ _ | CallTransfer _ _ _ => true
  | CallMint _ _ _ | CallBurn _ _ _ => false
  end.

(** The transfers among [calls], made after the calls [before], to which
    the token answered [false]. *)
Fixpoint refusedTransfers (env : Env) (before calls : list ExtCall) : list ExtCall :=
  match calls with
  | [] => []
  | call :: rest =>
      (if isTransfer call
       then match respond env before call with
            | RetFalse => [call]
            | _ => []
            end
       else [])
      ++ refusedTransfers env (before ++ [call]) rest
  end.

(** The ledger invariant in question: the array of position indices lists
    exactly the indices at which a position is stored, each once. *)
Definition liveIndexInvariant (s : State) : Prop :=
  NoDup (postionIdxArray s)
  /\ forall i, i ∈ postionIdxArray s <-> is_Some (idxPositionMap s !! i).

(** *** Notions for the further properties *)

(** The configuration and the asset registry of two storages agree. *)
Definition sameConfiguration (s s' : State) : Prop :=
  ownable_owner s' = ownable_owner s
  /\ queryConfig s' = queryConfig s
  /\ assetConfigMap s' = assetConfigMap s
  /\ assetTokenArray s' = assetTokenArray s.

(** The position ledger of two storages agrees: positions, array of indices,
    counter and owner's index. *)
Definition sameLedger (s s' : State) : Prop :=
  idxPositionMap s' = idxPositionMap s
  /\ postionIdxArray s' = postionIdxArray s
  /\ currentpositionIndex s' = currentpositionIndex s
  /\ ownerPositionIndex s' = ownerPositionIndex s.

(** The asset registry is consistent: the array of assets has no duplicate,
    does not list the zero address, and lists every asset that has a stored
    configuration. *)
Definition registryInvariant (s : State) : Prop :=
  NoDup (assetTokenArray s)
  /\ (0 ∉ assetTokenArray s)
  /\ forall a, is_Some (assetConfigMap s !! a) -> a ∈ assetTokenArray s.

(** No nonzero value occurs twice in the array. *)
Definition distinctNonzero (arr : list Z) : Prop :=
  forall (i j : nat) x, x <> 0 -> arr !! i = Some x -> arr !! j = Some x -> i = j.

(** The position ledger is consistent: the counter is positive; every
    stored position carries its own index, which is positive and below the
    counter; the nonzero entries of the array of indices are exactly the
    indices of the stored positions, each once (zero entries are slots left
    behind by removals). *)
Definition ledgerInvariant (s : State) : Prop :=
  0 < currentpositionIndex s
  /\ (forall i p, idxPositionMap s !! i = Some p ->
                  idx p = i /\ 0 < i < currentpositionIndex s)
  /\ (forall i, i <> 0 -> (i ∈ postionIdxArray s <-> is_Some (idxPositionMap s !! i)))
  /\ distinctNonzero (postionIdxArray s).

(** The stored positions are sound: each carries a positive debt in a
    nonzero asset token against a nonzero collateral token; and every entry
    of the owner's index is below the counter and, where a position is
    stored at it, that position belongs to this owner and has this pair of
    tokens. *)
Definition positionsInvariant (s : State) : Prop :=
  (forall i p, idxPositionMap s !! i = Some p ->
               0 < assetAmount p /\ assetToken p <> 0 /\ collateralToken p <> 0)
  /\ (forall o c a i,
         ownerPositionIndex s !! (o, c, a) = Some i ->
         i < currentpositionIndex s
         /\ forall p, idxPositionMap s !! i = Some p ->
                      owner p = o /\ collateralToken p = c /\ assetToken p = a).

(** The top-level calls of the owner and the factory, which change the
    configuration and the registry. *)
Inductive Administration : Type :=
| SetFactory (factory : address)
| UpdateConfig (factory oracle collector baseToken : address)
               (protocolFeeRate priceExpireTime : uint)
| UpdateAsset (assetToken_ : address) (auctionDiscount_ minCollateralRatio_ : uint)
| RegisterAsset (assetToken_ : address) (auctionDiscount_ minCollateralRatio_ : uint)
| RegisterMigration (assetToken_ : address) (endPrice_ : uint).

Definition administer (env : Env) (a : Administration) : M () :=
  match a with
  | SetFactory f => setFactory env f
  | UpdateConfig f o c b r t => updateConfig env f o c b r t
  | UpdateAsset a d r => updateAsset env a d r
  | RegisterAsset a d r => registerAsset env a d r
  | RegisterMigration a e => registerMigration env a e
  end.

(** The six result arrays that hold the given rows, followed by [k] rows of
    zeros. *)
Definition arraysOf (rows : list Position) (k : nat) : PositionArrays :=
  mkPositionArrays (map idx rows ++ replicate k 0)
                   (map owner rows ++ replicate k 0)
                   (map collateralToken rows ++ replicate k 0)
                   (map collateralAmount rows ++ replicate k 0)
                   (map assetToken rows ++ replicate k 0)
                   (map assetAmount rows ++ replicate k 0).

(** The positions an enumeration visits, in the order of the array of
    indices, that pass the filter. *)
Definition visited (s : State) (f : Position -> bool) : list Position :=
  List.filter f (map (readPosition s) (postionIdxArray s)).

(** ** A small deployment, for the examples

    One base token (the stablecoin), one synthetic asset, one further
    collateral token priced by the oracle, and two users. *)
Module Example.

Definition deployer : address := 1.
Definition alice : address := 11.
Definition bob : address := 12.
Definition oracle : address := 50.
Definition collector : address := 60.
Definition factory : address := 70.
Definition busd : address := 100.
Definition kApple : address := 200.
Definition wbnb : address := 300.
Definition mintContract : address := 999.

Definition now : uint := 1000.

(** The oracle quotes [kApple] at [applePrice], updated at [appleTime],
    and [wbnb] at 2.0; it knows no other asset. *)
Definition quotes (applePrice appleTime : uint) (_ asset : address) : uint * uint :=
  if asset =? kApple then (applePrice, appleTime)
  else if asset =? wbnb then (2 * unit, now)
  else (0, 0).

Definition allTrue : list ExtCall -> ExtCall -> Response := fun _ _ => RetTrue.

Definition env (sender : address) (applePrice : uint)
    (answers : list ExtCall -> ExtCall -> Response) : Env :=
  mkEnv sender mintContract now (quotes applePrice now) answers.

Definition blank : State := mkState 0 0 0 0 0 0 0 ∅ [] ∅ [] 0 ∅ false.

(** Deployed with the given protocol fee rate and prices valid for 60
    seconds; [kApple] registered with discount 0.5 and minimum ratio 1.5. *)
Definition deployed (protocolFeeRate : uint) : State :=
  exec (registerAsset (env deployer (10 * unit) allTrue) kApple
                      (5 * 10 ^ 17) (15 * 10 ^ 17))
    (exec (initialize (env deployer (10 * unit) allTrue) factory oracle collector busd
                      protocolFeeRate 60) blank).

(** Alice opens position 1: 1500 base tokens at ratio 1.5 while [kApple]
    is at 10, which mints 100 [kApple]. *)
Definition aliceOpened (protocolFeeRate : uint) : State :=
  exec (openPosition (env alice (10 * unit) allTrue) busd (1500 * unit) kApple
                     (15 * 10 ^ 17))
    (deployed protocolFeeRate).

(** Then Bob opens position 2: 3000 base tokens at ratio 2.0. *)
Definition bobOpened (protocolFeeRate : uint) : State :=
  exec (openPosition (env bob (10 * unit) allTrue) busd (3000 * unit) kApple (2 * unit))
    (aliceOpened protocolFeeRate).

(** Another run: while [kApple] is at 1.0, Alice opens position 1 with 100
    [wbnb] (worth 200) at ratio 2.0, which mints 100 [kApple]. *)
Definition wbnbOpened (protocolFeeRate : uint) : State :=
  exec (openPosition (env alice unit allTrue) wbnb (100 * unit) kApple (2 * unit))
    (deployed protocolFeeRate).

(** A third run: the auction discount of [kApple] is lowered to 0.2 after
    Alice and Bob opened their positions. *)
Definition discountLowered (protocolFeeRate : uint) : State :=
  exec (updateAsset (env deployer (10 * unit) allTrue) kApple (2 * 10 ^ 17) (15 * 10 ^ 17))
    (bobOpened protocolFeeRate).

(** Token contracts that answer [false] to every transfer to [who] and
    [true] to every other call. *)
Definition refusing (who : address) : list ExtCall -> ExtCall -> Response :=
  fun _ call =>
    match call with
    | CallTransfer _ recipient _ => if recipient =? who then RetFalse else RetTrue
    | _ => RetTrue
    end.

End Example.

(** * Properties *)

(** ** Reasoning about transactions *)

Lemma revertsWith_reverts {A} msg (o : outcome A) : revertsWith msg o -> reverts o.
Proof. destruct o; simpl; auto. Qed.

Lemma bind_Success {A B} (m : M A) (k : A -> M B) s c b s2 c2 :
  bind m k s c = Success b s2 c2 <->
  exists a s1 c1, m s c = Success a s1 c1 /\ k a s1 c1 = Success b s2 c2.
Proof.
  unfold bind. split.
  - destruct (m s c) as [a s1 c1 | msg s1 c1]; [eauto | discriminate].
  - intros (a & s1 & c1 & -> & H). exact H.
Qed.

Lemma bind_reverts {A B} (m : M A) (k : A -> M B) s c :
  (forall a s1 c1, m s c = Success a s1 c1 -> reverts (k a s1 c1)) ->
  reverts (bind m k s c).
Proof.
  unfold bind. intros H. destruct (m s c) as [a s1 c1 | msg s1 c1]; simpl; auto.
Qed.

Lemma bind_Reverted {A B} (m : M A) (k : A -> M B) s c msg s2 c2 :
  bind m k s c = Reverted msg s2 c2 <->
  m s c = Reverted msg s2 c2 \/
  exists a s1 c1, m s c = Success a s1 c1 /\ k a s1 c1 = Reverted msg s2 c2.
Proof.
  unfold bind. split.
  - destruct (m s c) as [a s1 c1 | m1 s1 c1]; intros H; [right; eauto | left].
    injection H as -> -> ->. reflexivity.
  - intros [-> | (a & s1 & c1 & -> & H)]; auto.
Qed.

Lemma bind_run {A B} (m : M A) (k : A -> M B) s c a s' c' :
  m s c = Success a s' c' -> bind m k s c = k a s' c'.
Proof. intros H. unfold bind. rewrite H. reflexivity. Qed.

Lemma ret_Success {A} (a : A) s c b s' c' :
  ret a s c = Success b s' c' <-> b = a /\ s' = s /\ c' = c.
Proof. unfold ret. split; [intros [= <- <- <-] | intros (-> & -> & ->)]; auto. Qed.

Lemma require_Success b msg s c u s' c' :
  require b msg s c = Success u s' c' <-> b = true /\ s' = s /\ c' = c.
Proof.
  unfold require, ret, revert. destruct u, b; split;
    try discriminate; try (intros [= <- <-]; auto);
    try (intros (? & -> & ->)); try reflexivity; try discriminate.
Qed.

Lemma require_Reverted b msg s c m s' c' :
  require b msg s c = Reverted m s' c' <-> b = false /\ m = msg /\ s' = s /\ c' = c.
Proof.
  unfold require, ret, revert. destruct b; split;
    try discriminate; try (intros [= <- <- <-]; auto);
    try (intros (? & -> & -> & ->)); try reflexivity; try discriminate.
Qed.

Lemma bind_require_true {B} b msg (k : () -> M B) s c :
  b = true -> bind (require b msg) k s c = k () s c.
Proof. intros ->. reflexivity. Qed.

Lemma bind_require_false {B} b msg (k : () -> M B) s c :
  b = false -> bind (require b msg) k s c = Reverted msg s c.
Proof. intros ->. reflexivity. Qed.

Lemma lift_Success {A} (r : res A) s c a s' c' :
  lift r s c = Success a s' c' <-> r = Ok a /\ s' = s /\ c' = c.
Proof.
  unfold lift, ret, revert. destruct r; split;
    try discriminate; try (intros [= <- <- <-]; auto);
    try (intros ([= ->] & -> & ->)); try reflexivity;
    try (intros (? & _); discriminate).
Qed.

Lemma lift_Reverted {A} (r : res A) s c m s' c' :
  lift r s c = Reverted m s' c' <-> r = Err m /\ s' = s /\ c' = c.
Proof.
  unfold lift, ret, revert. destruct r; split;
    try discriminate; try (intros [= <- <- <-]; auto);
    try (intros ([= ->] & -> & ->)); try reflexivity;
    try (intros (? & _); discriminate).
Qed.

Lemma getState_Success s c a s' c' :
  getState s c = Success a s' c' <-> a = s /\ s' = s /\ c' = c.
Proof. unfold getState. split; [intros [= <- <- <-] | intros (-> & -> & ->)]; auto. Qed.

Lemma bind_getState {B} (k : State -> M B) s c : bind getState k s c = k s s c.
Proof. reflexivity. Qed.

Lemma modify_Success f s c u s' c' :
  modify f s c = Success u s' c' <-> s' = f s /\ c' = c.
Proof.
  unfold modify. destruct u. split; [intros [= <- <-] | intros (-> & ->)]; auto.
Qed.

Lemma extcall_Success env call s c b s' c' :
  extcall env call s c = Success b s' c' <->
  s' = s /\ c' = c ++ [call] /\
  ((b = true /\ respond env c call = RetTrue) \/
   (b = false /\ respond env c call = RetFalse)).
Proof.
  unfold extcall. destruct (respond env c call); split;
    try discriminate; try (intros [= <- <- <-]; auto);
    intros (-> & -> & [[-> ?] | [-> ?]]); try reflexivity; try discriminate.
Qed.

Lemma extcall_Reverted env call s c m s' c' :
  extcall env call s c = Reverted m s' c' ->
  respond env c call = Throws /\ m = "external call reverted"%string
  /\ s' = s /\ c' = c ++ [call].
Proof.
  unfold extcall. destruct (respond env c call); try discriminate.
  intros [= <- <- <-]. auto.
Qed.

Lemma bind_extcall_true {B} env call (k : bool -> M B) s c :
  respond env c call = RetTrue -> bind (extcall env call) k s c = k true s (c ++ [call]).
Proof. intros H. unfold bind, extcall. rewrite H. reflexivity. Qed.

Lemma bind_extcall_false {B} env call (k : bool -> M B) s c :
  respond env c call = RetFalse -> bind (extcall env call) k s c = k false s (c ++ [call]).
Proof. intros H. unfold bind, extcall. rewrite H. reflexivity. Qed.

Lemma transact_Reverted {A} (m : M A) s msg s1 c1 :
  m s [] = Reverted msg s1 c1 -> transact m s = (s, [], Err msg).
Proof. intros H. unfold transact. rewrite H. reflexivity. Qed.

Lemma rbind_Ok {A B} (r : res A) (k : A -> res B) b :
  rbind r k = Ok b <-> exists a, r = Ok a /\ k a = Ok b.
Proof.
  unfold rbind. destruct r; split; try discriminate; eauto;
    intros (a0 & Ha & H); try discriminate.
  injection Ha as ->. exact H.
Qed.

Lemma rbind_Err {A B} (r : res A) (k : A -> res B) m :
  rbind r k = Err m -> r = Err m \/ exists a, r = Ok a /\ k a = Err m.
Proof.
  destruct r; simpl; intros H; [right; eauto | left].
  injection H as ->. reflexivity.
Qed.

Lemma rrequire_Ok b msg u : rrequire b msg = Ok u <-> b = true.
Proof.
  unfold rrequire. destruct u, b; split; try discriminate; auto.
Qed.

Lemma revertsWith_bind {A B} msg (m : M A) (k : A -> M B) s c :
  revertsWith msg (bind m k s c) ->
  revertsWith msg (m s c)
  \/ exists a s1 c1, m s c = Success a s1 c1 /\ revertsWith msg (k a s1 c1).
Proof.
  unfold bind. destruct (m s c) as [a s1 c1 | m1 s1 c1]; simpl; intros H; [right | left].
  - eauto.
  - exact H.
Qed.

Lemma revertsWith_lift {A} msg (r : res A) s c :
  revertsWith msg (lift r s c) -> r = Err msg.
Proof. destruct r; simpl; [intros [] | intros ->; reflexivity]. Qed.

Lemma revertsWith_require msg b m s c :
  revertsWith msg (require b m s c) -> b = false /\ m = msg.
Proof. destruct b; simpl; [intros [] | auto]. Qed.

Lemma revertsWith_extcall msg env call s c :
  revertsWith msg (extcall env call s c) ->
  respond env c call = Throws /\ msg = "external call reverted"%string.
Proof.
  unfold extcall. destruct (respond env c call); simpl; try (intros []). auto.
Qed.

(** ** The ledger primitives as storage transformers *)

Lemma savePosition_run positionIndex position s c :
  savePosition positionIndex position s c
  = Success () (savePosition_state positionIndex position s) c.
Proof.
  unfold savePosition, savePosition_state, bind, getState, modify, ret.
  destruct (arrayContains (postionIdxArray s) positionIndex); reflexivity.
Qed.

Lemma removePosition_run positionIndex s c :
  removePosition positionIndex s c = Success () (removePosition_state positionIndex s) c.
Proof. reflexivity. Qed.

Lemma Success_inj {A} (a a' : A) s s' c c' :
  Success a s c = Success a' s' c' -> a = a' /\ s = s' /\ c = c'.
Proof. intros [= -> -> ->]. auto. Qed.

Lemma savePosition_state_fee i p s :
  _protocolFeeRate (savePosition_state i p s) = _protocolFeeRate s.
Proof. unfold savePosition_state. destruct (arrayContains _ _); reflexivity. Qed.

Lemma savePosition_state_ownerPositionIndex i p s :
  ownerPositionIndex (savePosition_state i p s) = ownerPositionIndex s.
Proof. unfold savePosition_state. destruct (arrayContains _ _); reflexivity. Qed.

(** ** Tactics for successful and failing runs *)

(** Decomposition of a hypothesis stating that a computation succeeded. *)
Ltac inv_success H :=
  lazymatch type of H with
  | savePosition _ _ _ _ = Success _ _ _ =>
      rewrite savePosition_run in H; apply Success_inj in H;
      destruct H as (? & ? & ?); subst
  | removePosition _ _ _ = Success _ _ _ =>
      rewrite removePosition_run in H; apply Success_inj in H;
      destruct H as (? & ? & ?); subst
  | require _ _ _ _ = Success _ _ _ =>
      apply require_Success in H;
      let Hb := fresh "Hreq" in destruct H as (Hb & ? & ?); subst
  | lift _ _ _ = Success _ _ _ =>
      apply lift_Success in H;
      let Hb := fresh "Hval" in destruct H as (Hb & ? & ?); subst
  | getState _ _ = Success _ _ _ =>
      apply getState_Success in H; destruct H as (? & ? & ?); subst
  | modify _ _ _ = Success _ _ _ =>
      apply modify_Success in H; destruct H as (? & ?); subst
  | ret _ _ _ = Success _ _ _ =>
      apply ret_Success in H; destruct H as (? & ? & ?); subst
  | extcall _ _ _ _ = Success _ _ _ =>
      apply extcall_Success in H;
      let Hr := fresh "Hresp" in destruct H as (? & ? & Hr); subst
  | bind _ _ _ _ = Success _ _ _ =>
      apply bind_Success in H;
      let a := fresh "a" in let s1 := fresh "s" in let c1 := fresh "c" in
      let H1 := fresh "H" in
      destruct H as (a & s1 & c1 & H1 & H); inv_success H1; inv_success H
  | _ =>
      first [ progress unfold assertMigratedAsset, assertCollateral, assertAsset,
                assertAuctionDiscount, assertMinCollateralRatio, onlyOwner,
                onlyFactoryOrOwner, _updateConfig in H;
              inv_success H
            | idtac ]
  end.

(** Boolean tests in hypotheses, as propositions. *)
Ltac boolprops :=
  repeat match goal with
    | H : (_ && _) = true |- _ => apply andb_true_iff in H; destruct H
    | H : (_ || _) = true |- _ => apply orb_true_iff in H
    | H : negb _ = true |- _ => apply negb_true_iff in H
    | H : (_ >? _) = true |- _ => apply Z.gtb_lt in H
    | H : (_ >=? _) = true |- _ => apply Z.geb_le in H
    | H : (_ <=? _) = true |- _ => apply Z.leb_le in H
    | H : (_ <? _) = true |- _ => apply Z.ltb_lt in H
    | H : (_ =? _) = true |- _ => apply Z.eqb_eq in H
    | H : (_ =? _) = false |- _ => apply Z.eqb_neq in H
    | H : (_ >? _) = false |- _ => rewrite Z.gtb_ltb in H; apply Z.ltb_ge in H
    | H : (_ <=? _) = false |- _ => apply Z.leb_gt in H
    end.

(** Case analysis on the condition of an [if] in a hypothesis. *)
Ltac split_if H :=
  match type of H with
  | context [if ?b then _ else _] => destruct b eqn:?
  end.

(** The answers recorded by the inversion of a successful run: a call whose
    result passed a [require] was answered [true]. *)
Ltac answers :=
  repeat match goal with
    | H : (true = true /\ _ = RetTrue) \/ (true = false /\ _) |- _ =>
        destruct H as [[_ H] | [H _]]; [| discriminate H]
    | H : (?b = true /\ _ = RetTrue) \/ (?b = false /\ _ = RetFalse) |- _ =>
        destruct H as [[_ H] | [_ H]]
    end.

(** Decomposition of a hypothesis stating that a computation reverted with
    a given message: one case for each step that may have failed. *)
Ltac inv_reverts H :=
  lazymatch type of H with
  | revertsWith _ (bind _ _ _ _) =>
      apply revertsWith_bind in H;
      let a := fresh "a" in let s1 := fresh "s" in let c1 := fresh "c" in
      let Hs := fresh "Hs" in
      destruct H as [H | (a & s1 & c1 & Hs & H)];
      [inv_reverts H | inv_success Hs; inv_reverts H]
  | revertsWith _ (lift _ _ _) => apply revertsWith_lift in H
  | revertsWith _ (require _ _ _ _) =>
      apply revertsWith_require in H; destruct H as [? H]
  | revertsWith _ (extcall _ _ _ _) =>
      apply revertsWith_extcall in H; destruct H as [? H]
  | revertsWith _ (getState _ _) => destruct H
  | revertsWith _ (modify _ _ _) => destruct H
  | revertsWith _ (ret _ _ _) => destruct H
  | revertsWith _ (removePosition _ _ _) => destruct H
  | revertsWith _ (savePosition _ _ _ _) => rewrite savePosition_run in H; destruct H
  | revertsWith _ ((if ?b then _ else _) _ _) => destruct b; inv_reverts H
  | _ => idtac
  end.

(** Decomposition of a hypothesis stating that a computation reverted,
    keeping the storage and the calls at the point of failure. *)
Ltac inv_reverted H :=
  lazymatch type of H with
  | bind _ _ _ _ = Reverted _ _ _ =>
      apply bind_Reverted in H;
      let a := fresh "a" in let s1 := fresh "s" in let c1 := fresh "c" in
      let Hs := fresh "Hs" in
      destruct H as [H | (a & s1 & c1 & Hs & H)];
      [inv_reverted H | inv_success Hs; inv_reverted H]
  | lift _ _ _ = Reverted _ _ _ =>
      apply lift_Reverted in H; destruct H as (H & ? & ?); subst
  | require _ _ _ _ = Reverted _ _ _ =>
      apply require_Reverted in H; destruct H as (H & ? & ? & ?); subst
  | extcall _ _ _ _ = Reverted _ _ _ =>
      apply extcall_Reverted in H; destruct H as (H & ? & ? & ?); subst
  | getState _ _ = Reverted _ _ _ => discriminate H
  | modify _ _ _ = Reverted _ _ _ => discriminate H
  | ret _ _ _ = Reverted _ _ _ => discriminate H
  | removePosition _ _ _ = Reverted _ _ _ => discriminate H
  | savePosition _ _ _ _ = Reverted _ _ _ => rewrite savePosition_run in H; discriminate H
  | _ => idtac
  end.

(** ** Fixed-point arithmetic on values in range *)

Lemma unit_pos : 0 < unit.
Proof. reflexivity. Qed.

Lemma unit_in_range : in_range unit.
Proof. unfold in_range, MAX_UINT, unit. lia. Qed.

Lemma wrap_small x : 0 <= x <= MAX_UINT -> wrap x = x.
Proof. unfold wrap, MAX_UINT. intros H. apply Z.mod_small. lia. Qed.

Lemma wrap_range x : in_range (wrap x).
Proof.
  unfold in_range, wrap, MAX_UINT.
  pose proof (Z.mod_pos_bound x (2 ^ 256) ltac:(lia)). lia.
Qed.

Lemma mul_Ok a b c :
  0 <= a -> 0 <= b -> SafeMath.mul a b = Ok c -> c = a * b /\ a * b <= MAX_UINT.
Proof.
  intros Ha Hb. unfold SafeMath.mul.
  destruct (Z.eqb_spec a 0) as [-> | Hne].
  - intros [= <-]. unfold MAX_UINT. lia.
  - destruct (Z.eqb_spec (wrap (a * b) / a) b) as [Hq | Hq]; [| discriminate].
    intros [= <-].
    pose proof (wrap_range (a * b)) as Hr. unfold in_range in Hr.
    assert (Hle : wrap (a * b) <= a * b).
    { unfold wrap. apply Z.mod_le; lia. }
    assert (Hge : a * b <= wrap (a * b)).
    { rewrite <- Hq at 1. apply Z.mul_div_le. lia. }
    lia.
Qed.

Lemma mul_intro a b :
  0 <= a -> 0 <= b -> a * b <= MAX_UINT -> SafeMath.mul a b = Ok (a * b).
Proof.
  intros Ha Hb Hm. unfold SafeMath.mul.
  destruct (Z.eqb_spec a 0) as [-> | Hne]; [reflexivity |].
  rewrite wrap_small by lia.
  rewrite Z.mul_comm, Z.div_mul by lia. rewrite Z.eqb_refl. reflexivity.
Qed.

Lemma mul_Err a b m : SafeMath.mul a b = Err m -> m = "SafeMath: multiplication overflow"%string.
Proof.
  unfold SafeMath.mul. destruct (a =? 0); [discriminate |].
  destruct (_ =? b); [discriminate | intros [= <-]; reflexivity].
Qed.

Lemma div_Ok a b c : SafeMath.div a b = Ok c -> 0 < b /\ c = a / b.
Proof.
  unfold SafeMath.div. destruct (Z.ltb_spec 0 b); [intros [= <-]; auto | discriminate].
Qed.

Lemma div_Err a b m : SafeMath.div a b = Err m -> m = "SafeMath: division by zero"%string.
Proof.
  unfold SafeMath.div. destruct (0 <? b); [discriminate | intros [= <-]; reflexivity].
Qed.

Lemma sub_Ok a b c :
  in_range a -> 0 <= b -> SafeMath.sub a b = Ok c -> b <= a /\ c = a - b.
Proof.
  unfold in_range, SafeMath.sub. intros Ha Hb.
  destruct (Z.leb_spec b a); [| discriminate].
  intros [= <-]. rewrite wrap_small by lia. auto.
Qed.

Lemma sub_Err a b m : SafeMath.sub a b = Err m -> m = "SafeMath: subtraction overflow"%string.
Proof.
  unfold SafeMath.sub. destruct (b <=? a); [discriminate | intros [= <-]; reflexivity].
Qed.

Lemma add_Ok a b c :
  in_range a -> in_range b -> SafeMath.add a b = Ok c -> c = a + b /\ a + b <= MAX_UINT.
Proof.
  unfold in_range, SafeMath.add, wrap, MAX_UINT. intros Ha Hb.
  destruct (Z.geb_spec ((a + b) mod 2 ^ 256) a) as [Hge | Hlt]; [| discriminate].
  intros [= <-].
  destruct (Z_lt_le_dec (a + b) (2 ^ 256)) as [Hs | Hl].
  - rewrite Z.mod_small by lia. lia.
  - exfalso.
    assert (E : (a + b) mod 2 ^ 256 = a + b - 2 ^ 256).
    { symmetry. apply (Z.mod_unique_pos _ _ 1); lia. }
    lia.
Qed.

Lemma add_Err a b m : SafeMath.add a b = Err m -> m = "SafeMath: addition overflow"%string.
Proof.
  unfold SafeMath.add. cbv zeta. destruct (_ >=? a); [discriminate | intros [= <-]; reflexivity].
Qed.

Lemma multiplyDecimal_Ok x y v :
  0 <= x -> 0 <= y -> multiplyDecimal x y = Ok v ->
  v = x * y / unit /\ x * y <= MAX_UINT.
Proof.
  intros Hx Hy. unfold multiplyDecimal.
  destruct (SafeMath.mul x y) as [p | m] eqn:E; [| discriminate].
  intros [= <-]. apply mul_Ok in E as [-> ?]; auto.
Qed.

Lemma multiplyDecimal_Err x y m :
  multiplyDecimal x y = Err m -> m = "SafeMath: multiplication overflow"%string.
Proof.
  unfold multiplyDecimal. destruct (SafeMath.mul x y) eqn:E; [discriminate |].
  intros [= <-]. eapply mul_Err; eauto.
Qed.

Lemma divideDecimal_Ok x y v :
  0 <= x -> divideDecimal x y = Ok v ->
  0 < y /\ v = x * unit / y /\ x * unit <= MAX_UINT.
Proof.
  intros Hx. unfold divideDecimal.
  destruct (SafeMath.mul x unit) as [p | m] eqn:E; [| discriminate].
  intros H. apply div_Ok in H as [? ->].
  apply mul_Ok in E as [-> ?]; auto. pose proof unit_pos; lia.
Qed.

Lemma divideDecimal_Err x y m :
  divideDecimal x y = Err m ->
  m = "SafeMath: multiplication overflow"%string \/ m = "SafeMath: division by zero"%string.
Proof.
  unfold divideDecimal. destruct (SafeMath.mul x unit) eqn:E.
  - intros H. right. eapply div_Err; eauto.
  - intros [= <-]. left. eapply mul_Err; eauto.
Qed.

Lemma sub_safeMathError a b m : SafeMath.sub a b = Err m -> safeMathError m.
Proof. intros H. apply sub_Err in H. unfold safeMathError. auto. Qed.

Lemma add_safeMathError a b m : SafeMath.add a b = Err m -> safeMathError m.
Proof. intros H. apply add_Err in H. unfold safeMathError. auto. Qed.

Lemma multiplyDecimal_safeMathError a b m : multiplyDecimal a b = Err m -> safeMathError m.
Proof. intros H. apply multiplyDecimal_Err in H. unfold safeMathError. auto. Qed.

Lemma divideDecimal_safeMathError a b m : divideDecimal a b = Err m -> safeMathError m.
Proof. intros H. apply divideDecimal_Err in H. unfold safeMathError. tauto. Qed.

(** ** The example deployment *)

Example deployed_kApple :
  readAssetConfig (Example.deployed (15 * 10 ^ 15)) Example.kApple
  = mkAssetConfig Example.kApple (5 * 10 ^ 17) (15 * 10 ^ 17) 0.
Proof. vm_compute. reflexivity. Qed.

Example bobOpened_positions :
  let s := Example.bobOpened (15 * 10 ^ 15) in
  readPosition s 1
  = mkPosition 1 Example.alice Example.busd (1500 * unit) Example.kApple (100 * unit)
  /\ readPosition s 2
     = mkPosition 2 Example.bob Example.busd (3000 * unit) Example.kApple (150 * unit)
  /\ postionIdxArray s = [1; 2] /\ currentpositionIndex s = 3.
Proof. cbv zeta. repeat split; vm_compute; reflexivity. Qed.

Example wbnbOpened_position :
  readPosition (Example.wbnbOpened (15 * 10 ^ 15)) 1
  = mkPosition 1 Example.alice Example.wbnb (100 * unit) Example.kApple (100 * unit).
Proof. vm_compute. reflexivity. Qed.

(** ** Relative prices *)

Lemma queryPrice_Ok env s target denominate rel :
  queryPrice env s target denominate = Ok rel ->
  let tokenPrice := fst (readPrice env s target) in
  let denominatePrice := fst (readPrice env s denominate) in
  0 < tokenPrice /\ 0 < denominatePrice /\
  rel = tokenPrice * unit / denominatePrice /\ 0 <= rel /\
  SafeMath.sub (blockTimestamp env) (_priceExpireTime s)
    = Ok (wrap (blockTimestamp env - _priceExpireTime s)) /\
  wrap (blockTimestamp env - _priceExpireTime s) <= snd (readPrice env s target) /\
  wrap (blockTimestamp env - _priceExpireTime s) <= snd (readPrice env s denominate).
Proof.
  unfold queryPrice.
  destruct (readPrice env s target) as [tp tt].
  destruct (readPrice env s denominate) as [dp dt]. simpl.
  intros H.
  apply rbind_Ok in H as (? & H1 & H). apply rrequire_Ok in H1.
  apply rbind_Ok in H as (? & H2 & H). apply rrequire_Ok in H2.
  apply rbind_Ok in H as (r & H3 & H).
  apply rbind_Ok in H as (t & H4 & H).
  apply rbind_Ok in H as (? & H5 & H). apply rrequire_Ok in H5.
  injection H as <-.
  apply Z.gtb_lt in H1, H2.
  apply divideDecimal_Ok in H3 as (_ & -> & _); [| lia].
  apply andb_true_iff in H5 as [H5 H6].
  apply Z.geb_le in H5, H6.
  assert (Ht : t = wrap (blockTimestamp env - _priceExpireTime s)).
  { unfold SafeMath.sub in H4. destruct (_ <=? _); [congruence | discriminate]. }
  subst t. repeat split; auto; try lia.
  apply Z.div_pos; [| lia]. pose proof unit_pos. lia.
Qed.

Lemma queryPrice_zero env s target denominate :
  fst (readPrice env s target) = 0 \/ fst (readPrice env s denominate) = 0 ->
  queryPrice env s target denominate = Err ZeroPrice.
Proof.
  unfold queryPrice.
  destruct (readPrice env s target) as [tp tt].
  destruct (readPrice env s denominate) as [dp dt]. simpl.
  intros [-> | ->]; [reflexivity |].
  destruct (tp >? 0); reflexivity.
Qed.

Lemma queryPrice_stale env s target denominate :
  let tokenPrice := fst (readPrice env s target) in
  let denominatePrice := fst (readPrice env s denominate) in
  let requiredTime := blockTimestamp env - _priceExpireTime s in
  0 < tokenPrice -> 0 < denominatePrice -> tokenPrice * unit <= MAX_UINT ->
  in_range (blockTimestamp env) -> 0 <= _priceExpireTime s <= blockTimestamp env ->
  snd (readPrice env s target) < requiredTime
  \/ snd (readPrice env s denominate) < requiredTime ->
  queryPrice env s target denominate = Err StalePrice.
Proof.
  unfold queryPrice.
  destruct (readPrice env s target) as [tp tt].
  destruct (readPrice env s denominate) as [dp dt]. simpl.
  intros Htp Hdp Hov Hnow Hexp Hstale.
  apply Z.gtb_lt in Htp as Htp', Hdp as Hdp'. rewrite Htp', Hdp'. simpl.
  unfold divideDecimal.
  rewrite (mul_intro tp unit) by (pose proof unit_pos; lia). simpl.
  unfold SafeMath.div. apply Z.ltb_lt in Hdp as Hdp''. rewrite Hdp''. simpl.
  unfold SafeMath.sub.
  destruct (Z.leb_spec (_priceExpireTime s) (blockTimestamp env)); [| lia]. simpl.
  rewrite wrap_small by (unfold in_range in Hnow; lia).
  destruct Hstale as [Hs | Hs].
  - destruct (Z.geb_spec tt (blockTimestamp env - _priceExpireTime s)); [lia |].
    reflexivity.
  - destruct (Z.geb_spec dt (blockTimestamp env - _priceExpireTime s)); [lia |].
    rewrite andb_false_r. reflexivity.
Qed.

(** ** The safety gate of [auction] (C1) *)

Lemma isValidPostion_safeMathError s p price m :
  isValidPostion s p price = Err m -> safeMathError m.
Proof.
  unfold isValidPostion. intros H.
  apply rbind_Err in H as [H | (v & _ & H)];
    [eapply multiplyDecimal_safeMathError; eauto |].
  apply rbind_Err in H as [H | (r & _ & H)];
    [eapply divideDecimal_safeMathError; eauto | discriminate].
Qed.

(** No arithmetic failure carries the message of one of the contract's own
    checks. *)
Lemma safeMathError_not_PositionSafe m : safeMathError m -> m <> PositionSafe.
Proof. intros [-> | [-> | [-> | ->]]]; discriminate. Qed.

(** A failed pure computation built from the arithmetic libraries failed
    with one of their messages. *)
Ltac safe_math H :=
  first
    [ eapply sub_safeMathError; exact H
    | eapply add_safeMathError; exact H
    | eapply multiplyDecimal_safeMathError; exact H
    | eapply divideDecimal_safeMathError; exact H
    | eapply isValidPostion_safeMathError; exact H
    | apply rbind_Err in H; destruct H as [H | (? & _ & H)]; safe_math H ].

Ltac not_PositionSafe :=
  exfalso;
  match goal with
  | H : _ = PositionSafe |- _ => discriminate H
  | H : PositionSafe = _ |- _ => discriminate H
  | H : _ = Err PositionSafe |- _ =>
      apply (safeMathError_not_PositionSafe PositionSafe); [safe_math H | reflexivity]
  end.

Lemma auction_PositionSafe_iff env s positionIndex requested :
  let position := readPosition s positionIndex in
  let assetPrice := fst (oracleQueryPrice env (_oracle s) (assetToken position)) in
  revertsWith PositionSafe (auction env positionIndex requested s [])
  <-> isValidPostion s position assetPrice = Ok true.
Proof.
  cbv zeta. unfold auction. rewrite bind_getState. cbv zeta.
  destruct (isValidPostion s (readPosition s positionIndex) _) as [[|] | m] eqn:E.
  - split; [reflexivity |]. intros _. reflexivity.
  - split; [| discriminate]. intros H. exfalso.
    unfold bind at 1 in H. simpl lift in H. unfold ret at 1 in H.
    unfold bind at 1 in H. simpl require in H. unfold ret at 1 in H.
    inv_reverts H; not_PositionSafe.
  - split; [| discriminate]. intros H. exfalso.
    unfold bind at 1 in H. simpl in H. subst m.
    apply (safeMathError_not_PositionSafe PositionSafe); [| reflexivity].
    eapply isValidPostion_safeMathError. exact E.
Qed.

Lemma isValidPostion_true s position assetPrice :
  0 <= collateralAmount position -> 0 <= assetAmount position -> 0 <= assetPrice ->
  isValidPostion s position assetPrice = Ok true
  <-> (assetAmount position * assetPrice <= MAX_UINT
       /\ collateralAmount position * unit <= MAX_UINT
       /\ 0 < assetAmount position * assetPrice / unit
       /\ minCollateralRatio (readAssetConfig s (assetToken position))
          <= collateralAmount position * unit
             / (assetAmount position * assetPrice / unit)).
Proof.
  intros Hc Ha Hp. unfold isValidPostion. split.
  - intros H. apply rbind_Ok in H as (v & Hv & H).
    apply rbind_Ok in H as (r & Hr & H). injection H as H.
    apply multiplyDecimal_Ok in Hv as [-> Hov]; [| lia | lia].
    apply divideDecimal_Ok in Hr as (Hpos & -> & Hov'); [| lia].
    apply Z.geb_le in H. auto.
  - intros (Hov & Hov' & Hpos & Hmin).
    unfold multiplyDecimal, divideDecimal.
    rewrite (mul_intro _ _ Ha Hp Hov). simpl.
    rewrite (mul_intro _ _ Hc (Z.lt_le_incl _ _ unit_pos) Hov').
    unfold SafeMath.div. apply Z.ltb_lt in Hpos. rewrite Hpos. simpl.
    apply Z.geb_le in Hmin. rewrite Hmin. reflexivity.
Qed.

(** C1 fails on the code.  Alice's position holds 100 [wbnb], worth 200,
    against a debt of 100 [kApple], worth 100, opened at a ratio of 2.0
    with a minimum of 1.5; the prices have not moved.  The solvency
    predicate of the specification, with the relative price of the asset in
    the collateral token that [openPosition], [withdraw] and [mint] obtain
    from [queryPrice], finds the position valid.  [auction] leaves the
    price of the collateral token out: it compares the collateral amount
    with the debt at the asset's own price, finds a ratio of 1.0, does not
    fail with the error of a safe position and lets Bob liquidate. *)
Lemma auction_gate_differs_from_spec_predicate :
  let env := Example.env Example.bob unit Example.allTrue in
  let s := Example.wbnbOpened (15 * 10 ^ 15) in
  spec_isValidPosition env s (readPosition s 1) = Ok true
  /\ ~ revertsWith PositionSafe (auction env 1 (10 * unit) s [])
  /\ ~ reverts (auction env 1 (10 * unit) s [])
  /\ ~ (revertsWith PositionSafe (auction env 1 (10 * unit) s [])
        <-> spec_isValidPosition env s (readPosition s 1) = Ok true).
Proof.
  cbv zeta.
  assert (Hvalid : spec_isValidPosition (Example.env Example.bob unit Example.allTrue)
                     (Example.wbnbOpened (15 * 10 ^ 15))
                     (readPosition (Example.wbnbOpened (15 * 10 ^ 15)) 1) = Ok true)
    by (vm_compute; reflexivity).
  assert (Hruns : ~ revertsWith PositionSafe
                      (auction (Example.env Example.bob unit Example.allTrue) 1 (10 * unit)
                               (Example.wbnbOpened (15 * 10 ^ 15)) []))
    by (vm_compute; intros []).
  assert (Hsucceeds : ~ reverts
                      (auction (Example.env Example.bob unit Example.allTrue) 1 (10 * unit)
                               (Example.wbnbOpened (15 * 10 ^ 15)) []))
    by (vm_compute; intros []).
  split; [exact Hvalid |]. split; [exact Hruns |]. split; [exact Hsucceeds |].
  intros [_ H]. exact (Hruns (H Hvalid)).
Qed.

(** The gate that [auction] applies in place of that predicate, and the
    errors of the relative price.  [auction] fails with the error of a safe
    position exactly when [isValidPostion] holds for the position at the
    asset's oracle price: the debt value [assetAmount * assetPrice] is not
    zero and [collateralAmount / debtValue] is at least the minimum
    collateral ratio, in truncating fixed point.  The relative price
    [queryPrice], which [openPosition], [withdraw] and [mint] use, fails
    with the error of a zero price when either price is zero and, when both
    are positive and the quotient and [now - priceExpireTime] can be
    computed, with the error of a stale price when either price was updated
    before [now - priceExpireTime]. *)
Theorem auction_gate_and_price_errors :
  (forall env s positionIndex requested,
      let position := readPosition s positionIndex in
      let assetPrice := fst (oracleQueryPrice env (_oracle s) (assetToken position)) in
      revertsWith PositionSafe (auction env positionIndex requested s [])
      <-> isValidPostion s position assetPrice = Ok true)
  /\ (forall s position assetPrice,
        0 <= collateralAmount position -> 0 <= assetAmount position -> 0 <= assetPrice ->
        isValidPostion s position assetPrice = Ok true
        <-> (assetAmount position * assetPrice <= MAX_UINT
             /\ collateralAmount position * unit <= MAX_UINT
             /\ 0 < assetAmount position * assetPrice / unit
             /\ minCollateralRatio (readAssetConfig s (assetToken position))
                <= collateralAmount position * unit
                   / (assetAmount position * assetPrice / unit)))
  /\ (forall env s target denominate,
        fst (readPrice env s target) = 0 \/ fst (readPrice env s denominate) = 0 ->
        queryPrice env s target denominate = Err ZeroPrice)
  /\ (forall env s target denominate,
        let requiredTime := blockTimestamp env - _priceExpireTime s in
        0 < fst (readPrice env s target) -> 0 < fst (readPrice env s denominate) ->
        fst (readPrice env s target) * unit <= MAX_UINT ->
        in_range (blockTimestamp env) -> 0 <= _priceExpireTime s <= blockTimestamp env ->
        snd (readPrice env s target) < requiredTime
        \/ snd (readPrice env s denominate) < requiredTime ->
        queryPrice env s target denominate = Err StalePrice).
Proof.
  split; [| split; [| split]].
  - intros. apply auction_PositionSafe_iff.
  - intros. apply isValidPostion_true; assumption.
  - intros. apply queryPrice_zero; assumption.
  - intros. apply queryPrice_stale; assumption.
Qed.

(** Alice's position of 1500 base tokens against 100 [kApple] at price 10
    is valid and cannot be auctioned; a token the oracle does not know has a
    zero price; a quote of [kApple] that is 100 seconds old is stale when
    prices expire after 60 seconds. *)
Lemma auction_gate_and_price_errors_witness :
  let s := Example.bobOpened (15 * 10 ^ 15) in
  let env := Example.env Example.bob (10 * unit) Example.allTrue in
  let late :=
    mkEnv Example.bob Example.mintContract Example.now
          (Example.quotes (10 * unit) 900) Example.allTrue in
  revertsWith PositionSafe (auction env 1 (10 * unit) s [])
  /\ queryPrice env s Example.busd 12345 = Err ZeroPrice
  /\ queryPrice late s Example.busd Example.kApple = Err StalePrice.
Proof.
  intros s env late.
  pose proof auction_gate_and_price_errors as (Hgate & Hvalid & Hzero & Hstale).
  split; [| split].
  - refine (proj2 (Hgate env s 1 (10 * unit)) _).
    refine (proj2 (Hvalid s (readPosition s 1)
                          (fst (oracleQueryPrice env (_oracle s)
                                  (assetToken (readPosition s 1)))) _ _ _) _).
    + vm_compute. intros [=].
    + vm_compute. intros [=].
    + vm_compute. intros [=].
    + vm_compute. repeat split; intros [=].
  - refine (Hzero env s Example.busd 12345 _). right. vm_compute. reflexivity.
  - refine (Hstale late s Example.busd Example.kApple _ _ _ _ _ _).
    + vm_compute. reflexivity.
    + vm_compute. reflexivity.
    + vm_compute. intros [=].
    + vm_compute. split; intros [=].
    + vm_compute. split; intros [=].
    + right. vm_compute. reflexivity.
Defined.

(** ** Liquidation by auction (C2) *)

Lemma min_as_caps req maxLiq asset :
  (if (if req >? maxLiq then maxLiq else req) >? asset
   then asset else (if req >? maxLiq then maxLiq else req))
  = Z.min (Z.min req maxLiq) asset.
Proof.
  destruct (Z.gtb_spec req maxLiq).
  - destruct (Z.gtb_spec maxLiq asset); lia.
  - destruct (Z.gtb_spec req asset); lia.
Qed.

(** C2. A successful [auction] computes the discounted price
    [assetPrice / (1 - auctionDiscount)], takes from the liquidator the
    least of the requested amount, [collateral / discountedPrice] and the
    debt, and returns [liquidated * discountedPrice] of collateral before
    the fee, never more than the collateral.  Afterwards the position is
    either removed (its collateral or its debt reached zero; a remaining
    collateral is sent to the owner) or stored with exactly the collateral
    reduced by the returned amount and the debt reduced by the liquidated
    amount.  The collector is sent the fee and the liquidator the returned
    collateral minus the fee.  All quotients truncate. *)
Theorem auction_liquidates_capped_amount :
  forall env s positionIndex requested s' calls,
    let position := readPosition s positionIndex in
    let assetConfig := readAssetConfig s (assetToken position) in
    let assetPrice := fst (oracleQueryPrice env (_oracle s) (assetToken position)) in
    let collateral := collateralAmount position in
    let debt := assetAmount position in
    in_range collateral -> in_range debt -> 0 <= assetPrice ->
    0 <= auctionDiscount assetConfig -> 0 <= requested -> 0 <= _protocolFeeRate s ->
    auction env positionIndex requested s [] = Success () s' calls ->
    let discountedPrice := assetPrice * unit / (unit - auctionDiscount assetConfig) in
    let liquidated := Z.min (Z.min requested (collateral * unit / discountedPrice)) debt in
    let returned := liquidated * discountedPrice / unit in
    let fee := returned * _protocolFeeRate s / unit in
    let remaining :=
      mkPosition (idx position) (owner position) (collateralToken position)
                 (collateral - returned) (assetToken position) (debt - liquidated) in
    auctionDiscount assetConfig < unit /\ 0 < discountedPrice
    /\ returned <= collateral /\ fee <= returned
    /\ (((collateral - returned = 0 \/ debt - liquidated = 0)
         /\ readPosition s' positionIndex = zeroPosition
         /\ s' = removePosition_state positionIndex s
         /\ calls = [CallTransferFrom (assetToken position) (msgSender env) (this env)
                                      liquidated]
                    ++ (if collateral - returned =? 0 then []
                        else [CallTransfer (collateralToken position) (owner position)
                                           (collateral - returned)])
                    ++ [CallTransfer (collateralToken position) (_collector s) fee;
                        CallTransfer (collateralToken position) (msgSender env)
                                     (returned - fee)])
        \/ (collateral - returned <> 0 /\ debt - liquidated <> 0
            /\ readPosition s' positionIndex = remaining
            /\ s' = set_idxPositionMap (<[positionIndex := remaining]> (idxPositionMap s)) s
            /\ calls = [CallTransferFrom (assetToken position) (msgSender env) (this env)
                                         liquidated;
                        CallTransfer (collateralToken position) (_collector s) fee;
                        CallTransfer (collateralToken position) (msgSender env)
                                     (returned - fee)])).
Proof.
  cbv zeta. intros env s positionIndex requested s' calls Hcoll Hdebt Hprice Hdisc Hreq Hfee H.
  unfold auction in H.
  apply bind_Success in H as (s0 & ? & ? & H0 & H). inv_success H0.
  cbv zeta in H.
  apply bind_Success in H as (valid & ? & ? & H0 & H). inv_success H0.
  apply bind_Success in H as (? & ? & ? & H0 & H). inv_success H0.
  apply bind_Success in H as (dp & ? & ? & H0 & H). inv_success H0.
  apply bind_Success in H as (maxLiq & ? & ? & H0 & H). inv_success H0.
  rewrite min_as_caps in H.
  apply bind_Success in H as (ok & ? & ? & H0 & H). inv_success H0.
  apply bind_Success in H as (? & ? & ? & H0 & H). inv_success H0.
  apply bind_Success in H as (ret_ & ? & ? & H0 & H). inv_success H0.
  apply bind_Success in H as (newColl & ? & ? & H0 & H). inv_success H0.
  apply bind_Success in H as (newDebt & ? & ? & H0 & H). inv_success H0.
  cbn [collateralAmount assetAmount collateralToken owner with_assetAmount
       with_collateralAmount] in *.
  set (position := readPosition s positionIndex) in *.
  set (assetConfig := readAssetConfig s (assetToken position)) in *.
  set (assetPrice := fst (oracleQueryPrice env (_oracle s) (assetToken position))) in *.
  set (collateral := collateralAmount position) in *.
  set (debt := assetAmount position) in *.
  (* the arithmetic of the amounts *)
  match goal with H : rbind _ _ = Ok dp |- _ => apply rbind_Ok in H as (d & Hd & Hdp) end.
  apply sub_Ok in Hd as [Hdle ->]; [| apply unit_in_range | exact Hdisc].
  apply divideDecimal_Ok in Hdp as (Hdpos & Hdp & _); [| exact Hprice].
  match goal with H : divideDecimal collateral dp = Ok _ |- _ =>
    apply divideDecimal_Ok in H as (Hdp0 & Hmax & _); [| apply Hcoll] end.
  assert (Hmax0 : 0 <= maxLiq).
  { subst maxLiq. apply Z.div_pos; [| lia]. pose proof unit_pos. destruct Hcoll. nia. }
  match goal with H : multiplyDecimal _ dp = Ok _ |- _ =>
    apply multiplyDecimal_Ok in H as (Hret & _); [| destruct Hdebt; lia | lia] end.
  assert (Hret0 : 0 <= ret_).
  { subst ret_. apply Z.div_pos; [| apply unit_pos]. destruct Hdebt. nia. }
  match goal with H : SafeMath.sub collateral ret_ = Ok _ |- _ =>
    apply sub_Ok in H as [Hretle ->]; [| exact Hcoll | exact Hret0] end.
  match goal with H : SafeMath.sub debt _ = Ok _ |- _ =>
    apply sub_Ok in H as [_ ->]; [| exact Hdebt | destruct Hdebt; lia] end.
  subst dp maxLiq ret_.
  set (discountedPrice := assetPrice * unit / (unit - auctionDiscount assetConfig)) in *.
  set (liquidated := Z.min (Z.min requested (collateral * unit / discountedPrice)) debt) in *.
  set (returned := liquidated * discountedPrice / unit) in *.
  apply bind_Success in H as (? & s1 & c1 & Hbranch & H).
  assert (Htail : forall st c0,
             s1 = st -> c1 = c0 ->
             _protocolFeeRate st = _protocolFeeRate s -> _collector st = _collector s ->
             (returned * _protocolFeeRate s) / unit <= returned
             /\ s' = st
             /\ calls = c0 ++ [CallTransfer (collateralToken position) (_collector s)
                                            (returned * _protocolFeeRate s / unit);
                               CallTransfer (collateralToken position) (msgSender env)
                                            (returned - returned * _protocolFeeRate s / unit)]).
  { intros st c0 -> -> Hf Hc. inv_success H.
    match goal with H : multiplyDecimal returned _ = Ok _ |- _ =>
      apply multiplyDecimal_Ok in H as (Hfee1 & _); [| lia | lia] end.
    match goal with H : SafeMath.sub returned _ = Ok _ |- _ =>
      apply sub_Ok in H as [Hfeele ->] end.
    - rewrite Hf, Hc in *. subst. rewrite <- app_assoc. auto.
    - destruct Hcoll. split; [lia |]. unfold MAX_UINT in *. lia.
    - subst. apply Z.div_pos; [| apply unit_pos]. rewrite Hf. nia. }
  split; [lia |]. split; [exact Hdp0 |]. split; [exact Hretle |].
  destruct (Z.eqb_spec (collateral - returned) 0) as [Hc0 | Hc0].
  - inv_success Hbranch.
    destruct (Htail _ _ eq_refl eq_refl eq_refl eq_refl) as (Hle & -> & ->).
    split; [exact Hle |]. left. split; [auto |]. split.
    { unfold readPosition, removePosition_state. simpl. rewrite lookup_delete_eq. reflexivity. }
    split; reflexivity.
  - destruct (Z.eqb_spec (debt - liquidated) 0) as [Hd0 | Hd0].
    + inv_success Hbranch.
      destruct (Htail _ _ eq_refl eq_refl eq_refl eq_refl) as (Hle & -> & ->).
      split; [exact Hle |]. left. split; [auto |]. split.
      { unfold readPosition, removePosition_state. simpl. rewrite lookup_delete_eq.
        reflexivity. }
      split; [reflexivity |]. simpl. reflexivity.
    + inv_success Hbranch.
      destruct (Htail _ _ eq_refl eq_refl eq_refl eq_refl) as (Hle & -> & ->).
      split; [exact Hle |]. right. split; [exact Hc0 |]. split; [exact Hd0 |]. split.
      { unfold readPosition. simpl. rewrite lookup_insert_eq. reflexivity. }
      split; reflexivity.
Qed.

(** The asset rises from 10 to 12, Alice's position falls to a ratio of
    1.25, and Bob liquidates 10 of its 100 units: at the discounted price 24
    he is returned 240 base tokens, 3.6 of which go to the collector. *)
Lemma auction_liquidates_capped_amount_witness :
  readPosition
    (exec (auction (Example.env Example.bob (12 * unit) Example.allTrue) 1 (10 * unit))
          (Example.aliceOpened (15 * 10 ^ 15))) 1
  = mkPosition 1 Example.alice Example.busd (1260 * unit) Example.kApple (90 * unit).
Proof.
  pose proof (auction_liquidates_capped_amount
                (Example.env Example.bob (12 * unit) Example.allTrue)
                (Example.aliceOpened (15 * 10 ^ 15)) 1 (10 * unit)
                (exec (auction (Example.env Example.bob (12 * unit) Example.allTrue) 1
                               (10 * unit))
                      (Example.aliceOpened (15 * 10 ^ 15)))
                [CallTransferFrom Example.kApple Example.bob Example.mintContract (10 * unit);
                 CallTransfer Example.busd Example.collector (36 * 10 ^ 17);
                 CallTransfer Example.busd Example.bob (2364 * 10 ^ 17)]) as H.
  cbv zeta in H.
  destruct H as (_ & _ & _ & _ & [(Hrem & _) | (_ & _ & Hpos & _)]).
  - vm_compute. split; intros [=].
  - vm_compute. split; intros [=].
  - vm_compute. intros [=].
  - vm_compute. intros [=].
  - vm_compute. intros [=].
  - vm_compute. intros [=].
  - vm_compute. reflexivity.
  - exfalso. vm_compute in Hrem. destruct Hrem as [Hrem | Hrem]; discriminate Hrem.
  - rewrite Hpos. vm_compute. reflexivity.
Defined.

(** ** All or nothing, and the order of validation (C3) *)

Lemma openPosition_validation_order env s ctok camt atok ratio m s1 calls :
  openPosition env ctok camt atok ratio s [] = Reverted m s1 calls ->
  openPositionValidationError m ->
  s1 = s
  /\ calls = [CallTransferFrom ctok (msgSender env) (this env) camt]
  /\ respond env [] (CallTransferFrom ctok (msgSender env) (this env) camt) = RetTrue
  /\ ctok <> 0 /\ atok <> 0 /\ 0 < camt.
Proof.
  intros H Hm. unfold openPosition in H. inv_reverted H;
    first
      [ exfalso; destruct Hm as [Hm | [Hm | [Hm | [Hm | Hm]]]]; discriminate Hm
      | boolprops;
        match goal with
        | Hr : _ \/ _ |- _ => destruct Hr as [[_ Hr] | [Hr _]]; [| discriminate Hr]
        end;
        repeat split; auto ].
Qed.

(** C3, as stated, fails: Alice calls [openPosition] for [wbnb] as the asset,
    which is not registered.  The call fails the registration check, yet at
    that point the transfer of her collateral has already been initiated
    (and had succeeded). *)
Lemma openPosition_transfers_before_validation :
  let env := Example.env Example.alice (10 * unit) Example.allTrue in
  let s := Example.deployed (15 * 10 ^ 15) in
  openPosition env Example.busd (1500 * unit) Example.wbnb (15 * 10 ^ 17) s []
  = Reverted "Asset not registed" s
      [CallTransferFrom Example.busd Example.alice Example.mintContract (1500 * unit)]
  /\ ~ openPositionValidatesFirst env s Example.busd (1500 * unit) Example.wbnb
                                  (15 * 10 ^ 17).
Proof.
  cbv zeta.
  assert (Hrun : openPosition (Example.env Example.alice (10 * unit) Example.allTrue)
                   Example.busd (1500 * unit) Example.wbnb (15 * 10 ^ 17)
                   (Example.deployed (15 * 10 ^ 15)) []
                 = Reverted "Asset not registed" (Example.deployed (15 * 10 ^ 15))
                     [CallTransferFrom Example.busd Example.alice Example.mintContract
                                       (1500 * unit)])
    by (vm_compute; reflexivity).
  split; [exact Hrun |].
  intros Hstaged.
  destruct (Hstaged _ _ _ Hrun) as [_ Hcalls].
  - left. reflexivity.
  - discriminate Hcalls.
Qed.

(** C3, amended.  Each of the six operations is all or nothing: when it
    fails, the storage an observer sees is the storage before the call and
    no external call has taken effect.  In [openPosition] the checks of the
    arguments come first, then the collateral is pulled from the caller, and
    only then is the asset validated: a call that fails the validation of
    the asset (registered, not migrated, ratio at least the minimum) or of
    the minted amount (positive) has at that point written nothing to the
    storage, and the one external call it has initiated is the transfer of
    the collateral, which had returned true. *)
Theorem operations_all_or_nothing :
  (forall env op s,
      reverts (perform env op s []) ->
      exists msg, transact (perform env op) s = (s, [], Err msg))
  /\ (forall env s collateralToken_ collateralAmount_ assetToken_ collateralRatio
             m s1 calls,
        openPosition env collateralToken_ collateralAmount_ assetToken_ collateralRatio s []
        = Reverted m s1 calls ->
        openPositionValidationError m ->
        s1 = s
        /\ calls = [CallTransferFrom collateralToken_ (msgSender env) (this env)
                                     collateralAmount_]
        /\ respond env [] (CallTransferFrom collateralToken_ (msgSender env) (this env)
                                            collateralAmount_) = RetTrue
        /\ collateralToken_ <> 0 /\ assetToken_ <> 0 /\ 0 < collateralAmount_).
Proof.
  split.
  - intros env op s H. unfold transact.
    destruct (perform env op s []) as [? ? ? | msg s1 c1]; [destruct H |].
    exists msg. reflexivity.
  - intros. eapply openPosition_validation_order; eassumption.
Qed.

(** Bob's withdrawal of more than his collateral fails and leaves no trace;
    Alice's opening for an unregistered asset fails after the transfer of her
    collateral was initiated and before anything was written. *)
Lemma operations_all_or_nothing_witness :
  let fee := 15 * 10 ^ 15 in
  (exists msg,
      transact (perform (Example.env Example.bob (10 * unit) Example.allTrue)
                        (Withdraw 2 Example.busd (4000 * unit)))
               (Example.bobOpened fee)
      = (Example.bobOpened fee, [], Err msg))
  /\ (Example.deployed fee = Example.deployed fee
      /\ [CallTransferFrom Example.busd Example.alice Example.mintContract (1500 * unit)]
         = [CallTransferFrom Example.busd Example.alice Example.mintContract (1500 * unit)]
      /\ Example.allTrue [] (CallTransferFrom Example.busd Example.alice
                                              Example.mintContract (1500 * unit))
         = RetTrue
      /\ Example.busd <> 0 /\ Example.wbnb <> 0 /\ 0 < 1500 * unit).
Proof.
  intros fee.
  pose proof operations_all_or_nothing as (Hatomic & Hstaged).
  split.
  - refine (Hatomic (Example.env Example.bob (10 * unit) Example.allTrue)
                    (Withdraw 2 Example.busd (4000 * unit)) (Example.bobOpened fee) _).
    vm_compute. exact I.
  - refine (Hstaged (Example.env Example.alice (10 * unit) Example.allTrue)
                    (Example.deployed fee) Example.busd (1500 * unit) Example.wbnb
                    (15 * 10 ^ 17) "Asset not registed"%string (Example.deployed fee)
                    [CallTransferFrom Example.busd Example.alice Example.mintContract
                                      (1500 * unit)] _ _).
    + vm_compute. reflexivity.
    + left. reflexivity.
Defined.

(** ** The enumeration of invalid positions (C4) *)

Lemma writeRow_empty index position : writeRow (newArrays 0) index position
  = Err "array index out of bounds".
Proof. reflexivity. Qed.

Lemma scanPositions_empty s cond todo : forall index out,
  scanPositions s cond todo index (newArrays 0) = Ok out -> out = newArrays 0.
Proof.
  induction todo as [| i rest IH]; intros index out H; cbn [scanPositions] in H.
  - injection H as <-. reflexivity.
  - apply rbind_Ok in H as (b & _ & H). destruct b.
    + apply rbind_Ok in H as (out' & H & _).
      rewrite writeRow_empty in H. discriminate H.
    + eapply IH. exact H.
Qed.

(** C4 fails on the code.  With [kApple] at 12, Alice's position has a ratio
    of 1.25, below the minimum of 1.5, and the query for invalid positions
    reverts instead of returning it: the result arrays are allocated with
    length zero and the first row written is out of bounds.  In general the
    query never returns a row; it returns the empty result when the price
    is zero, and also when no position of the asset is invalid. *)
Theorem queryInvalidPositioins_never_returns_a_row :
  (let env := Example.env Example.bob (12 * unit) Example.allTrue in
   let s := Example.bobOpened (15 * 10 ^ 15) in
   isValidPostion s (readPosition s 1) (12 * unit) = Ok false
   /\ queryInvalidPositioins env s Example.kApple = Err "array index out of bounds")
  /\ (forall env s asset out,
        queryInvalidPositioins env s asset = Ok out -> out = newArrays 0)
  /\ (forall env s asset,
        fst (oracleQueryPrice env (_oracle s) asset) = 0 ->
        queryInvalidPositioins env s asset = Ok (newArrays 0)).
Proof.
  split; [| split].
  - cbv zeta. split; vm_compute; reflexivity.
  - intros env s asset out H. unfold queryInvalidPositioins in H.
    destruct (_ >? 0).
    + eapply scanPositions_empty. exact H.
    + injection H as <-. reflexivity.
  - intros env s asset H. unfold queryInvalidPositioins. rewrite H. reflexivity.
Qed.

(** The oracle has no price for an unknown asset: the query returns the
    empty result, which is also the only result it can return. *)
Lemma queryInvalidPositioins_never_returns_a_row_witness :
  let env := Example.env Example.bob (12 * unit) Example.allTrue in
  let s := Example.bobOpened (15 * 10 ^ 15) in
  queryInvalidPositioins env s 12345 = Ok (newArrays 0)
  /\ newArrays 0 = newArrays 0.
Proof.
  intros env s.
  pose proof queryInvalidPositioins_never_returns_a_row as (_ & Honly & Hzero).
  assert (H : queryInvalidPositioins env s 12345 = Ok (newArrays 0)).
  { refine (Hzero env s 12345 _). vm_compute. reflexivity. }
  split; [exact H |].
  exact (Honly env s 12345 (newArrays 0) H).
Defined.

(** The sibling queries allocate their arrays with the length of the index
    array, and return Alice's position when asked for hers. *)
Example queryAllPositions_alice :
  queryAllPositions (Example.bobOpened (15 * 10 ^ 15)) Example.alice
  = Ok (mkPositionArrays [1; 0] [Example.alice; 0] [Example.busd; 0]
                         [1500 * unit; 0] [Example.kApple; 0] [100 * unit; 0]).
Proof. vm_compute. reflexivity. Qed.

(** ** Opening a position (C5) *)

(** C5. A successful [openPosition] mints
    [collateralAmount * relativePrice / collateralRatio] of the asset, every
    product and quotient in truncating fixed point, with [relativePrice] the
    price of the collateral token over the price of the asset token; the
    amount is positive, and whenever it would be zero the call fails.  The
    position read back by [queryPosition] at the returned index has the
    caller as owner, the given collateral token, collateral amount and asset
    token, and the minted amount as its debt. *)
Theorem openPosition_mints_and_stores :
  forall env s collateralToken_ collateralAmount_ assetToken_ collateralRatio,
    let relativePrice :=
      fst (readPrice env s collateralToken_) * unit / fst (readPrice env s assetToken_) in
    let mintAmount := collateralAmount_ * relativePrice / unit * unit / collateralRatio in
    (forall index s' calls,
        openPosition env collateralToken_ collateralAmount_ assetToken_ collateralRatio s []
        = Success index s' calls ->
        0 < mintAmount
        /\ index = currentpositionIndex s
        /\ queryPosition s' index
           = (msgSender env, collateralToken_, collateralAmount_, assetToken_, mintAmount)
        /\ calls = [CallTransferFrom collateralToken_ (msgSender env) (this env)
                                     collateralAmount_;
                    CallMint assetToken_ (msgSender env) mintAmount])
    /\ (mintAmount = 0 ->
        reverts (openPosition env collateralToken_ collateralAmount_ assetToken_
                              collateralRatio s [])).
Proof.
  intros env s ctok camt atok ratio relativePrice mintAmount.
  assert (Hsucc : forall index s' calls,
        openPosition env ctok camt atok ratio s [] = Success index s' calls ->
        0 < mintAmount
        /\ index = currentpositionIndex s
        /\ queryPosition s' index = (msgSender env, ctok, camt, atok, mintAmount)
        /\ calls = [CallTransferFrom ctok (msgSender env) (this env) camt;
                    CallMint atok (msgSender env) mintAmount]).
  { intros index s' calls H. unfold openPosition in H. inv_success H. boolprops.
    match goal with H : queryPrice _ _ _ _ = Ok _ |- _ =>
      apply queryPrice_Ok in H as (Hpc & Hpa & Hrel & Hrel0 & _) end.
    match goal with H : rbind _ _ = Ok _ |- _ => apply rbind_Ok in H as (v & Hv & Hm) end.
    apply multiplyDecimal_Ok in Hv as [-> _]; [| lia | lia].
    apply divideDecimal_Ok in Hm as (_ & Hm & _).
    2: { apply Z.div_pos; [| apply unit_pos]. apply Z.mul_nonneg_nonneg; lia. }
    match goal with H : 0 < ?m |- _ =>
      assert (Hmint : m = mintAmount) by (subst; reflexivity);
      rewrite Hmint in *; clear Hmint Hm end.
    split; [assumption |]. split; [reflexivity |]. split.
    - unfold queryPosition, readPosition, savePosition_state. simpl.
      rewrite lookup_insert_eq. reflexivity.
    - reflexivity. }
  split; [exact Hsucc |].
  intros Hzero.
  destruct (openPosition env ctok camt atok ratio s []) as [index s' calls | ? ? ?] eqn:E;
    [| exact I].
  destruct (Hsucc _ _ _ eq_refl) as [Hpos _]. lia.
Qed.

(** Alice's opening of position 1 (1500 base tokens, ratio 1.5, price 10,
    hence 100 minted), and an opening with 9 base units, too small to mint
    anything. *)
Lemma openPosition_mints_and_stores_witness :
  (0 < 1500 * unit * (unit * unit / (10 * unit)) / unit * unit / (15 * 10 ^ 17)
   /\ 1 = currentpositionIndex (Example.deployed 0)
   /\ queryPosition (Example.aliceOpened 0) 1
      = (Example.alice, Example.busd, 1500 * unit, Example.kApple, 100 * unit)
   /\ [CallTransferFrom Example.busd Example.alice Example.mintContract (1500 * unit);
       CallMint Example.kApple Example.alice (100 * unit)]
      = [CallTransferFrom Example.busd Example.alice Example.mintContract (1500 * unit);
         CallMint Example.kApple Example.alice (100 * unit)])
  /\ reverts (openPosition (Example.env Example.alice (10 * unit) Example.allTrue)
                           Example.busd 9 Example.kApple (15 * 10 ^ 17)
                           (Example.deployed 0) []).
Proof.
  split.
  - apply (proj1 (openPosition_mints_and_stores
                    (Example.env Example.alice (10 * unit) Example.allTrue)
                    (Example.deployed 0) Example.busd (1500 * unit) Example.kApple
                    (15 * 10 ^ 17))
                 1 (Example.aliceOpened 0)
                 [CallTransferFrom Example.busd Example.alice Example.mintContract
                                   (1500 * unit);
                  CallMint Example.kApple Example.alice (100 * unit)]).
    vm_compute. reflexivity.
  - apply (proj2 (openPosition_mints_and_stores
                    (Example.env Example.alice (10 * unit) Example.allTrue)
                    (Example.deployed 0) Example.busd 9 Example.kApple (15 * 10 ^ 17))).
    vm_compute. reflexivity.
Defined.

(** ** The asset registry (C6) *)

Lemma authorized_true env s :
  authorized env s ->
  (_factory s =? msgSender env) || (ownable_owner s =? msgSender env) = true.
Proof.
  intros [H | H]; rewrite H, Z.eqb_refl; [reflexivity | apply orb_true_r].
Qed.

Lemma onlyFactoryOrOwner_run env s c :
  authorized env s -> onlyFactoryOrOwner env s c = Success () s c.
Proof.
  intros H. unfold onlyFactoryOrOwner. rewrite bind_getState.
  unfold require. rewrite (authorized_true _ _ H). reflexivity.
Qed.

Lemma registerAsset_twice env s assetToken_ discount ratio :
  token (readAssetConfig s assetToken_) <> 0 ->
  reverts (registerAsset env assetToken_ discount ratio s [])
  /\ (authorized env s ->
      registerAsset env assetToken_ discount ratio s []
      = Reverted "Asset was already registered" s []).
Proof.
  intros Hreg. apply Z.eqb_neq in Hreg. split.
  - unfold registerAsset.
    repeat (apply bind_reverts; intros ? ? ? H; inv_success H).
    congruence.
  - intros Hauth. unfold registerAsset.
    rewrite (bind_run _ _ _ _ _ _ _ (onlyFactoryOrOwner_run env s [] Hauth)).
    rewrite bind_getState, bind_require_false by exact Hreg. reflexivity.
Qed.

Lemma registerMigration_run env s assetToken_ endPrice_ :
  authorized env s -> assetToken_ <> 0 ->
  exists s',
    registerMigration env assetToken_ endPrice_ s [] = Success () s' []
    /\ readAssetConfig s' assetToken_
       = mkAssetConfig (token (readAssetConfig s assetToken_))
                       (auctionDiscount (readAssetConfig s assetToken_)) unit endPrice_.
Proof.
  intros Hauth Hne. apply Z.eqb_neq in Hne.
  unfold registerMigration.
  rewrite (bind_run _ _ _ _ _ _ _ (onlyFactoryOrOwner_run env s [] Hauth)).
  rewrite bind_require_true by (rewrite Hne; reflexivity).
  rewrite bind_getState. cbv zeta. unfold saveAssetConfig.
  rewrite bind_getState. cbv zeta.
  destruct (arrayContains (assetTokenArray s) assetToken_); simpl;
    (eexists; split; [reflexivity |]);
    unfold readAssetConfig; simpl; rewrite lookup_insert_eq; reflexivity.
Qed.

Lemma openPosition_deprecated env s collateralToken_ amount assetToken_ ratio :
  endPrice (readAssetConfig s assetToken_) <> 0 ->
  reverts (openPosition env collateralToken_ amount assetToken_ ratio s [])
  /\ (collateralToken_ <> 0 -> assetToken_ <> 0 -> 0 < amount ->
      respond env [] (CallTransferFrom collateralToken_ (msgSender env) (this env) amount)
      = RetTrue ->
      token (readAssetConfig s assetToken_) = assetToken_ ->
      revertsWith "Operation is not allowed for the deprecated asset"
        (openPosition env collateralToken_ amount assetToken_ ratio s [])).
Proof.
  intros Hend. apply Z.eqb_neq in Hend. split.
  - unfold openPosition.
    do 8 (apply bind_reverts; intros ? ? ? H; inv_success H).
    congruence.
  - intros Hc Ha Hamt Hresp Htok.
    apply Z.eqb_neq in Hc, Ha. apply Z.gtb_lt in Hamt. apply Z.eqb_eq in Htok.
    unfold openPosition. cbv zeta.
    rewrite bind_require_true by (rewrite Hc; reflexivity).
    rewrite bind_require_true by (rewrite Ha; reflexivity).
    rewrite bind_require_true by exact Hamt.
    rewrite bind_extcall_true by exact Hresp.
    rewrite bind_require_true by reflexivity.
    rewrite bind_getState.
    rewrite bind_require_true by exact Htok.
    rewrite bind_require_false by exact Hend. reflexivity.
Qed.

Lemma mint_deprecated env s positionIndex assetToken_ amount :
  endPrice (readAssetConfig s (assetToken (readPosition s positionIndex))) <> 0 ->
  reverts (mint env positionIndex assetToken_ amount s [])
  /\ (assetToken_ <> 0 -> owner (readPosition s positionIndex) = msgSender env ->
      assetToken_ = assetToken (readPosition s positionIndex) -> 0 < amount ->
      revertsWith "Operation is not allowed for the deprecated asset"
        (mint env positionIndex assetToken_ amount s [])).
Proof.
  intros Hend. apply Z.eqb_neq in Hend. split.
  - unfold mint.
    do 5 (apply bind_reverts; intros ? ? ? H; inv_success H).
    congruence.
  - intros Ha Hown Htok Hamt.
    apply Z.eqb_neq in Ha. apply Z.eqb_eq in Hown, Htok. apply Z.gtb_lt in Hamt.
    unfold mint, assertAsset, assertMigratedAsset.
    rewrite bind_require_true by (rewrite Ha; reflexivity).
    rewrite bind_getState. cbv zeta.
    rewrite bind_require_true by exact Hown.
    rewrite bind_require_true by (rewrite Htok, Hamt; reflexivity).
    rewrite bind_require_false by exact Hend. reflexivity.
Qed.

Lemma deposit_deprecated env s positionIndex collateralToken_ amount :
  endPrice (readAssetConfig s (assetToken (readPosition s positionIndex))) <> 0 ->
  reverts (deposit env positionIndex collateralToken_ amount s [])
  /\ (collateralToken_ <> 0 -> 0 < positionIndex ->
      owner (readPosition s positionIndex) = msgSender env ->
      collateralToken (readPosition s positionIndex) = collateralToken_ -> amount <> 0 ->
      revertsWith "Operation is not allowed for the deprecated asset"
        (deposit env positionIndex collateralToken_ amount s [])).
Proof.
  intros Hend. apply Z.eqb_neq in Hend. split.
  - unfold deposit.
    do 6 (apply bind_reverts; intros ? ? ? H; inv_success H).
    congruence.
  - intros Hc Hidx Hown Htok Hamt.
    apply Z.eqb_neq in Hc, Hamt. apply Z.eqb_eq in Hown, Htok. apply Z.gtb_lt in Hidx.
    unfold deposit, assertCollateral, assertMigratedAsset. cbv zeta.
    rewrite bind_require_true by (rewrite Hc; reflexivity).
    rewrite bind_require_true by exact Hidx.
    rewrite bind_getState. cbv zeta.
    rewrite bind_require_true by exact Hown.
    rewrite bind_require_true by (rewrite Htok, Hamt; reflexivity).
    rewrite bind_require_false by exact Hend. reflexivity.
Qed.

(** C6. [registerAsset] on an asset whose stored configuration has a
    nonzero token fails, for a caller that passes the authorization with
    the error of an asset already registered.  [registerMigration] sets the
    asset's minimum collateral ratio to exactly one unit and records the end
    price.  While the end price of an asset is nonzero, every [openPosition]
    for the asset and every [mint] and [deposit] on a position of the asset
    fails; when the checks the contract makes before (addresses, amounts,
    ownership, the collateral transfer, registration) pass, the error is the
    one of a deprecated asset. *)
Theorem registration_and_migration :
  (forall env s assetToken_ discount ratio,
      token (readAssetConfig s assetToken_) <> 0 ->
      reverts (registerAsset env assetToken_ discount ratio s [])
      /\ (authorized env s ->
          transact (registerAsset env assetToken_ discount ratio) s
          = (s, [], Err "Asset was already registered")))
  /\ (forall env s assetToken_ endPrice_,
        authorized env s -> assetToken_ <> 0 ->
        exists s',
          transact (registerMigration env assetToken_ endPrice_) s = (s', [], Ok ())
          /\ minCollateralRatio (readAssetConfig s' assetToken_) = unit
          /\ endPrice (readAssetConfig s' assetToken_) = endPrice_)
  /\ (forall env s assetToken_,
        endPrice (readAssetConfig s assetToken_) <> 0 ->
        (forall collateralToken_ amount ratio,
            reverts (openPosition env collateralToken_ amount assetToken_ ratio s [])
            /\ (collateralToken_ <> 0 -> assetToken_ <> 0 -> 0 < amount ->
                respond env [] (CallTransferFrom collateralToken_ (msgSender env)
                                                 (this env) amount) = RetTrue ->
                token (readAssetConfig s assetToken_) = assetToken_ ->
                revertsWith "Operation is not allowed for the deprecated asset"
                  (openPosition env collateralToken_ amount assetToken_ ratio s [])))
        /\ (forall positionIndex tok amount,
              assetToken (readPosition s positionIndex) = assetToken_ ->
              (reverts (mint env positionIndex tok amount s [])
               /\ (tok <> 0 -> owner (readPosition s positionIndex) = msgSender env ->
                   tok = assetToken_ -> 0 < amount ->
                   revertsWith "Operation is not allowed for the deprecated asset"
                     (mint env positionIndex tok amount s [])))
              /\ (reverts (deposit env positionIndex tok amount s [])
                  /\ (tok <> 0 -> 0 < positionIndex ->
                      owner (readPosition s positionIndex) = msgSender env ->
                      collateralToken (readPosition s positionIndex) = tok ->
                      amount <> 0 ->
                      revertsWith "Operation is not allowed for the deprecated asset"
                        (deposit env positionIndex tok amount s []))))).
Proof.
  split; [| split].
  - intros env s a d r Hreg.
    destruct (registerAsset_twice env s a d r Hreg) as [Hrev Hmsg].
    split; [exact Hrev |]. intros Hauth. unfold transact. rewrite (Hmsg Hauth). reflexivity.
  - intros env s a e Hauth Hne.
    destruct (registerMigration_run env s a e Hauth Hne) as (s' & Hrun & Hcfg).
    exists s'. unfold transact. rewrite Hrun, Hcfg. auto.
  - intros env s a Hend. split.
    + intros c amt r. apply openPosition_deprecated. exact Hend.
    + intros i tok amt Hasset. rewrite <- Hasset in Hend. split.
      * destruct (mint_deprecated env s i tok amt Hend) as [Hrev Hmsg].
        split; [exact Hrev |]. intros ? ? ? ?. apply Hmsg; congruence.
      * apply deposit_deprecated. exact Hend.
Qed.

(** The deployer registers [kApple] a second time; then migrates it at an
    end price of 12.5, after which Alice cannot open a position and Bob can
    neither mint on nor deposit to his position 2. *)
Lemma registration_and_migration_witness :
  let fee := 15 * 10 ^ 15 in
  let admin := Example.env Example.deployer (10 * unit) Example.allTrue in
  let migrated :=
    exec (registerMigration admin Example.kApple (125 * 10 ^ 17)) (Example.bobOpened fee) in
  transact (registerAsset admin Example.kApple (5 * 10 ^ 17) (15 * 10 ^ 17))
           (Example.bobOpened fee)
  = (Example.bobOpened fee, [], Err "Asset was already registered")
  /\ (exists s',
         transact (registerMigration admin Example.kApple (125 * 10 ^ 17))
                  (Example.bobOpened fee) = (s', [], Ok ())
         /\ minCollateralRatio (readAssetConfig s' Example.kApple) = unit
         /\ endPrice (readAssetConfig s' Example.kApple) = 125 * 10 ^ 17)
  /\ revertsWith "Operation is not allowed for the deprecated asset"
       (openPosition (Example.env Example.alice (10 * unit) Example.allTrue)
                     Example.busd (1500 * unit) Example.kApple (15 * 10 ^ 17) migrated [])
  /\ revertsWith "Operation is not allowed for the deprecated asset"
       (mint (Example.env Example.bob (10 * unit) Example.allTrue) 2 Example.kApple unit
             migrated [])
  /\ revertsWith "Operation is not allowed for the deprecated asset"
       (deposit (Example.env Example.bob (10 * unit) Example.allTrue) 2 Example.busd unit
                migrated []).
Proof.
  intros fee admin migrated.
  pose proof registration_and_migration as (Hreg & Hmig & Hdep).
  split; [| split; [| split; [| split]]].
  - apply (proj2 (Hreg admin (Example.bobOpened fee) Example.kApple (5 * 10 ^ 17)
                       (15 * 10 ^ 17) ltac:(vm_compute; intros [=]))).
    right. vm_compute. reflexivity.
  - apply (Hmig admin (Example.bobOpened fee) Example.kApple).
    + right. vm_compute. reflexivity.
    + vm_compute. intros [=].
  - apply (proj2 (proj1 (Hdep (Example.env Example.alice (10 * unit) Example.allTrue)
                              migrated Example.kApple ltac:(vm_compute; intros [=]))
                        Example.busd (1500 * unit) (15 * 10 ^ 17))).
    + vm_compute. intros [=].
    + vm_compute. intros [=].
    + vm_compute. reflexivity.
    + reflexivity.
    + vm_compute. reflexivity.
  - apply (proj2 (proj1 (proj2 (Hdep (Example.env Example.bob (10 * unit) Example.allTrue)
                                     migrated Example.kApple
                                     ltac:(vm_compute; intros [=]))
                               2 Example.kApple unit ltac:(vm_compute; reflexivity)))).
    + vm_compute. intros [=].
    + vm_compute. reflexivity.
    + reflexivity.
    + vm_compute. reflexivity.
  - apply (proj2 (proj2 (proj2 (Hdep (Example.env Example.bob (10 * unit) Example.allTrue)
                                     migrated Example.kApple
                                     ltac:(vm_compute; intros [=]))
                               2 Example.busd unit ltac:(vm_compute; reflexivity)))).
    + vm_compute. intros [=].
    + vm_compute. reflexivity.
    + vm_compute. reflexivity.
    + vm_compute. reflexivity.
    + vm_compute. intros [=].
Defined.

(** ** Closing a position and the owner's index (C7) *)

Lemma auction_keeps_ownerPositionIndex env s positionIndex requested s' calls :
  auction env positionIndex requested s [] = Success () s' calls ->
  ownerPositionIndex s' = ownerPositionIndex s.
Proof.
  intros H. unfold auction in H. inv_success H.
  match goal with H : (if _ then _ else _) _ _ = Success _ _ _ |- _ =>
    split_if H; [| split_if H]; inv_success H end; reflexivity.
Qed.

Lemma withdraw_keeps_ownerPositionIndex env s positionIndex tok amount s' calls :
  withdraw env positionIndex tok amount s [] = Success () s' calls ->
  ownerPositionIndex s' = ownerPositionIndex s.
Proof.
  intros H. unfold withdraw in H. inv_success H.
  match goal with H : (if _ then _ else _) _ _ = Success _ _ _ |- _ =>
    split_if H; inv_success H end;
    [reflexivity | apply savePosition_state_ownerPositionIndex].
Qed.

Lemma deposit_keeps_ownerPositionIndex env s positionIndex tok amount s' calls :
  deposit env positionIndex tok amount s [] = Success () s' calls ->
  ownerPositionIndex s' = ownerPositionIndex s.
Proof.
  intros H. unfold deposit in H. inv_success H.
  apply savePosition_state_ownerPositionIndex.
Qed.

Lemma mint_keeps_ownerPositionIndex env s positionIndex tok amount s' calls :
  mint env positionIndex tok amount s [] = Success () s' calls ->
  ownerPositionIndex s' = ownerPositionIndex s.
Proof.
  intros H. unfold mint in H. inv_success H.
  apply savePosition_state_ownerPositionIndex.
Qed.

Lemma openPosition_sets_ownerPositionIndex env s ctok camt atok ratio index s' calls :
  openPosition env ctok camt atok ratio s [] = Success index s' calls ->
  queryPositionIndex s' (msgSender env) ctok atok = index
  /\ forall o c a,
       (o, c, a) <> (msgSender env, ctok, atok) ->
       queryPositionIndex s' o c a = queryPositionIndex s o c a.
Proof.
  intros H. unfold openPosition in H. inv_success H.
  unfold queryPositionIndex, readOwnerPositionIndex. simpl. split.
  - rewrite lookup_insert_eq. reflexivity.
  - intros o' c' a' Hne. rewrite lookup_insert_ne by congruence.
    destruct (arrayContains _ _); reflexivity.
Qed.

(** C7. [closePosition] succeeds only for the owner of a position with a
    positive debt and a positive collateral; afterwards [queryPosition]
    returns the zero position at that index and the owner's index entry for
    the pair of tokens reads zero, so it does not point to the closed
    position.  No other operation clears an entry: [auction], also when it
    removes the position, and [withdraw], [deposit] and [mint] leave every
    entry of the owner's index as it was; [openPosition] overwrites the
    caller's entry for the pair with the new index and leaves the others. *)
Theorem closePosition_clears_position_and_index :
  (forall env s positionIndex s' calls,
      closePosition env positionIndex s [] = Success () s' calls ->
      let position := readPosition s positionIndex in
      owner position = msgSender env
      /\ 0 < assetAmount position /\ 0 < collateralAmount position
      /\ queryPosition s' positionIndex = (0, 0, 0, 0, 0)
      /\ queryPositionIndex s' (owner position) (collateralToken position)
                            (assetToken position) = 0
      /\ (positionIndex <> 0 ->
          queryPositionIndex s' (owner position) (collateralToken position)
                             (assetToken position) <> positionIndex))
  /\ (forall env s positionIndex requested s' calls,
        auction env positionIndex requested s [] = Success () s' calls ->
        forall o c a, queryPositionIndex s' o c a = queryPositionIndex s o c a)
  /\ (forall env s positionIndex tok amount s' calls,
        withdraw env positionIndex tok amount s [] = Success () s' calls
        \/ deposit env positionIndex tok amount s [] = Success () s' calls
        \/ mint env positionIndex tok amount s [] = Success () s' calls ->
        forall o c a, queryPositionIndex s' o c a = queryPositionIndex s o c a)
  /\ (forall env s collateralToken_ amount assetToken_ ratio index s' calls,
        openPosition env collateralToken_ amount assetToken_ ratio s []
        = Success index s' calls ->
        queryPositionIndex s' (msgSender env) collateralToken_ assetToken_ = index
        /\ forall o c a,
             (o, c, a) <> (msgSender env, collateralToken_, assetToken_) ->
             queryPositionIndex s' o c a = queryPositionIndex s o c a).
Proof.
  split; [| split; [| split]]; [| | | intros; eapply openPosition_sets_ownerPositionIndex;
                                      eassumption].
  - intros env s positionIndex s' calls H. cbv zeta.
    unfold closePosition in H. inv_success H. boolprops.
    assert (Hz : queryPositionIndex
                   (set_ownerPositionIndex
                      (delete (msgSender env,
                               collateralToken (readPosition s positionIndex),
                               assetToken (readPosition s positionIndex))
                              (ownerPositionIndex (removePosition_state positionIndex s)))
                      (removePosition_state positionIndex s))
                   (owner (readPosition s positionIndex))
                   (collateralToken (readPosition s positionIndex))
                   (assetToken (readPosition s positionIndex)) = 0).
    { unfold queryPositionIndex, readOwnerPositionIndex. simpl.
      match goal with H : owner _ = msgSender env |- _ => rewrite H end.
      rewrite lookup_delete_eq. reflexivity. }
    repeat split; try assumption.
    + unfold queryPosition, readPosition, removePosition_state. simpl.
      rewrite lookup_delete_eq. reflexivity.
    + rewrite Hz. intros Hne Heq. apply Hne. symmetry. exact Heq.
  - intros env s positionIndex requested s' calls H o c a.
    unfold queryPositionIndex, readOwnerPositionIndex.
    rewrite (auction_keeps_ownerPositionIndex _ _ _ _ _ _ H). reflexivity.
  - intros env s positionIndex tok amount s' calls H o c a.
    unfold queryPositionIndex, readOwnerPositionIndex.
    destruct H as [H | [H | H]].
    + rewrite (withdraw_keeps_ownerPositionIndex _ _ _ _ _ _ _ H). reflexivity.
    + rewrite (deposit_keeps_ownerPositionIndex _ _ _ _ _ _ _ H). reflexivity.
    + rewrite (mint_keeps_ownerPositionIndex _ _ _ _ _ _ _ H). reflexivity.
Qed.

(** Alice closes position 1; in another run the asset rises to 12 and Bob
    liquidates Alice's position entirely, after which her index entry still
    reads 1; Bob's withdrawal leaves his entry at 2. *)
Lemma closePosition_clears_position_and_index_witness :
  let fee := 15 * 10 ^ 15 in
  let close1 := closePosition (Example.env Example.alice (10 * unit) Example.allTrue) 1 in
  let liquidate1 :=
    auction (Example.env Example.bob (12 * unit) Example.allTrue) 1 (100 * unit) in
  let withdraw2 :=
    withdraw (Example.env Example.bob (10 * unit) Example.allTrue) 2 Example.busd
             (100 * unit) in
  (queryPosition (exec close1 (Example.bobOpened fee)) 1 = (0, 0, 0, 0, 0)
   /\ queryPositionIndex (exec close1 (Example.bobOpened fee))
                         Example.alice Example.busd Example.kApple = 0)
  /\ (queryPosition (exec liquidate1 (Example.bobOpened fee)) 1 = (0, 0, 0, 0, 0)
      /\ queryPositionIndex (exec liquidate1 (Example.bobOpened fee))
                            Example.alice Example.busd Example.kApple = 1)
  /\ queryPositionIndex (exec withdraw2 (Example.bobOpened fee))
                        Example.bob Example.busd Example.kApple = 2
  /\ queryPositionIndex (Example.bobOpened fee) Example.bob Example.busd Example.kApple = 2.
Proof.
  intros fee close1 liquidate1 withdraw2.
  pose proof closePosition_clears_position_and_index
    as (Hclose & Hauction & Hother & Hopen).
  split; [| split; [| split]].
  - destruct (Hclose (Example.env Example.alice (10 * unit) Example.allTrue)
                     (Example.bobOpened fee) 1
                     (exec close1 (Example.bobOpened fee))
                     (callsOf close1 (Example.bobOpened fee)))
      as (_ & _ & _ & Hpos & Hidx & _).
    + vm_compute. reflexivity.
    + split; [exact Hpos |]. rewrite <- Hidx. vm_compute. reflexivity.
  - split; [vm_compute; reflexivity |].
    rewrite (Hauction (Example.env Example.bob (12 * unit) Example.allTrue)
                      (Example.bobOpened fee) 1 (100 * unit)
                      (exec liquidate1 (Example.bobOpened fee))
                      (callsOf liquidate1 (Example.bobOpened fee))).
    + vm_compute. reflexivity.
    + vm_compute. reflexivity.
  - rewrite (Hother (Example.env Example.bob (10 * unit) Example.allTrue)
                    (Example.bobOpened fee) 2 Example.busd (100 * unit)
                    (exec withdraw2 (Example.bobOpened fee))
                    (callsOf withdraw2 (Example.bobOpened fee))).
    + vm_compute. reflexivity.
    + left. vm_compute. reflexivity.
  - refine (proj1 (Hopen (Example.env Example.bob (10 * unit) Example.allTrue)
                         (Example.aliceOpened fee) Example.busd (3000 * unit)
                         Example.kApple (2 * unit) 2 (Example.bobOpened fee)
                         [CallTransferFrom Example.busd Example.bob Example.mintContract
                                           (3000 * unit);
                          CallMint Example.kApple Example.bob (150 * unit)] _)).
    vm_compute. reflexivity.
Defined.

(** ** The array of position indices (C8) *)

Lemma removeLoop_length positionIndex length n : forall i arr,
  List.length (removeLoop positionIndex length n i arr) = List.length arr.
Proof.
  induction n as [| n IH]; intros i arr; simpl; [reflexivity |].
  rewrite IH. destruct (_ =? positionIndex); [| reflexivity].
  rewrite length_insert. destruct (negb _); [apply length_insert | reflexivity].
Qed.

Lemma arrayGet_lookup (arr : list Z) i x : arr !! i = Some x -> arrayGet arr i = x.
Proof. unfold arrayGet. intros ->. reflexivity. Qed.

Lemma removeLoop_zeroes_last positionIndex len n : forall (i : nat) (arr : list Z),
  List.length arr = len -> (i + n = len)%nat ->
  arr !! (len - 1)%nat = Some 0
  \/ (exists j, (i <= j < len)%nat /\ arr !! j = Some positionIndex) ->
  removeLoop positionIndex len n i arr !! (len - 1)%nat = Some 0.
Proof.
  induction n as [| n IH]; intros i arr Hlen Hin Hcase.
  - simpl. destruct Hcase as [H | (j & Hj & _)]; [exact H | lia].
  - cbn [removeLoop].
    assert (Hzero : forall arr1 : list Z,
               List.length arr1 = len -> <[(len - 1)%nat := 0]> arr1 !! (len - 1)%nat = Some 0).
    { intros arr1 H1. apply list_lookup_insert_eq. lia. }
    destruct (Z.eqb_spec (arrayGet arr i) positionIndex) as [Hhit | Hmiss].
    + apply IH; [| lia |].
      * rewrite length_insert. destruct (negb _); [rewrite length_insert |]; exact Hlen.
      * left. apply Hzero. destruct (negb _); [rewrite length_insert |]; exact Hlen.
    + apply IH; [exact Hlen | lia |].
      destruct Hcase as [H | (j & Hj & Hjx)]; [left; exact H |].
      right. exists j. split; [| exact Hjx].
      destruct (Nat.eq_dec j i) as [-> | Hne]; [| lia].
      exfalso. apply Hmiss. apply arrayGet_lookup. exact Hjx.
Qed.

Lemma removePosition_zeroes_last positionIndex s :
  positionIndex ∈ postionIdxArray s ->
  let arr' := postionIdxArray (removePosition_state positionIndex s) in
  List.length arr' = List.length (postionIdxArray s)
  /\ arr' !! (List.length arr' - 1)%nat = Some 0.
Proof.
  intros Hin. cbv zeta. unfold removePosition_state. simpl.
  rewrite removeLoop_length. split; [reflexivity |].
  apply removeLoop_zeroes_last; [reflexivity | lia |].
  right. apply list_elem_of_lookup in Hin as [j Hj].
  exists j. split; [| exact Hj]. apply lookup_lt_Some in Hj. lia.
Qed.

(** C8 fails on the code.  [removePosition] never shortens the array of
    indices: it overwrites the removed index and zeroes the last slot, which
    [delete] leaves in place, so that every removal of a listed index
    leaves a zero in the last slot.  After Alice closes position 1 the
    array is [2; 0]: the invariant that held before is broken by the stale
    zero, at which no position is stored, and the enumeration visits it. *)
Theorem removePosition_leaves_stale_zero :
  (forall positionIndex s,
      List.length (postionIdxArray (removePosition_state positionIndex s))
      = List.length (postionIdxArray s))
  /\ (forall positionIndex s,
        positionIndex ∈ postionIdxArray s ->
        let arr' := postionIdxArray (removePosition_state positionIndex s) in
        arr' !! (List.length arr' - 1)%nat = Some 0)
  /\ (let s := Example.bobOpened (15 * 10 ^ 15) in
      let s' :=
        exec (closePosition (Example.env Example.alice (10 * unit) Example.allTrue) 1) s in
      postionIdxArray s = [1; 2]
      /\ liveIndexInvariant s
      /\ postionIdxArray s' = [2; 0]
      /\ idxPositionMap s' !! 0 = None
      /\ ~ liveIndexInvariant s'
      /\ queryPositions s' 0 0
         = Ok (mkPositionArrays [2; 0] [Example.bob; 0] [Example.busd; 0]
                                [3000 * unit; 0] [Example.kApple; 0] [150 * unit; 0])).
Proof.
  split; [| split].
  - intros positionIndex s. unfold removePosition_state. simpl.
    apply removeLoop_length.
  - intros positionIndex s Hin. apply removePosition_zeroes_last. exact Hin.
  - cbv zeta.
    assert (Harr : postionIdxArray (Example.bobOpened (15 * 10 ^ 15)) = [1; 2])
      by (vm_compute; reflexivity).
    assert (Hmap : idxPositionMap (Example.bobOpened (15 * 10 ^ 15))
                   = <[2 := mkPosition 2 Example.bob Example.busd (3000 * unit)
                                       Example.kApple (150 * unit)]>
                       (<[1 := mkPosition 1 Example.alice Example.busd (1500 * unit)
                                          Example.kApple (100 * unit)]> ∅))
      by (vm_compute; reflexivity).
    assert (Harr' : postionIdxArray
                      (exec (closePosition
                               (Example.env Example.alice (10 * unit) Example.allTrue) 1)
                            (Example.bobOpened (15 * 10 ^ 15))) = [2; 0])
      by (vm_compute; reflexivity).
    assert (Hzero : idxPositionMap
                      (exec (closePosition
                               (Example.env Example.alice (10 * unit) Example.allTrue) 1)
                            (Example.bobOpened (15 * 10 ^ 15))) !! 0 = None)
      by (vm_compute; reflexivity).
    split; [exact Harr |]. split; [| split; [exact Harr' |]; split; [exact Hzero |]; split].
    + unfold liveIndexInvariant. rewrite Harr, Hmap. split.
      * rewrite !NoDup_cons, !elem_of_cons, elem_of_nil.
        split; [intros [H | []]; discriminate H |].
        split; [apply not_elem_of_nil | apply NoDup_nil_2].
      * intros i. rewrite !elem_of_cons, elem_of_nil.
        destruct (decide (i = 2)) as [-> | H2].
        { rewrite lookup_insert_eq. split; eauto. }
        rewrite lookup_insert_ne by congruence.
        destruct (decide (i = 1)) as [-> | H1].
        { rewrite lookup_insert_eq. split; eauto. }
        rewrite lookup_insert_ne by congruence. rewrite lookup_empty.
        split; [intros [? | [? | []]]; congruence | intros [? ?]; discriminate].
    + intros [_ Hiff]. specialize (Hiff 0). rewrite Harr', Hzero in Hiff.
      destruct (proj1 Hiff) as [? ?]; [| discriminate].
      rewrite !elem_of_cons. right. left. reflexivity.
    + vm_compute. reflexivity.
Qed.

(** Position 1 is listed in [1; 2]; its removal leaves a zero in the last
    slot. *)
Lemma removePosition_leaves_stale_zero_witness :
  let s := Example.bobOpened (15 * 10 ^ 15) in
  postionIdxArray (removePosition_state 1 s)
  !! (List.length (postionIdxArray (removePosition_state 1 s)) - 1)%nat = Some 0.
Proof.
  intros s.
  refine (proj1 (proj2 removePosition_leaves_stale_zero) 1 s _).
  apply list_elem_of_lookup. exists 0%nat. vm_compute. reflexivity.
Defined.

(** ** Transfers that return [false] (C9) *)

(** Where the contract wraps a transfer in [require], a successful run has
    no refused transfer: this holds for every transfer of [openPosition],
    [deposit], [withdraw] and [closePosition]. *)
Lemma checked_transfers_abort env s :
  (forall c a t r i s' calls,
      openPosition env c a t r s [] = Success i s' calls ->
      refusedTransfers env [] calls = [])
  /\ (forall i c a s' calls,
        deposit env i c a s [] = Success () s' calls ->
        refusedTransfers env [] calls = [])
  /\ (forall i c a s' calls,
        withdraw env i c a s [] = Success () s' calls ->
        refusedTransfers env [] calls = [])
  /\ (forall i s' calls,
        closePosition env i s [] = Success () s' calls ->
        refusedTransfers env [] calls = []).
Proof.
  split; [| split; [| split]].
  - intros c a t r i s' calls H. unfold openPosition in H. inv_success H. answers.
    all: simpl; repeat match goal with H : respond _ _ _ = _ |- _ => simpl in H; rewrite H end;
      reflexivity.
  - intros i c a s' calls H. unfold deposit in H. inv_success H. answers.
    simpl. repeat match goal with H : respond _ _ _ = _ |- _ => simpl in H; rewrite H end.
    reflexivity.
  - intros i c a s' calls H. unfold withdraw in H. inv_success H.
    match goal with H : (if _ then _ else _) _ _ = Success _ _ _ |- _ =>
      split_if H; inv_success H end; answers;
      simpl; repeat match goal with H : respond _ _ _ = _ |- _ => simpl in H; rewrite H end;
      reflexivity.
  - intros i s' calls H. unfold closePosition in H. inv_success H. answers.
    all: simpl; repeat match goal with H : respond _ _ _ = _ |- _ => simpl in H; rewrite H end;
      reflexivity.
Qed.

(** C9 fails on the code.  After the asset rose to 11, Bob liquidates the
    whole debt of Alice's position; 125 base tokens of collateral remain and
    are sent to Alice.  The token answers [false] to that transfer, and the
    auction nevertheless succeeds: the position is removed and the other
    transfers take effect. *)
Theorem auction_ignores_refused_residual_transfer :
  let env := Example.env Example.bob (11 * unit) (Example.refusing Example.alice) in
  let s := Example.discountLowered (15 * 10 ^ 15) in
  let calls :=
    [CallTransferFrom Example.kApple Example.bob Example.mintContract (100 * unit);
     CallTransfer Example.busd Example.alice (125 * unit);
     CallTransfer Example.busd Example.collector (20625 * 10 ^ 15);
     CallTransfer Example.busd Example.bob (1354375 * 10 ^ 15)] in
  transact (auction env 1 (100 * unit)) s = (removePosition_state 1 s, calls, Ok ())
  /\ refusedTransfers env [] calls = [CallTransfer Example.busd Example.alice (125 * unit)]
  /\ readPosition (removePosition_state 1 s) 1 = zeroPosition.
Proof.
  cbv zeta. split; [| split]; vm_compute; reflexivity.
Qed.

(** ** Withdrawal and the protocol fee (C10) *)

Lemma withdraw_reverts_without_fee env s positionIndex tok amount c :
  _protocolFeeRate s = 0 ->
  reverts (withdraw env positionIndex tok amount s c).
Proof.
  intros Hfee. unfold withdraw.
  repeat (apply bind_reverts; intros ? ? ? H; inv_success H).
  assert (Hs1 : _protocolFeeRate s1 = 0).
  { match type of H with (if ?b then _ else _) _ _ = _ => destruct b end.
    - rewrite removePosition_run in H. injection H as _ <- _. exact Hfee.
    - rewrite savePosition_run in H. injection H as _ <- _.
      rewrite savePosition_state_fee. exact Hfee. }
  unfold bind at 1. unfold getState. unfold bind at 1. rewrite Hs1. exact I.
Qed.

(** C10. While the configured protocol fee rate is zero, every call of
    [withdraw] reverts, whatever the position, the caller and the amount:
    the storage is unchanged and no transfer takes effect.  The
    configuration accepts a zero rate: on a storage that was not
    initialized, [initialize] only requires the rate to be at most one
    unit. *)
Theorem withdraw_blocked_by_zero_fee_rate :
  forall env s positionIndex collateralToken_ withdrawAmount,
    _protocolFeeRate s = 0 ->
    (exists msg, transact (withdraw env positionIndex collateralToken_ withdrawAmount) s
                 = (s, [], Err msg))
    /\ (forall factory oracle collector baseToken priceExpireTime s0,
          _initialized s0 = false ->
          exists s1,
            transact (initialize env factory oracle collector baseToken 0 priceExpireTime) s0
            = (s1, [], Ok ())
            /\ _protocolFeeRate s1 = 0).
Proof.
  intros env s positionIndex tok amount Hfee. split.
  - pose proof (withdraw_reverts_without_fee env s positionIndex tok amount [] Hfee) as H.
    unfold transact. destruct (withdraw _ _ _ _ s []) as [? ? ? | msg ? ?]; [destruct H |].
    eauto.
  - intros f o c b t s0 Hfresh. eexists.
    unfold transact, initialize, initializer, bind, getState, require. rewrite Hfresh.
    split; reflexivity.
Qed.

(** Bob cannot withdraw 100 of his 3000 base tokens, far above the minimum
    ratio, when the deployment has a zero fee rate; and the first
    [initialize] of a storage accepts the zero rate. *)
Lemma withdraw_blocked_by_zero_fee_rate_witness :
  (exists msg,
      transact (withdraw (Example.env Example.bob (10 * unit) Example.allTrue) 2
                         Example.busd (100 * unit)) (Example.bobOpened 0)
      = (Example.bobOpened 0, [], Err msg))
  /\ (exists s1,
        transact (initialize (Example.env Example.bob (10 * unit) Example.allTrue)
                             Example.factory Example.oracle Example.collector
                             Example.busd 0 60) Example.blank
        = (s1, [], Ok ())
        /\ _protocolFeeRate s1 = 0).
Proof.
  assert (Hfee : _protocolFeeRate (Example.bobOpened 0) = 0) by (vm_compute; reflexivity).
  destruct (withdraw_blocked_by_zero_fee_rate
              (Example.env Example.bob (10 * unit) Example.allTrue)
              (Example.bobOpened 0) 2 Example.busd (100 * unit) Hfee) as [Hblocked Hinit].
  split; [exact Hblocked |].
  refine (Hinit Example.factory Example.oracle Example.collector Example.busd 60
                Example.blank _).
  reflexivity.
Defined.

(** * Further properties *)

(** ** The enumeration queries *)

Lemma memWrite_next (pre : list Z) (k i : nat) (v : Z) :
  i = List.length pre ->
  memWrite (pre ++ replicate (S k) 0) i v = Ok ((pre ++ [v]) ++ replicate k 0).
Proof.
  intros ->. unfold memWrite.
  rewrite length_app, length_replicate.
  destruct (Nat.ltb_spec (List.length pre) (List.length pre + S k)); [| lia].
  rewrite insert_app_r_alt by lia. rewrite Nat.sub_diag. simpl.
  rewrite <- app_assoc. reflexivity.
Qed.

Lemma writeRow_next rows k position :
  writeRow (arraysOf rows (S k)) (List.length rows) position
  = Ok (arraysOf (rows ++ [position]) k).
Proof.
  unfold writeRow, arraysOf. cbn [idxes positionOwners collateralTokens
    collateralAmounts assetTokens assetAmounts].
  rewrite !memWrite_next by (rewrite length_map; reflexivity).
  simpl. rewrite !map_app. reflexivity.
Qed.

Lemma scanPositions_rows s (f : Position -> bool) todo : forall rows k,
  (List.length todo <= k)%nat ->
  scanPositions s (fun position => Ok (f position)) todo (List.length rows)
                (arraysOf rows k)
  = Ok (arraysOf (rows ++ List.filter f (map (readPosition s) todo))
                 (k - List.length (List.filter f (map (readPosition s) todo)))).
Proof.
  induction todo as [| i rest IH]; intros rows k Hk; cbn [scanPositions].
  - simpl. rewrite app_nil_r, Nat.sub_0_r. reflexivity.
  - cbn [rbind map List.filter]. simpl in Hk.
    destruct (f (readPosition s i)) eqn:Hf.
    + destruct k as [| k]; [lia |].
      rewrite writeRow_next. cbn [rbind].
      replace (S (List.length rows)) with (List.length (rows ++ [readPosition s i]))
        by (rewrite length_app; simpl; lia).
      rewrite IH by lia. rewrite <- app_assoc. reflexivity.
    + rewrite IH by lia. reflexivity.
Qed.

Lemma filter_length_le {A} (f : A -> bool) (l : list A) :
  (List.length (List.filter f l) <= List.length l)%nat.
Proof.
  induction l as [| x l IH]; simpl; [lia |]. destruct (f x); simpl; lia.
Qed.

(** X1. [queryPositions] never fails.  It returns arrays as long as the
    array of indices: first one row for every visited position whose owner
    and asset pass the filter (a zero address passes everything), in the
    order of the array of indices, then rows of zeros. *)
Theorem queryPositions_rows :
  forall s owner_ assetToken_,
    let f := fun position =>
               ((owner position =? owner_) || (owner_ =? 0))
               && ((assetToken position =? assetToken_) || (assetToken_ =? 0)) in
    queryPositions s owner_ assetToken_
    = Ok (arraysOf (visited s f)
                   (List.length (postionIdxArray s) - List.length (visited s f)))
    /\ (List.length (visited s f) <= List.length (postionIdxArray s))%nat.
Proof.
  intros s o a f. split.
  - unfold queryPositions.
    change (newArrays (List.length (postionIdxArray s)))
      with (arraysOf [] (List.length (postionIdxArray s))).
    change 0%nat with (List.length (@nil Position)) at 1.
    rewrite (scanPositions_rows s f) by lia. reflexivity.
  - unfold visited. etransitivity; [apply filter_length_le |].
    rewrite length_map. lia.
Qed.

(** X2. [queryAllPositions] rejects the zero address; for any other owner
    it returns one row for every visited position of that owner, followed
    by rows of zeros, which is also what [queryPositions] returns for that
    owner and no asset filter. *)
Theorem queryAllPositions_rows :
  (forall s, queryAllPositions s 0 = Err "Invalid address")
  /\ (forall s owner_,
        owner_ <> 0 ->
        let f := fun position => owner position =? owner_ in
        queryAllPositions s owner_
        = Ok (arraysOf (visited s f)
                       (List.length (postionIdxArray s) - List.length (visited s f)))
        /\ queryPositions s owner_ 0 = queryAllPositions s owner_).
Proof.
  split; [reflexivity |].
  intros s o Ho. cbv zeta.
  assert (Hall : queryAllPositions s o
                 = Ok (arraysOf (visited s (fun position => owner position =? o))
                         (List.length (postionIdxArray s)
                          - List.length (visited s (fun position => owner position =? o))))).
  { unfold queryAllPositions. apply Z.eqb_neq in Ho. rewrite Ho. cbn [negb rrequire rbind].
    change (newArrays (List.length (postionIdxArray s)))
      with (arraysOf [] (List.length (postionIdxArray s))).
    change 0%nat with (List.length (@nil Position)) at 1.
    rewrite (scanPositions_rows s (fun position => owner position =? o)) by lia.
    reflexivity. }
  split; [exact Hall |].
  rewrite Hall. rewrite (proj1 (queryPositions_rows s o 0)).
  assert (Hf : visited s (fun position =>
                 ((owner position =? o) || (o =? 0))
                 && ((assetToken position =? 0) || (0 =? 0)))
               = visited s (fun position => owner position =? o)).
  { unfold visited. apply List.filter_ext. intros p.
    apply Z.eqb_neq in Ho. rewrite Ho. simpl.
    rewrite orb_false_r, orb_true_r, andb_true_r. reflexivity. }
  rewrite Hf. reflexivity.
Qed.

Lemma queryAllPositions_rows_witness :
  queryAllPositions (Example.bobOpened (15 * 10 ^ 15)) Example.bob
  = Ok (arraysOf [mkPosition 2 Example.bob Example.busd (3000 * unit) Example.kApple
                             (150 * unit)] 1).
Proof.
  destruct (proj2 queryAllPositions_rows (Example.bobOpened (15 * 10 ^ 15)) Example.bob)
    as [H _].
  - vm_compute. intros [=].
  - rewrite H. vm_compute. reflexivity.
Defined.

(** ** What an operation leaves alone *)

Ltac frame :=
  unfold sameConfiguration, sameLedger, queryConfig, savePosition_state,
    removePosition_state;
  repeat match goal with
    | |- context [if ?b then _ else _] => destruct b
    end;
  simpl; auto.

(** X3. The operations on positions never change the configuration or the
    asset registry: owner, factory, oracle, collector, base token, fee rate,
    price expiry and every asset's configuration are the same after a
    successful [openPosition], [deposit], [withdraw], [mint],
    [closePosition] or [auction]. *)
Theorem position_operations_keep_configuration :
  forall env op s s' calls,
    perform env op s [] = Success () s' calls ->
    sameConfiguration s s'.
Proof.
  intros env op s s' calls H. destruct op; cbn [perform] in H.
  - unfold openPosition in H. inv_success H. frame.
  - unfold deposit in H. inv_success H. frame.
  - unfold withdraw in H. inv_success H.
    match goal with H : (if _ then _ else _) _ _ = Success _ _ _ |- _ =>
      split_if H; inv_success H end; frame.
  - unfold mint in H. inv_success H. frame.
  - unfold closePosition in H. inv_success H. frame.
  - unfold auction in H. inv_success H.
    match goal with H : (if _ then _ else _) _ _ = Success _ _ _ |- _ =>
      split_if H; [| split_if H]; inv_success H end; frame.
Qed.

Lemma position_operations_keep_configuration_witness :
  let s := Example.bobOpened (15 * 10 ^ 15) in
  let env := Example.env Example.bob (10 * unit) Example.allTrue in
  sameConfiguration s (exec (perform env (Withdraw 2 Example.busd (100 * unit))) s).
Proof.
  intros s env.
  refine (position_operations_keep_configuration env
            (Withdraw 2 Example.busd (100 * unit)) s _
            (callsOf (perform env (Withdraw 2 Example.busd (100 * unit))) s) _).
  vm_compute. reflexivity.
Defined.

(** X4. The operations on the configuration and the registry never change
    the position ledger: the stored positions, the array of indices, the
    counter and the owner's index are the same after a successful
    [setFactory], [updateConfig], [updateAsset], [registerAsset] or
    [registerMigration]. *)
Theorem registry_operations_keep_ledger :
  forall env s s' calls,
    (exists factory, setFactory env factory s [] = Success () s' calls)
    \/ (exists factory oracle collector baseToken protocolFeeRate priceExpireTime,
          updateConfig env factory oracle collector baseToken protocolFeeRate
                       priceExpireTime s [] = Success () s' calls)
    \/ (exists assetToken_ discount ratio,
          updateAsset env assetToken_ discount ratio s [] = Success () s' calls)
    \/ (exists assetToken_ discount ratio,
          registerAsset env assetToken_ discount ratio s [] = Success () s' calls)
    \/ (exists assetToken_ endPrice_,
          registerMigration env assetToken_ endPrice_ s [] = Success () s' calls) ->
    sameLedger s s' /\ calls = [].
Proof.
  intros env s s' calls [(f & H) | [(f & o & c & b & r & t & H) | [(a & d & r & H)
    | [(a & d & r & H) | (a & e & H)]]]].
  - unfold setFactory in H. inv_success H. frame.
  - unfold updateConfig in H. inv_success H. frame.
  - unfold updateAsset, _saveAsset, saveAssetConfig in H. inv_success H.
    match goal with H : (if _ then _ else _) _ _ = Success _ _ _ |- _ =>
      split_if H; inv_success H end; frame.
  - unfold registerAsset, _saveAsset, saveAssetConfig in H. inv_success H.
    match goal with H : (if _ then _ else _) _ _ = Success _ _ _ |- _ =>
      split_if H; inv_success H end; frame.
  - unfold registerMigration, saveAssetConfig in H. inv_success H.
    match goal with H : (if _ then _ else _) _ _ = Success _ _ _ |- _ =>
      split_if H; inv_success H end; frame.
Qed.

Lemma registry_operations_keep_ledger_witness :
  let s := Example.bobOpened (15 * 10 ^ 15) in
  let env := Example.env Example.deployer (10 * unit) Example.allTrue in
  sameLedger s (exec (registerMigration env Example.kApple (125 * 10 ^ 17)) s)
  /\ @nil ExtCall = [].
Proof.
  intros s env.
  refine (registry_operations_keep_ledger env s _ [] _).
  right. right. right. right. exists Example.kApple, (125 * 10 ^ 17).
  vm_compute. reflexivity.
Defined.

(** ** Adjusting a position *)

Lemma readPosition_savePosition_state i p s j :
  readPosition (savePosition_state i p s) j
  = if decide (i = j) then p else readPosition s j.
Proof.
  unfold readPosition, savePosition_state. simpl.
  rewrite lookup_insert. destruct (decide (i = j)); reflexivity.
Qed.

Lemma readPosition_removePosition_state i s j :
  readPosition (removePosition_state i s) j
  = if decide (i = j) then zeroPosition else readPosition s j.
Proof.
  unfold readPosition, removePosition_state. simpl.
  rewrite lookup_delete. destruct (decide (i = j)); reflexivity.
Qed.

(** X5. A successful [deposit] is made by the owner of the position, in the
    position's collateral token, with a nonzero amount, on an asset that is
    not migrated.  It pulls exactly the amount from the caller, adds it to
    the position's collateral and changes nothing else of the position and
    no other position. *)
Theorem deposit_adds_collateral :
  forall env s positionIndex collateralToken_ amount s' calls,
    let position := readPosition s positionIndex in
    in_range (collateralAmount position) -> in_range amount ->
    deposit env positionIndex collateralToken_ amount s [] = Success () s' calls ->
    owner position = msgSender env
    /\ collateralToken position = collateralToken_ /\ collateralToken_ <> 0
    /\ 0 < amount /\ 0 < positionIndex
    /\ endPrice (readAssetConfig s (assetToken position)) = 0
    /\ collateralAmount position + amount <= MAX_UINT
    /\ readPosition s' positionIndex
       = with_collateralAmount position (collateralAmount position + amount)
    /\ (forall j, j <> positionIndex -> readPosition s' j = readPosition s j)
    /\ calls = [CallTransferFrom collateralToken_ (msgSender env) (this env) amount].
Proof.
  cbv zeta. intros env s i tok amt s' calls Hc Ha H.
  unfold deposit in H. inv_success H. boolprops.
  match goal with H : SafeMath.add _ _ = Ok _ |- _ =>
    apply add_Ok in H as [-> Hle]; [| assumption | assumption] end.
  repeat split; try assumption; try congruence.
  - destruct Ha. lia.
  - rewrite readPosition_savePosition_state. destruct (decide (i = i)); congruence.
  - intros j Hj. rewrite readPosition_savePosition_state.
    destruct (decide (i = j)); congruence.
Qed.

Lemma deposit_adds_collateral_witness :
  let s := Example.bobOpened (15 * 10 ^ 15) in
  let env := Example.env Example.bob (10 * unit) Example.allTrue in
  readPosition (exec (deposit env 2 Example.busd (500 * unit)) s) 2
  = mkPosition 2 Example.bob Example.busd (3500 * unit) Example.kApple (150 * unit).
Proof.
  intros s env.
  destruct (deposit_adds_collateral env s 2 Example.busd (500 * unit)
              (exec (deposit env 2 Example.busd (500 * unit)) s)
              (callsOf (deposit env 2 Example.busd (500 * unit)) s))
    as (_ & _ & _ & _ & _ & _ & _ & H & _).
  - vm_compute. split; intros [=].
  - vm_compute. split; intros [=].
  - vm_compute. reflexivity.
  - rewrite H. vm_compute. reflexivity.
Defined.

(** X6. A successful [withdraw] is made by the owner, in the position's
    collateral token, with a nonzero amount not above the collateral, while
    the fee rate is positive.  The check it has passed is
    [assetAmount * q * minCollateralRatio <= collateral left], truncating,
    where [q] is what [queryPrice] returns for the collateral token in the
    asset token: the price of the collateral token divided by the price of
    the asset token.  That is the reciprocal of the rate that values the
    debt in the collateral token, so the check does not keep the collateral
    above the value of the debt: Bob, who holds 3000 base tokens against
    150 [kApple] at a price of 10, a debt worth 1500, withdraws 2977.5 and
    keeps 22.5.  The caller is sent the amount minus the fee and the
    collector the fee [amount * protocolFeeRate]; the position keeps the
    rest, or is removed when collateral and debt are both zero. *)
Theorem withdraw_pays_out :
  forall env s positionIndex collateralToken_ amount s' calls,
    let position := readPosition s positionIndex in
    let assetConfig := readAssetConfig s (assetToken position) in
    in_range (collateralAmount position) -> 0 <= assetAmount position ->
    0 <= minCollateralRatio assetConfig -> 0 <= amount -> 0 <= _protocolFeeRate s ->
    withdraw env positionIndex collateralToken_ amount s [] = Success () s' calls ->
    exists relativePrice,
      queryPrice env s (collateralToken position) (assetToken position) = Ok relativePrice
      /\ relativePrice
         = fst (readPrice env s (collateralToken position)) * unit
           / fst (readPrice env s (assetToken position))
      /\ let left := collateralAmount position - amount in
         let fee := amount * _protocolFeeRate s / unit in
         owner position = msgSender env
         /\ collateralToken position = collateralToken_ /\ collateralToken_ <> 0
         /\ 0 < amount <= collateralAmount position
         /\ 0 < _protocolFeeRate s
         /\ assetAmount position * relativePrice / unit * minCollateralRatio assetConfig / unit
            <= left
         /\ fee <= amount
         /\ calls = [CallTransfer collateralToken_ (msgSender env) (amount - fee);
                     CallTransfer collateralToken_ (_collector s) fee]
         /\ readPosition s' positionIndex
            = (if (left =? 0) && (assetAmount position =? 0) then zeroPosition
               else with_collateralAmount position left)
         /\ (forall j, j <> positionIndex -> readPosition s' j = readPosition s j).
Proof.
  cbv zeta. intros env s i tok amt s' calls Hc Hd Hm Ha Hf H.
  unfold withdraw in H. inv_success H. boolprops.
  match goal with H : queryPrice _ _ _ _ = Ok ?r |- _ =>
    exists r; split; [exact H |];
    apply queryPrice_Ok in H as (_ & _ & Hquot & Hrel & _);
    split; [exact Hquot |]; clear Hquot end.
  match goal with H : SafeMath.sub (collateralAmount _) amt = Ok _ |- _ =>
    apply sub_Ok in H as [Hle ->]; [| assumption | assumption] end.
  match goal with H : multiplyDecimal (assetAmount _) _ = Ok _ |- _ =>
    apply multiplyDecimal_Ok in H as [-> _]; [| assumption | assumption] end.
  match goal with H : multiplyDecimal _ (minCollateralRatio _) = Ok _ |- _ =>
    apply multiplyDecimal_Ok in H as [-> _];
      [| apply Z.div_pos; [apply Z.mul_nonneg_nonneg; assumption | apply unit_pos]
       | assumption] end.
  match goal with H : (if _ then _ else _) _ _ = Success _ ?st ?c |- _ =>
    assert (Hst : c = [] /\ _protocolFeeRate st = _protocolFeeRate s
                  /\ _collector st = _collector s
                  /\ (forall j, readPosition st j
                        = if decide (i = j)
                          then (if (collateralAmount (readPosition s i) - amt =? 0)
                                   && (assetAmount (readPosition s i) =? 0)
                                then zeroPosition
                                else with_collateralAmount (readPosition s i)
                                       (collateralAmount (readPosition s i) - amt))
                          else readPosition s j));
    [ cbn [collateralAmount assetAmount with_collateralAmount] in H;
      split_if H; inv_success H;
      (split; [reflexivity |]); (split; [frame |]); (split; [frame |]); intros j;
      [ rewrite readPosition_removePosition_state | rewrite readPosition_savePosition_state ];
      reflexivity
    | destruct Hst as (-> & Hfr & Hcol & Hread); rewrite Hfr, Hcol in * ] end.
  match goal with H : multiplyDecimal amt _ = Ok _ |- _ =>
    apply multiplyDecimal_Ok in H as [-> _]; [| lia | assumption] end.
  match goal with H : SafeMath.sub amt _ = Ok _ |- _ =>
    apply sub_Ok in H as [Hfee ->];
      [| destruct Hc; unfold in_range; lia
       | apply Z.div_pos; [apply Z.mul_nonneg_nonneg; lia | apply unit_pos] ] end.
  repeat split; try assumption; try congruence; try lia.
  - rewrite Hread. destruct (decide (i = i)); congruence.
  - intros j Hj. rewrite Hread. destruct (decide (i = j)); congruence.
Qed.

Lemma withdraw_pays_out_witness :
  let s := Example.bobOpened (15 * 10 ^ 15) in
  let env := Example.env Example.bob (10 * unit) Example.allTrue in
  readPosition s 2
  = mkPosition 2 Example.bob Example.busd (3000 * unit) Example.kApple (150 * unit)
  /\ readPosition (exec (withdraw env 2 Example.busd (29775 * 10 ^ 17)) s) 2
     = mkPosition 2 Example.bob Example.busd (225 * 10 ^ 17) Example.kApple (150 * unit)
  /\ callsOf (withdraw env 2 Example.busd (29775 * 10 ^ 17)) s
     = [CallTransfer Example.busd Example.bob (29328375 * 10 ^ 14);
        CallTransfer Example.busd Example.collector (446625 * 10 ^ 14)].
Proof.
  intros s env. split; [vm_compute; reflexivity |].
  destruct (withdraw_pays_out env s 2 Example.busd (29775 * 10 ^ 17)
              (exec (withdraw env 2 Example.busd (29775 * 10 ^ 17)) s)
              (callsOf (withdraw env 2 Example.busd (29775 * 10 ^ 17)) s))
    as (r & _ & _ & _ & _ & _ & _ & _ & _ & _ & Hcalls & Hread & _).
  - vm_compute. split; intros [=].
  - vm_compute. intros [=].
  - vm_compute. intros [=].
  - vm_compute. intros [=].
  - vm_compute. intros [=].
  - vm_compute. reflexivity.
  - split.
    + rewrite Hread. vm_compute. reflexivity.
    + rewrite Hcalls. vm_compute. reflexivity.
Defined.

(** X7. A successful [mint] is made by the owner, for the position's asset,
    with a positive amount, on an asset that is not migrated.  The check it
    has passed is [(assetAmount + amount) * q * minCollateralRatio <=
    collateralAmount], truncating, where [q] is what [queryPrice] returns
    for the collateral token in the asset token: the price of the
    collateral token divided by the price of the asset token.  That is the
    reciprocal of the rate that values the debt in the collateral token, so
    the check does not keep the value of the debt below the collateral:
    Bob, who holds 3000 base tokens against 150 [kApple] at a price of 10,
    mints 19850 more and owes 20000 [kApple], worth 200000.  The amount is
    added to the position's debt and minted to the caller on the token of
    the asset's configuration; nothing else changes. *)
Theorem mint_adds_debt :
  forall env s positionIndex assetToken_ amount s' calls,
    let position := readPosition s positionIndex in
    let assetConfig := readAssetConfig s (assetToken position) in
    in_range (assetAmount position) -> in_range amount ->
    0 <= minCollateralRatio assetConfig ->
    mint env positionIndex assetToken_ amount s [] = Success () s' calls ->
    exists relativePrice,
      queryPrice env s (collateralToken position) (assetToken position) = Ok relativePrice
      /\ relativePrice
         = fst (readPrice env s (collateralToken position)) * unit
           / fst (readPrice env s (assetToken position))
      /\ owner position = msgSender env
      /\ assetToken_ = assetToken position /\ assetToken_ <> 0 /\ 0 < amount
      /\ endPrice assetConfig = 0
      /\ (assetAmount position + amount) * relativePrice / unit
         * minCollateralRatio assetConfig / unit <= collateralAmount position
      /\ readPosition s' positionIndex
         = with_assetAmount position (assetAmount position + amount)
      /\ (forall j, j <> positionIndex -> readPosition s' j = readPosition s j)
      /\ calls = [CallMint (token assetConfig) (msgSender env) amount].
Proof.
  cbv zeta. intros env s i tok amt s' calls Hd Ha Hm H.
  unfold mint in H. inv_success H. boolprops.
  match goal with H : queryPrice _ _ _ _ = Ok ?r |- _ =>
    exists r; split; [exact H |];
    apply queryPrice_Ok in H as (_ & _ & Hquot & Hrel & _);
    split; [exact Hquot |]; clear Hquot end.
  match goal with H : SafeMath.add amt _ = Ok _ |- _ =>
    apply add_Ok in H as [-> Hle]; [| assumption | assumption] end.
  match goal with H : SafeMath.add (assetAmount _) amt = Ok _ |- _ =>
    apply add_Ok in H as [-> _]; [| assumption | assumption] end.
  destruct Hd, Ha.
  match goal with H : multiplyDecimal (amt + _) _ = Ok _ |- _ =>
    apply multiplyDecimal_Ok in H as [-> _]; [| lia | assumption] end.
  match goal with H : multiplyDecimal _ (minCollateralRatio _) = Ok _ |- _ =>
    apply multiplyDecimal_Ok in H as [-> _];
      [| apply Z.div_pos; [apply Z.mul_nonneg_nonneg; lia | apply unit_pos]
       | assumption] end.
  repeat split; try assumption; try congruence.
  - rewrite (Z.add_comm (assetAmount _) amt). assumption.
  - rewrite readPosition_savePosition_state. destruct (decide (i = i)); congruence.
  - intros j Hj. rewrite readPosition_savePosition_state.
    destruct (decide (i = j)); congruence.
Qed.

Lemma mint_adds_debt_witness :
  let s := Example.bobOpened (15 * 10 ^ 15) in
  let env := Example.env Example.bob (10 * unit) Example.allTrue in
  readPosition s 2
  = mkPosition 2 Example.bob Example.busd (3000 * unit) Example.kApple (150 * unit)
  /\ readPosition (exec (mint env 2 Example.kApple (19850 * unit)) s) 2
     = mkPosition 2 Example.bob Example.busd (3000 * unit) Example.kApple (20000 * unit).
Proof.
  intros s env. split; [vm_compute; reflexivity |].
  destruct (mint_adds_debt env s 2 Example.kApple (19850 * unit)
              (exec (mint env 2 Example.kApple (19850 * unit)) s)
              (callsOf (mint env 2 Example.kApple (19850 * unit)) s))
    as (r & _ & _ & _ & _ & _ & _ & _ & _ & H & _).
  - vm_compute. split; intros [=].
  - vm_compute. split; intros [=].
  - vm_compute. intros [=].
  - vm_compute. reflexivity.
  - rewrite H. vm_compute. reflexivity.
Defined.

(** ** Closing and the fee *)

(** X8. A successful [closePosition] pulls the whole debt from the owner
    and burns it, sends the owner the collateral minus the fee
    [collateral * protocolFeeRate] and the collector the fee, so that the
    two payments add up to the collateral; no other position changes. *)
Theorem closePosition_pays_out :
  forall env s positionIndex s' calls,
    let position := readPosition s positionIndex in
    let fee := collateralAmount position * _protocolFeeRate s / unit in
    in_range (collateralAmount position) -> 0 <= _protocolFeeRate s ->
    closePosition env positionIndex s [] = Success () s' calls ->
    0 <= fee <= collateralAmount position
    /\ calls = [CallTransferFrom (assetToken position) (msgSender env) (this env)
                                 (assetAmount position);
                CallBurn (assetToken position) (this env) (assetAmount position);
                CallTransfer (collateralToken position) (msgSender env)
                             (collateralAmount position - fee);
                CallTransfer (collateralToken position) (_collector s) fee]
    /\ (forall j, j <> positionIndex -> readPosition s' j = readPosition s j).
Proof.
  cbv zeta. intros env s i s' calls Hc Hf H.
  unfold closePosition in H. inv_success H. boolprops.
  match goal with H : multiplyDecimal _ _ = Ok _ |- _ =>
    apply multiplyDecimal_Ok in H as [-> _]; [| lia | assumption] end.
  assert (Hfee0 : 0 <= collateralAmount (readPosition s i) * _protocolFeeRate s / unit).
  { apply Z.div_pos; [apply Z.mul_nonneg_nonneg; lia | apply unit_pos]. }
  match goal with H : SafeMath.sub _ _ = Ok _ |- _ =>
    apply sub_Ok in H as [Hfee ->]; [| assumption | assumption] end.
  split; [lia |]. split; [reflexivity |].
  intros j Hj. unfold readPosition. simpl.
  rewrite lookup_delete_ne by congruence. reflexivity.
Qed.

Lemma closePosition_pays_out_witness :
  let s := Example.bobOpened (15 * 10 ^ 15) in
  let env := Example.env Example.alice (10 * unit) Example.allTrue in
  callsOf (closePosition env 1) s
  = [CallTransferFrom Example.kApple Example.alice Example.mintContract (100 * unit);
     CallBurn Example.kApple Example.mintContract (100 * unit);
     CallTransfer Example.busd Example.alice (14775 * 10 ^ 17);
     CallTransfer Example.busd Example.collector (225 * 10 ^ 17)].
Proof.
  intros s env.
  destruct (closePosition_pays_out env s 1 (exec (closePosition env 1) s)
                                   (callsOf (closePosition env 1) s))
    as (_ & H & _).
  - vm_compute. split; intros [=].
  - vm_compute. intros [=].
  - vm_compute. reflexivity.
  - rewrite H. vm_compute. reflexivity.
Defined.

(** X9. [updateConfig] does not bound the fee rate the way [initialize]
    does: the owner can set any rate.  Once the rate exceeds one unit by
    enough that the fee on a position's collateral exceeds the collateral,
    that position cannot be closed: [closePosition] fails for every
    caller. *)
Theorem excessive_fee_rate_blocks_closePosition :
  (forall env s factory oracle collector baseToken protocolFeeRate priceExpireTime,
      ownable_owner s = msgSender env ->
      exists s',
        updateConfig env factory oracle collector baseToken protocolFeeRate
                     priceExpireTime s [] = Success () s' []
        /\ _protocolFeeRate s' = protocolFeeRate
        /\ sameLedger s s')
  /\ (forall env s positionIndex,
        let position := readPosition s positionIndex in
        in_range (collateralAmount position) -> 0 <= _protocolFeeRate s ->
        unit <= collateralAmount position * (_protocolFeeRate s - unit) ->
        reverts (closePosition env positionIndex s [])).
Proof.
  split.
  - intros env s f o c b r t Hown. unfold updateConfig, onlyOwner.
    exists (set_config f o c b r t s). split; [| split; [reflexivity |]].
    + unfold bind, getState, require. apply Z.eqb_eq in Hown. rewrite Hown. reflexivity.
    + frame.
  - cbv zeta. intros env s i Hc Hf Hbig. unfold closePosition.
    repeat (apply bind_reverts; intros ? ? ? H; inv_success H).
    all: try match goal with H : multiplyDecimal _ _ = Ok _ |- _ =>
      apply multiplyDecimal_Ok in H as [-> _]; [| destruct Hc; lia | assumption] end.
    all: try match goal with H : SafeMath.sub _ _ = Ok _ |- _ =>
      apply sub_Ok in H as [Hfee _];
        [| assumption
         | apply Z.div_pos; [apply Z.mul_nonneg_nonneg; destruct Hc; lia | apply unit_pos]]
      end.
    all: exfalso.
    all: assert (Hlow : collateralAmount (readPosition s i) + 1
                 <= collateralAmount (readPosition s i) * _protocolFeeRate s / unit)
      by (apply Z.div_le_lower_bound; [apply unit_pos | lia]).
    all: lia.
Qed.

Lemma excessive_fee_rate_blocks_closePosition_witness :
  let admin := Example.env Example.deployer (10 * unit) Example.allTrue in
  let s := exec (updateConfig admin Example.factory Example.oracle Example.collector
                              Example.busd (2 * unit) 60)
                (Example.bobOpened (15 * 10 ^ 15)) in
  _protocolFeeRate s = 2 * unit
  /\ reverts (closePosition (Example.env Example.alice (10 * unit) Example.allTrue) 1 s []).
Proof.
  intros admin s.
  pose proof excessive_fee_rate_blocks_closePosition as (Hset & Hblock).
  split.
  - vm_compute. reflexivity.
  - refine (Hblock (Example.env Example.alice (10 * unit) Example.allTrue) s 1 _ _ _).
    + vm_compute. split; intros [=].
    + vm_compute. intros [=].
    + vm_compute. intros [=].
Defined.

(** ** Registering and updating assets *)

Lemma arrayContains_elem_of (arr : list Z) x : arrayContains arr x = true <-> x ∈ arr.
Proof.
  induction arr as [| y rest IH]; simpl.
  - split; [discriminate | intros H; inversion H].
  - rewrite elem_of_cons. destruct (Z.eqb_spec y x) as [-> | Hne].
    + split; auto.
    + rewrite IH. split; [auto | intros [? | ?]; congruence].
Qed.

(** The storage after [saveAssetConfig]. *)
Lemma saveAssetConfig_run assetToken_ assetConfig s c :
  saveAssetConfig assetToken_ assetConfig s c
  = Success ()
      (set_assetConfigMap (<[assetToken_ := assetConfig]> (assetConfigMap s))
         (if arrayContains (assetTokenArray s) assetToken_ then s
          else set_assetTokenArray (assetTokenArray s ++ [assetToken_]) s)) c.
Proof.
  unfold saveAssetConfig, bind, getState, modify, ret.
  destruct (arrayContains (assetTokenArray s) assetToken_); reflexivity.
Qed.

Lemma _saveAsset_run assetToken_ discount ratio s c :
  assetToken_ <> 0 -> discount <= unit -> unit <= ratio ->
  _saveAsset assetToken_ discount ratio s c
  = Success ()
      (set_assetConfigMap
         (<[assetToken_ := mkAssetConfig assetToken_ discount ratio
                             (endPrice (readAssetConfig s assetToken_))]>
            (assetConfigMap s))
         (if arrayContains (assetTokenArray s) assetToken_ then s
          else set_assetTokenArray (assetTokenArray s ++ [assetToken_]) s)) c.
Proof.
  intros Ha Hd Hr. unfold _saveAsset, assertAuctionDiscount, assertMinCollateralRatio.
  apply Z.eqb_neq in Ha. apply Z.leb_le in Hd. apply Z.geb_le in Hr.
  rewrite bind_require_true by (rewrite Ha; reflexivity).
  rewrite bind_require_true by exact Hd.
  rewrite bind_require_true by exact Hr.
  rewrite bind_getState. cbv zeta. apply saveAssetConfig_run.
Qed.

Lemma _saveAsset_reverts assetToken_ discount ratio s c :
  assetToken_ = 0 \/ unit < discount \/ ratio < unit ->
  reverts (_saveAsset assetToken_ discount ratio s c).
Proof.
  intros Hbad. unfold _saveAsset.
  repeat (apply bind_reverts; intros ? ? ? H; inv_success H).
  boolprops. assert (unit <= ratio) by lia. exfalso. lia.
Qed.

Lemma readAssetConfig_saved a cfg m s b :
  readAssetConfig (set_assetConfigMap (<[a := cfg]> m) s) b
  = if decide (a = b) then cfg else default zeroAssetConfig (m !! b).
Proof.
  unfold readAssetConfig. simpl. rewrite lookup_insert.
  destruct (decide (a = b)); reflexivity.
Qed.

(** X10. For a caller that is the factory or the owner, [registerAsset]
    succeeds exactly when the asset address is not zero, no configuration
    with a nonzero token is stored for it, the discount is at most one unit
    and the minimum ratio at least one unit.  It then stores the token, the
    discount and the ratio, keeps the end price that was stored before,
    lists the asset and leaves every other asset's configuration as it
    was. *)
Theorem registerAsset_registers :
  forall env s assetToken_ discount ratio,
    authorized env s ->
    let accepted :=
      assetToken_ <> 0 /\ token (readAssetConfig s assetToken_) = 0
      /\ discount <= unit /\ unit <= ratio in
    (accepted ->
     exists s',
       registerAsset env assetToken_ discount ratio s [] = Success () s' []
       /\ readAssetConfig s' assetToken_
          = mkAssetConfig assetToken_ discount ratio
                          (endPrice (readAssetConfig s assetToken_))
       /\ (forall b, b <> assetToken_ -> readAssetConfig s' b = readAssetConfig s b)
       /\ assetToken_ ∈ assetTokenArray s')
    /\ (~ accepted -> reverts (registerAsset env assetToken_ discount ratio s [])).
Proof.
  intros env s a d r Hauth accepted. subst accepted. split.
  - intros (Ha & Htok & Hd & Hr). unfold registerAsset.
    rewrite (bind_run _ _ _ _ _ _ _ (onlyFactoryOrOwner_run env s [] Hauth)).
    rewrite bind_getState.
    rewrite bind_require_true by (apply Z.eqb_eq; exact Htok).
    rewrite (_saveAsset_run a d r s [] Ha Hd Hr).
    eexists. split; [reflexivity |]. split; [| split].
    + rewrite readAssetConfig_saved. destruct (decide (a = a)); congruence.
    + intros b Hb. rewrite readAssetConfig_saved.
      destruct (decide (a = b)); [congruence |].
      reflexivity.
    + destruct (arrayContains (assetTokenArray s) a) eqn:E; simpl.
      * apply arrayContains_elem_of. exact E.
      * apply elem_of_app. right. apply elem_of_cons. left. reflexivity.
  - intros Hnot. unfold registerAsset.
    apply bind_reverts; intros ? ? ? H; inv_success H.
    apply bind_reverts; intros ? ? ? H; inv_success H.
    apply bind_reverts; intros ? ? ? H; inv_success H. boolprops.
    apply _saveAsset_reverts.
    destruct (Z.eq_dec a 0) as [? | Ha]; [left; assumption | right].
    destruct (Z_lt_le_dec unit d) as [? | Hd]; [left; assumption | right].
    destruct (Z_lt_le_dec r unit) as [? | Hr]; [assumption |].
    exfalso. apply Hnot. auto.
Qed.

Lemma registerAsset_registers_witness :
  let s := Example.bobOpened (15 * 10 ^ 15) in
  let admin := Example.env Example.deployer (10 * unit) Example.allTrue in
  (exists s',
      registerAsset admin Example.wbnb (2 * 10 ^ 17) (2 * unit) s [] = Success () s' []
      /\ readAssetConfig s' Example.wbnb
         = mkAssetConfig Example.wbnb (2 * 10 ^ 17) (2 * unit)
                         (endPrice (readAssetConfig s Example.wbnb))
      /\ (forall b, b <> Example.wbnb -> readAssetConfig s' b = readAssetConfig s b)
      /\ Example.wbnb ∈ assetTokenArray s')
  /\ reverts (registerAsset admin Example.wbnb (2 * unit) (2 * unit) s []).
Proof.
  intros s admin.
  assert (Hauth : authorized admin s) by (right; vm_compute; reflexivity).
  split.
  - refine (proj1 (registerAsset_registers admin s Example.wbnb (2 * 10 ^ 17) (2 * unit)
                     Hauth) _).
    vm_compute. repeat split; intros [=].
  - refine (proj2 (registerAsset_registers admin s Example.wbnb (2 * unit) (2 * unit)
                     Hauth) _).
    intros (_ & _ & Hd & _). vm_compute in Hd. apply Hd. reflexivity.
Defined.

(** X11. [updateAsset] registers or updates: for the factory or the owner it
    succeeds exactly when the asset address is not zero, the discount is at
    most one unit and the ratio at least one unit, whatever is stored.  It
    overwrites discount and ratio and keeps the stored end price, so an
    update cannot take an asset out of migration: [openPosition] for the
    asset still fails afterwards.  It can however raise the minimum ratio
    that the migration had set to one unit. *)
Theorem updateAsset_keeps_endPrice :
  forall env s assetToken_ discount ratio,
    authorized env s ->
    let accepted := assetToken_ <> 0 /\ discount <= unit /\ unit <= ratio in
    (accepted ->
     exists s',
       updateAsset env assetToken_ discount ratio s [] = Success () s' []
       /\ readAssetConfig s' assetToken_
          = mkAssetConfig assetToken_ discount ratio
                          (endPrice (readAssetConfig s assetToken_))
       /\ (forall b, b <> assetToken_ -> readAssetConfig s' b = readAssetConfig s b)
       /\ (endPrice (readAssetConfig s assetToken_) <> 0 ->
           forall env' collateralToken_ amount collateralRatio,
             reverts (openPosition env' collateralToken_ amount assetToken_
                                   collateralRatio s' [])))
    /\ (~ accepted -> reverts (updateAsset env assetToken_ discount ratio s [])).
Proof.
  intros env s a d r Hauth accepted. subst accepted. split.
  - intros (Ha & Hd & Hr). unfold updateAsset.
    rewrite (bind_run _ _ _ _ _ _ _ (onlyFactoryOrOwner_run env s [] Hauth)).
    rewrite (_saveAsset_run a d r s [] Ha Hd Hr).
    eexists. split; [reflexivity |].
    assert (Hcfg : forall st,
               readAssetConfig (set_assetConfigMap
                 (<[a := mkAssetConfig a d r (endPrice (readAssetConfig s a))]>
                    (assetConfigMap s)) st) a
               = mkAssetConfig a d r (endPrice (readAssetConfig s a))).
    { intros st. rewrite readAssetConfig_saved. destruct (decide (a = a)); congruence. }
    split; [apply Hcfg |]. split.
    + intros b Hb. rewrite readAssetConfig_saved.
      destruct (decide (a = b)); [congruence |].
      unfold readAssetConfig. reflexivity.
    + intros Hend env' c amt cr. apply openPosition_deprecated.
      rewrite Hcfg. exact Hend.
  - intros Hnot. unfold updateAsset.
    apply bind_reverts; intros ? ? ? H; inv_success H.
    apply _saveAsset_reverts.
    destruct (Z.eq_dec a 0) as [? | Ha]; [left; assumption | right].
    destruct (Z_lt_le_dec unit d) as [? | Hd]; [left; assumption | right].
    destruct (Z_lt_le_dec r unit) as [? | Hr]; [assumption |].
    exfalso. apply Hnot. auto.
Qed.

Lemma updateAsset_keeps_endPrice_witness :
  let admin := Example.env Example.deployer (10 * unit) Example.allTrue in
  let s := exec (registerMigration admin Example.kApple (125 * 10 ^ 17))
                (Example.bobOpened (15 * 10 ^ 15)) in
  exists s',
    updateAsset admin Example.kApple (5 * 10 ^ 17) (15 * 10 ^ 17) s [] = Success () s' []
    /\ readAssetConfig s' Example.kApple
       = mkAssetConfig Example.kApple (5 * 10 ^ 17) (15 * 10 ^ 17) (125 * 10 ^ 17).
Proof.
  intros admin s.
  assert (Hauth : authorized admin s) by (right; vm_compute; reflexivity).
  destruct (proj1 (updateAsset_keeps_endPrice admin s Example.kApple (5 * 10 ^ 17)
                     (15 * 10 ^ 17) Hauth))
    as (s' & Hrun & Hcfg & _).
  - vm_compute. repeat split; intros [=].
  - exists s'. split; [exact Hrun |]. rewrite Hcfg. vm_compute. reflexivity.
Defined.

(** ** The list of registered assets *)

Lemma registryInvariant_saved a cfg s :
  a <> 0 -> registryInvariant s ->
  registryInvariant
    (set_assetConfigMap (<[a := cfg]> (assetConfigMap s))
       (if arrayContains (assetTokenArray s) a then s
        else set_assetTokenArray (assetTokenArray s ++ [a]) s)).
Proof.
  intros Ha (Hnd & Hz & Hkeys). unfold registryInvariant.
  destruct (arrayContains (assetTokenArray s) a) eqn:E; simpl.
  - split; [exact Hnd |]. split; [exact Hz |].
    intros b Hb. destruct (decide (a = b)) as [<- | Hne].
    + apply arrayContains_elem_of. exact E.
    + rewrite lookup_insert_ne in Hb by exact Hne. apply Hkeys. exact Hb.
  - assert (Hnot : a ∉ assetTokenArray s).
    { intros Hin. apply arrayContains_elem_of in Hin. congruence. }
    split; [| split].
    + apply NoDup_app. split; [exact Hnd |]. split.
      * intros x Hx Hx'. apply list_elem_of_singleton in Hx'. subst x. contradiction.
      * apply NoDup_singleton.
    + rewrite elem_of_app, list_elem_of_singleton. intros [? | ?]; [contradiction | congruence].
    + intros b Hb. rewrite elem_of_app, list_elem_of_singleton.
      destruct (decide (a = b)) as [<- | Hne]; [right; reflexivity | left].
      rewrite lookup_insert_ne in Hb by exact Hne. apply Hkeys. exact Hb.
Qed.

(** X12. The list of registered assets stays consistent: it is empty and
    consistent when nothing is registered, and [registerAsset],
    [updateAsset] and [registerMigration] keep it without duplicates, free
    of the zero address, and listing every asset that has a stored
    configuration. *)
Theorem registry_stays_consistent :
  (forall s, assetTokenArray s = [] -> assetConfigMap s = ∅ -> registryInvariant s)
  /\ (forall env s s' calls,
        registryInvariant s ->
        (exists assetToken_ discount ratio,
            updateAsset env assetToken_ discount ratio s [] = Success () s' calls)
        \/ (exists assetToken_ discount ratio,
              registerAsset env assetToken_ discount ratio s [] = Success () s' calls)
        \/ (exists assetToken_ endPrice_,
              registerMigration env assetToken_ endPrice_ s [] = Success () s' calls) ->
        registryInvariant s').
Proof.
  split.
  - intros s Harr Hmap. unfold registryInvariant. rewrite Harr, Hmap.
    split; [apply NoDup_nil_2 |]. split; [apply not_elem_of_nil |].
    intros a [x Hx]. rewrite lookup_empty in Hx. discriminate.
  - intros env s s' calls Hinv [(a & d & r & H) | [(a & d & r & H) | (a & e & H)]].
    + unfold updateAsset, _saveAsset in H. inv_success H. boolprops.
      match goal with H : saveAssetConfig _ _ _ _ = Success _ _ _ |- _ =>
        rewrite saveAssetConfig_run in H; apply Success_inj in H as (_ & <- & _) end.
      apply registryInvariant_saved; assumption.
    + unfold registerAsset, _saveAsset in H. inv_success H. boolprops.
      match goal with H : saveAssetConfig _ _ _ _ = Success _ _ _ |- _ =>
        rewrite saveAssetConfig_run in H; apply Success_inj in H as (_ & <- & _) end.
      apply registryInvariant_saved; assumption.
    + unfold registerMigration in H. inv_success H. boolprops.
      match goal with H : saveAssetConfig _ _ _ _ = Success _ _ _ |- _ =>
        rewrite saveAssetConfig_run in H; apply Success_inj in H as (_ & <- & _) end.
      apply registryInvariant_saved; assumption.
Qed.

Lemma registry_stays_consistent_witness :
  registryInvariant (Example.deployed (15 * 10 ^ 15)).
Proof.
  pose proof registry_stays_consistent as (Hbase & Hstep).
  refine (Hstep (Example.env Example.deployer (10 * unit) Example.allTrue)
                (exec (initialize (Example.env Example.deployer (10 * unit) Example.allTrue)
                                  Example.factory Example.oracle Example.collector
                                  Example.busd (15 * 10 ^ 15) 60) Example.blank)
                _ [] _ _).
  - apply Hbase; vm_compute; reflexivity.
  - right. left. exists Example.kApple, (5 * 10 ^ 17), (15 * 10 ^ 17).
    vm_compute. reflexivity.
Defined.

(** ** Who may administer *)

(** X13. A caller that is neither the factory nor the owner cannot register,
    update or migrate an asset: each call fails with the error of an
    unauthorized caller and changes nothing.  Only the owner can call
    [setFactory] and [updateConfig].  [setFactory] rejects the zero
    address; otherwise it replaces the factory, which from then on passes
    the authorization. *)
Theorem administration_is_restricted :
  (forall env s,
      ~ authorized env s ->
      (forall a d r,
          registerAsset env a d r s []
          = Reverted "Unauthorized, only factory/owner can perform" s []
          /\ updateAsset env a d r s []
             = Reverted "Unauthorized, only factory/owner can perform" s [])
      /\ (forall a e,
            registerMigration env a e s []
            = Reverted "Unauthorized, only factory/owner can perform" s []))
  /\ (forall env s,
        ownable_owner s <> msgSender env ->
        (forall f, reverts (setFactory env f s []))
        /\ (forall f o c b r t, reverts (updateConfig env f o c b r t s [])))
  /\ (forall env s,
        ownable_owner s = msgSender env ->
        reverts (setFactory env 0 s [])
        /\ (forall f, f <> 0 ->
              setFactory env f s [] = Success () (set_factory f s) []
              /\ forall env', msgSender env' = f -> authorized env' (set_factory f s))).
Proof.
  split; [| split].
  - intros env s Hno.
    assert (Hfalse : (_factory s =? msgSender env) || (ownable_owner s =? msgSender env)
                     = false).
    { apply orb_false_iff. split; apply Z.eqb_neq; intros Heq; apply Hno;
        [left | right]; exact Heq. }
    assert (Hgate : forall c, onlyFactoryOrOwner env s c
                    = Reverted "Unauthorized, only factory/owner can perform" s c).
    { intros c. unfold onlyFactoryOrOwner. rewrite bind_getState.
      unfold require. rewrite Hfalse. reflexivity. }
    split; [intros a d r; split | intros a e].
    + unfold registerAsset, bind at 1. rewrite Hgate. reflexivity.
    + unfold updateAsset, bind at 1. rewrite Hgate. reflexivity.
    + unfold registerMigration, bind at 1. rewrite Hgate. reflexivity.
  - intros env s Hno. apply Z.eqb_neq in Hno.
    assert (Hgate : forall c, reverts (onlyOwner env s c)).
    { intros c. unfold onlyOwner. rewrite bind_getState.
      unfold require. rewrite Hno. exact I. }
    split; [intros f | intros f o c b r t].
    + unfold setFactory. apply bind_reverts. intros ? ? ? H.
      pose proof (Hgate []) as Hg. rewrite H in Hg. destruct Hg.
    + unfold updateConfig. apply bind_reverts. intros ? ? ? H.
      pose proof (Hgate []) as Hg. rewrite H in Hg. destruct Hg.
  - intros env s Hown. apply Z.eqb_eq in Hown.
    assert (Hgate : forall c, onlyOwner env s c = Success () s c).
    { intros c. unfold onlyOwner. rewrite bind_getState.
      unfold require. rewrite Hown. reflexivity. }
    split.
    + unfold setFactory. rewrite (bind_run _ _ _ _ _ _ _ (Hgate [])). exact I.
    + intros f Hf. split.
      * unfold setFactory. rewrite (bind_run _ _ _ _ _ _ _ (Hgate [])).
        apply Z.eqb_neq in Hf.
        rewrite bind_require_true by (rewrite Hf; reflexivity). reflexivity.
      * intros env' Hsender. left. simpl. congruence.
Qed.

Lemma administration_is_restricted_witness :
  let s := Example.bobOpened (15 * 10 ^ 15) in
  registerMigration (Example.env Example.alice (10 * unit) Example.allTrue)
                    Example.kApple (125 * 10 ^ 17) s []
  = Reverted "Unauthorized, only factory/owner can perform" s []
  /\ reverts (setFactory (Example.env Example.alice (10 * unit) Example.allTrue)
                         Example.alice s [])
  /\ setFactory (Example.env Example.deployer (10 * unit) Example.allTrue) Example.alice s []
     = Success () (set_factory Example.alice s) [].
Proof.
  intros s.
  pose proof administration_is_restricted as (Hadmin & Howner & Hset).
  split; [| split].
  - refine (proj2 (Hadmin (Example.env Example.alice (10 * unit) Example.allTrue) s _)
                  Example.kApple (125 * 10 ^ 17)).
    intros [H | H]; vm_compute in H; discriminate H.
  - refine (proj1 (Howner (Example.env Example.alice (10 * unit) Example.allTrue) s _)
                  Example.alice).
    vm_compute. intros [=].
  - refine (proj1 (proj2 (Hset (Example.env Example.deployer (10 * unit) Example.allTrue)
                               s _) Example.alice _)).
    + vm_compute. reflexivity.
    + vm_compute. intros [=].
Defined.

(** ** Positions that are not there, callers that are not the owner *)

Lemma readPosition_absent s i : idxPositionMap s !! i = None -> readPosition s i = zeroPosition.
Proof. unfold readPosition. intros ->. reflexivity. Qed.

Lemma divideDecimal_by_zero x : exists m, divideDecimal x 0 = Err m.
Proof.
  unfold divideDecimal. destruct (SafeMath.mul x unit); [| eauto].
  unfold SafeMath.div. simpl. eauto.
Qed.

Lemma isValidPostion_zero s assetPrice :
  isValidPostion s zeroPosition assetPrice = Err "SafeMath: division by zero".
Proof. reflexivity. Qed.

Lemma divideDecimal_divisor x y v : divideDecimal x y = Ok v -> 0 < y.
Proof.
  unfold divideDecimal. destruct (SafeMath.mul x unit); [| discriminate].
  intros H. apply div_Ok in H as [H _]. exact H.
Qed.

(** X14. No operation acts on an index at which no position is stored:
    [deposit], [withdraw], [mint], [closePosition] and [auction] all fail
    there, for every caller and every argument. *)
Theorem operations_fail_on_absent_position :
  forall env s positionIndex,
    idxPositionMap s !! positionIndex = None ->
    (forall tok amount,
        reverts (deposit env positionIndex tok amount s [])
        /\ reverts (withdraw env positionIndex tok amount s [])
        /\ reverts (mint env positionIndex tok amount s []))
    /\ reverts (closePosition env positionIndex s [])
    /\ (forall amount, reverts (auction env positionIndex amount s [])).
Proof.
  intros env s i Hnone. apply readPosition_absent in Hnone.
  split; [intros tok amt; split; [| split] | split; [| intros amt]].
  - unfold deposit.
    do 5 (apply bind_reverts; intros ? ? ? H; inv_success H).
    rewrite Hnone in *. boolprops. simpl in *. congruence.
  - unfold withdraw.
    do 4 (apply bind_reverts; intros ? ? ? H; inv_success H).
    rewrite Hnone in *. boolprops. simpl in *. congruence.
  - unfold mint.
    do 4 (apply bind_reverts; intros ? ? ? H; inv_success H).
    rewrite Hnone in *. boolprops. simpl in *. congruence.
  - unfold closePosition.
    do 2 (apply bind_reverts; intros ? ? ? H; inv_success H).
    rewrite Hnone in *. boolprops. simpl in *. lia.
  - unfold auction. rewrite bind_getState. cbv zeta. rewrite Hnone.
    rewrite isValidPostion_zero. exact I.
Qed.

Lemma operations_fail_on_absent_position_witness :
  reverts (closePosition (Example.env Example.alice (10 * unit) Example.allTrue) 7
                         (Example.bobOpened (15 * 10 ^ 15)) []).
Proof.
  refine (proj1 (proj2 (operations_fail_on_absent_position
                          (Example.env Example.alice (10 * unit) Example.allTrue)
                          (Example.bobOpened (15 * 10 ^ 15)) 7 _))).
  vm_compute. reflexivity.
Defined.

(** X15. Only the owner adjusts or closes a position: [deposit], [withdraw],
    [mint] and [closePosition] fail for every caller that is not the stored
    owner, whatever the other arguments. *)
Theorem only_the_owner_adjusts :
  forall env s positionIndex,
    owner (readPosition s positionIndex) <> msgSender env ->
    (forall tok amount,
        reverts (deposit env positionIndex tok amount s [])
        /\ reverts (withdraw env positionIndex tok amount s [])
        /\ reverts (mint env positionIndex tok amount s []))
    /\ reverts (closePosition env positionIndex s []).
Proof.
  intros env s i Hno.
  split; [intros tok amt; split; [| split] |].
  - unfold deposit.
    do 4 (apply bind_reverts; intros ? ? ? H; inv_success H).
    boolprops. congruence.
  - unfold withdraw.
    do 3 (apply bind_reverts; intros ? ? ? H; inv_success H).
    boolprops. congruence.
  - unfold mint.
    do 3 (apply bind_reverts; intros ? ? ? H; inv_success H).
    boolprops. congruence.
  - unfold closePosition.
    do 3 (apply bind_reverts; intros ? ? ? H; inv_success H).
    boolprops. congruence.
Qed.

Lemma only_the_owner_adjusts_witness :
  reverts (closePosition (Example.env Example.bob (10 * unit) Example.allTrue) 1
                         (Example.bobOpened (15 * 10 ^ 15)) []).
Proof.
  refine (proj2 (only_the_owner_adjusts
                   (Example.env Example.bob (10 * unit) Example.allTrue)
                   (Example.bobOpened (15 * 10 ^ 15)) 1 _)).
  vm_compute. intros [=].
Defined.

(** ** Positions that cannot be auctioned *)

(** X16. [auction] fails whenever the debt valued at the oracle price
    truncates to zero, in particular when the oracle has no price for the
    asset; and it fails for every position of an asset whose auction
    discount is one unit, a discount that [registerAsset] and [updateAsset]
    accept: the discounted price then divides by zero. *)
Theorem auction_cannot_run :
  forall env s positionIndex requested,
    let position := readPosition s positionIndex in
    let assetPrice := fst (oracleQueryPrice env (_oracle s) (assetToken position)) in
    0 <= assetAmount position -> 0 <= assetPrice ->
    assetAmount position * assetPrice < unit
    \/ auctionDiscount (readAssetConfig s (assetToken position)) = unit ->
    reverts (auction env positionIndex requested s []).
Proof.
  cbv zeta. intros env s i req Hd Hp Hcase. unfold auction.
  rewrite bind_getState. cbv zeta.
  apply bind_reverts; intros valid ? ? H; inv_success H.
  match goal with H : isValidPostion _ _ _ = Ok _ |- _ =>
    unfold isValidPostion in H; apply rbind_Ok in H as (v & Hv & H);
    apply rbind_Ok in H as (q & Hq & _) end.
  apply multiplyDecimal_Ok in Hv as [-> _]; [| assumption | assumption].
  apply divideDecimal_divisor in Hq as Hpos.
  destruct Hcase as [Hsmall | Hdisc].
  - exfalso. rewrite Z.div_small in Hpos by lia. lia.
  - apply bind_reverts; intros ? ? ? H; inv_success H.
    apply bind_reverts; intros dp ? ? H; inv_success H.
    match goal with H : rbind _ _ = Ok dp |- _ =>
      apply rbind_Ok in H as (d & Hsub & Hdiv) end.
    rewrite Hdisc in Hsub. unfold SafeMath.sub in Hsub.
    rewrite Z.leb_refl, Z.sub_diag in Hsub. injection Hsub as <-.
    destruct (divideDecimal_by_zero
                (fst (oracleQueryPrice env (_oracle s)
                        (assetToken (readPosition s i))))) as [m Hm].
    change (wrap 0) with 0 in Hdiv. congruence.
Qed.

Lemma auction_cannot_run_witness :
  let admin := Example.env Example.deployer (10 * unit) Example.allTrue in
  let s := exec (updateAsset admin Example.kApple unit (15 * 10 ^ 17))
                (Example.bobOpened (15 * 10 ^ 15)) in
  auctionDiscount (readAssetConfig s Example.kApple) = unit
  /\ reverts (auction (Example.env Example.bob (12 * unit) Example.allTrue) 1
                      (10 * unit) s []).
Proof.
  intros admin s. split; [vm_compute; reflexivity |].
  refine (auction_cannot_run (Example.env Example.bob (12 * unit) Example.allTrue) s 1
                             (10 * unit) _ _ _).
  - vm_compute. intros [=].
  - vm_compute. intros [=].
  - right. vm_compute. reflexivity.
Defined.

(** ** The ledger stays consistent *)

Lemma removeLoop_absent x len n : forall (i : nat) (arr : list Z),
  x <> 0 ->
  (forall j, (i <= j)%nat -> arr !! j <> Some x) ->
  removeLoop x len n i arr = arr.
Proof.
  induction n as [| n IH]; intros i arr Hx Hno; [reflexivity |].
  cbn [removeLoop].
  destruct (Z.eqb_spec (arrayGet arr i) x) as [Hhit | _].
  - exfalso. unfold arrayGet in Hhit. destruct (arr !! i) eqn:E; simpl in Hhit.
    + apply (Hno i); [lia | congruence].
    + congruence.
  - apply IH; [exact Hx | intros j Hj; apply Hno; lia].
Qed.

Lemma arrayGet_Some (arr : list Z) (i : nat) :
  (i < length arr)%nat -> arr !! i = Some (arrayGet arr i).
Proof.
  intros H. apply lookup_lt_is_Some_2 in H as [v Hv].
  rewrite (arrayGet_lookup _ _ _ Hv). exact Hv.
Qed.

(** With no nonzero duplicate in the array, the loop of [removePosition]
    moves the last entry into the slot of the removed index and zeroes the
    last slot. *)
Lemma removeLoop_present x n : forall (i k : nat) (arr : list Z),
  distinctNonzero arr -> x <> 0 -> arr !! k = Some x ->
  (i <= k < i + n)%nat ->
  removeLoop x (length arr) n i arr
  = <[(length arr - 1)%nat := 0]> (<[k := arrayGet arr (length arr - 1)]> arr).
Proof.
  induction n as [| n IH]; intros i k arr Hd Hx Hk Hik; [lia |].
  pose proof (lookup_lt_Some _ _ _ Hk) as Hlt.
  cbn [removeLoop].
  destruct (Z.eqb_spec (arrayGet arr i) x) as [Hhit | Hmiss].
  - assert (i = k) as ->.
    { apply (Hd i k x Hx); [| exact Hk].
      rewrite <- Hhit. apply arrayGet_Some. lia. }
    assert (Heq : (if negb (k =? length arr - 1)%nat
                   then <[k := arrayGet arr (length arr - 1)]> arr else arr)
                  = <[k := arrayGet arr (length arr - 1)]> arr).
    { destruct (Nat.eqb_spec k (length arr - 1)) as [E | _]; simpl; [| reflexivity].
      symmetry. apply list_insert_id. rewrite <- E. apply arrayGet_Some. lia. }
    rewrite Heq. apply removeLoop_absent; [exact Hx |].
    intros j Hj Hl.
    apply list_lookup_insert_Some in Hl as [(_ & H0 & _) | (_ & Hl)]; [congruence |].
    apply list_lookup_insert_Some in Hl as [(Hkj & _) | (_ & Hl)]; [lia |].
    pose proof (Hd j k x Hx Hl Hk). lia.
  - apply IH; [exact Hd | exact Hx | exact Hk |].
    destruct (Nat.eq_dec i k) as [-> | Hne]; [| lia].
    exfalso. apply Hmiss. apply arrayGet_lookup. exact Hk.
Qed.

(** What [removePosition] leaves in the array: the nonzero entries other
    than the removed index, still without a duplicate. *)
Lemma removeLoop_result x (arr : list Z) :
  distinctNonzero arr -> x <> 0 ->
  let arr' := removeLoop x (length arr) (length arr) 0 arr in
  distinctNonzero arr'
  /\ forall v, v <> 0 -> (v ∈ arr' <-> v ∈ arr /\ v <> x).
Proof.
  intros Hd Hx arr'. subst arr'.
  destruct (decide (x ∈ arr)) as [Hin | Hout].
  - apply list_elem_of_lookup_1 in Hin as [k Hk].
    pose proof (lookup_lt_Some _ _ _ Hk) as Hlt.
    rewrite (removeLoop_present x _ 0 k) by (assumption || lia).
    set (l := (length arr - 1)%nat).
    assert (Hl : arr !! l = Some (arrayGet arr l)) by (apply arrayGet_Some; lia).
    assert (Hlook : forall j v, v <> 0 ->
               (<[l := 0]> (<[k := arrayGet arr l]> arr) !! j = Some v
                <-> j <> l /\ ((j = k /\ v = arrayGet arr l)
                               \/ (j <> k /\ arr !! j = Some v)))).
    { intros j v Hv. rewrite list_lookup_insert_Some, list_lookup_insert_Some.
      split.
      - intros [(_ & H0 & _) | (Hne & [(-> & <- & _) | (Hne' & H)])];
          [congruence | |]; split; auto.
      - intros (Hne & [(-> & ->) | (Hne' & H)]); right; split; auto. }
    split.
    + intros j1 j2 v Hv H1 H2.
      apply Hlook in H1 as (N1 & H1); [| exact Hv].
      apply Hlook in H2 as (N2 & H2); [| exact Hv].
      destruct H1 as [(-> & ->) | (K1 & H1)], H2 as [(-> & E2) | (K2 & H2)].
      * reflexivity.
      * exfalso. apply N2. apply (Hd j2 l _ Hv H2 Hl).
      * exfalso. apply N1. subst v. apply (Hd j1 l _ Hv H1 Hl).
      * apply (Hd j1 j2 v Hv H1 H2).
    + intros v Hv. rewrite !list_elem_of_lookup. split.
      * intros [j Hj]. apply Hlook in Hj as (N & Hj); [| exact Hv].
        destruct Hj as [(-> & ->) | (K & Hj)].
        -- split; [exists l; exact Hl |].
           intros E. apply N. rewrite E in Hl. apply (Hd k l x Hx Hk Hl).
        -- split; [exists j; exact Hj |].
           intros ->. apply K. apply (Hd j k x Hx Hj Hk).
      * intros [[j Hj] Hne].
        assert (j <> k) by (intros ->; congruence).
        destruct (Nat.eq_dec j l) as [-> | Hjl].
        -- exists k. apply Hlook; [exact Hv |]. split; [congruence |].
           left. split; [reflexivity |]. rewrite Hl in Hj. congruence.
        -- exists j. apply Hlook; [exact Hv |]. split; [exact Hjl |].
           right. split; assumption.
  - rewrite removeLoop_absent.
    + split; [exact Hd |]. intros v _. split; [| tauto].
      intros Hv. split; [exact Hv | intros ->; contradiction].
    + exact Hx.
    + intros j _ Hj. apply Hout. apply list_elem_of_lookup_2 in Hj. exact Hj.
Qed.

Lemma ledgerInvariant_ext s s' :
  idxPositionMap s' = idxPositionMap s ->
  postionIdxArray s' = postionIdxArray s ->
  currentpositionIndex s' = currentpositionIndex s ->
  ledgerInvariant s -> ledgerInvariant s'.
Proof. unfold ledgerInvariant. intros -> -> ->. auto. Qed.

Lemma stored_of_nonzero s i :
  readPosition s i <> zeroPosition -> is_Some (idxPositionMap s !! i).
Proof.
  unfold readPosition. destruct (idxPositionMap s !! i); [eauto |].
  intros H. contradiction H. reflexivity.
Qed.

Lemma ledgerInvariant_stored i p s :
  ledgerInvariant s -> is_Some (idxPositionMap s !! i) -> idx p = i ->
  ledgerInvariant (set_idxPositionMap (<[i := p]> (idxPositionMap s)) s).
Proof.
  intros (Hc & Hm & Ha & Hd) [q Hq] Hp. unfold ledgerInvariant. simpl.
  split; [exact Hc |]. split; [| split; [| exact Hd]].
  - intros j r. rewrite lookup_insert. destruct (decide (i = j)) as [<- | _].
    + intros [= <-]. split; [exact Hp |]. apply (Hm i q Hq).
    + apply Hm.
  - intros j Hj. rewrite (Ha j Hj), lookup_insert.
    destruct (decide (i = j)) as [<- | _]; [| reflexivity].
    split; eauto.
Qed.

Lemma ledgerInvariant_savePosition i p s :
  ledgerInvariant s -> is_Some (idxPositionMap s !! i) -> idx p = i ->
  ledgerInvariant (savePosition_state i p s).
Proof.
  intros Hinv Hi Hp. unfold savePosition_state.
  assert (Hin : arrayContains (postionIdxArray s) i = true).
  { destruct Hinv as (_ & Hm & Ha & _), Hi as [q Hq].
    apply arrayContains_elem_of, Ha; [| eauto].
    destruct (Hm i q Hq). lia. }
  rewrite Hin. apply ledgerInvariant_stored; assumption.
Qed.

Lemma ledgerInvariant_removePosition i s :
  ledgerInvariant s -> i <> 0 -> ledgerInvariant (removePosition_state i s).
Proof.
  intros (Hc & Hm & Ha & Hd) Hi. unfold ledgerInvariant, removePosition_state. simpl.
  destruct (removeLoop_result i (postionIdxArray s) Hd Hi) as [Hd' Hin].
  split; [exact Hc |]. split; [| split; [| exact Hd']].
  - intros j r. rewrite lookup_delete. destruct (decide (i = j)); [discriminate |].
    apply Hm.
  - intros j Hj. rewrite (Hin j Hj), (Ha j Hj), lookup_delete.
    destruct (decide (i = j)) as [<- | Hne].
    + split; [intros [_ H]; contradiction | intros [? [=]]].
    + split; [tauto | intros H; split; [exact H | congruence]].
Qed.

Lemma ledgerInvariant_opened p s :
  ledgerInvariant s -> currentpositionIndex s < MAX_UINT ->
  idx p = currentpositionIndex s ->
  ledgerInvariant
    (set_currentpositionIndex (wrap (currentpositionIndex s + 1))
       (savePosition_state (currentpositionIndex s) p s)).
Proof.
  intros (Hc & Hm & Ha & Hd) Hmax Hp.
  assert (Hw : wrap (currentpositionIndex s + 1) = currentpositionIndex s + 1).
  { unfold wrap. apply Z.mod_small. unfold MAX_UINT in Hmax. lia. }
  rewrite Hw.
  assert (Hfresh : idxPositionMap s !! currentpositionIndex s = None).
  { destruct (idxPositionMap s !! currentpositionIndex s) eqn:E; [| reflexivity].
    destruct (Hm _ _ E). lia. }
  assert (Hout : arrayContains (postionIdxArray s) (currentpositionIndex s) = false).
  { destruct (arrayContains _ _) eqn:E; [| reflexivity].
    apply arrayContains_elem_of, Ha in E as [q Hq]; [congruence | lia]. }
  unfold savePosition_state. rewrite Hout.
  unfold ledgerInvariant. simpl. split; [lia |]. split; [| split].
  - intros j r. rewrite lookup_insert.
    destruct (decide (currentpositionIndex s = j)) as [<- | _].
    + intros [= <-]. split; [exact Hp | lia].
    + intros H. destruct (Hm j r H). split; [assumption | lia].
  - intros j Hj. rewrite elem_of_app, (Ha j Hj), list_elem_of_singleton, lookup_insert.
    destruct (decide (currentpositionIndex s = j)) as [<- | Hne].
    + split; eauto.
    + split; [intros [H | H]; [exact H | congruence] | auto].
  - intros j1 j2 v Hv H1 H2.
    assert (Hnot : currentpositionIndex s ∉ postionIdxArray s).
    { intros H. apply arrayContains_elem_of in H. congruence. }
    apply lookup_app_Some in H1, H2.
    destruct H1 as [H1 | [L1 H1]], H2 as [H2 | [L2 H2]].
    + apply (Hd j1 j2 v Hv H1 H2).
    + exfalso. apply list_lookup_singleton_Some in H2 as [_ <-].
      apply Hnot. apply list_elem_of_lookup_2 in H1. exact H1.
    + exfalso. apply list_lookup_singleton_Some in H1 as [_ <-].
      apply Hnot. apply list_elem_of_lookup_2 in H2. exact H2.
    + apply list_lookup_singleton_Some in H1 as [E1 _].
      apply list_lookup_singleton_Some in H2 as [E2 _]. lia.
Qed.

Lemma stored_index s i :
  ledgerInvariant s -> is_Some (idxPositionMap s !! i) ->
  idx (readPosition s i) = i /\ i <> 0.
Proof.
  intros (_ & Hm & _) [q Hq]. unfold readPosition. rewrite Hq. simpl.
  destruct (Hm i q Hq). split; [assumption | lia].
Qed.

Lemma currentpositionIndex_savePosition_state i p s :
  currentpositionIndex (savePosition_state i p s) = currentpositionIndex s.
Proof. unfold savePosition_state. destruct (arrayContains _ _); reflexivity. Qed.

Lemma ledgerInvariant_empty s :
  idxPositionMap s = ∅ -> postionIdxArray s = [] -> 0 < currentpositionIndex s ->
  ledgerInvariant s.
Proof.
  intros Hm Ha Hc. unfold ledgerInvariant. rewrite Hm, Ha.
  split; [exact Hc |]. split; [| split].
  - intros i p H. rewrite lookup_empty in H. discriminate.
  - intros i _. rewrite lookup_empty. split.
    + intros H. apply not_elem_of_nil in H. contradiction.
    + intros [? [=]].
  - intros j1 j2 v _ H. rewrite lookup_nil in H. discriminate.
Qed.

(** X17. The ledger of positions stays consistent.  Say that the ledger is
    consistent when the counter is positive, every stored position carries
    its own index, positive and below the counter, and the nonzero entries
    of the array of indices are exactly the indices of the stored
    positions, each once.  [initialize] makes a storage without positions
    consistent; [setFactory], [updateConfig], [updateAsset],
    [registerAsset] and [registerMigration] keep it consistent; and so do
    [openPosition], [deposit], [withdraw], [mint], [closePosition] and
    [auction], as long as the counter has not reached the largest value. *)
Theorem ledger_stays_consistent :
  (forall env factory oracle collector baseToken protocolFeeRate priceExpireTime
          s s' calls,
      idxPositionMap s = ∅ -> postionIdxArray s = [] ->
      initialize env factory oracle collector baseToken protocolFeeRate priceExpireTime
                 s [] = Success () s' calls ->
      ledgerInvariant s')
  /\ (forall env a s s' calls,
         ledgerInvariant s ->
         administer env a s [] = Success () s' calls ->
         ledgerInvariant s')
  /\ (forall env op s s' calls,
         ledgerInvariant s ->
         currentpositionIndex s < MAX_UINT ->
         perform env op s [] = Success () s' calls ->
         ledgerInvariant s').
Proof.
  split; [| split].
  { intros env f o c b r t s s' calls Hm Ha H. unfold initialize, initializer, _updateConfig in H.
    inv_success H. apply ledgerInvariant_empty; simpl; [exact Hm | exact Ha | lia]. }
  { intros env a s s' calls Hinv H.
    destruct a; cbn [administer] in H;
      [ unfold setFactory in H
      | unfold updateConfig, _updateConfig in H
      | unfold updateAsset, _saveAsset, saveAssetConfig in H
      | unfold registerAsset, _saveAsset, saveAssetConfig in H
      | unfold registerMigration, saveAssetConfig in H ];
      inv_success H;
      try match goal with H : (if _ then _ else _) _ _ = Success _ _ _ |- _ =>
            split_if H; inv_success H end;
      (eapply ledgerInvariant_ext; [| | | exact Hinv]; reflexivity). }
  intros env op s s' calls Hinv Hmax H. destruct op; cbn [perform] in H.
  - unfold openPosition in H. inv_success H.
    match goal with |- context [savePosition_state _ ?p s] =>
      eapply ledgerInvariant_ext;
        [| | | apply (ledgerInvariant_opened p s Hinv Hmax eq_refl)] end;
      rewrite ?currentpositionIndex_savePosition_state; reflexivity.
  - unfold deposit in H. inv_success H.
    assert (Hi : is_Some (idxPositionMap s !! positionIndex)).
    { apply stored_of_nonzero. intros E. rewrite E in *. boolprops. simpl in *.
      congruence. }
    apply ledgerInvariant_savePosition; [exact Hinv | exact Hi |].
    apply (stored_index s positionIndex Hinv Hi).
  - unfold withdraw in H. inv_success H.
    assert (Hi : is_Some (idxPositionMap s !! positionIndex)).
    { apply stored_of_nonzero. intros E. rewrite E in *. boolprops. simpl in *.
      congruence. }
    destruct (stored_index s positionIndex Hinv Hi) as [Hidx Hne].
    match goal with H : (if _ then _ else _) _ _ = Success _ _ _ |- _ =>
      split_if H; inv_success H end.
    + apply ledgerInvariant_removePosition; assumption.
    + apply ledgerInvariant_savePosition; assumption.
  - unfold mint in H. inv_success H.
    assert (Hi : is_Some (idxPositionMap s !! positionIndex)).
    { apply stored_of_nonzero. intros E. rewrite E in *. boolprops. simpl in *.
      congruence. }
    apply ledgerInvariant_savePosition; [exact Hinv | exact Hi |].
    apply (stored_index s positionIndex Hinv Hi).
  - unfold closePosition in H. inv_success H.
    assert (Hi : is_Some (idxPositionMap s !! positionIndex)).
    { apply stored_of_nonzero. intros E. rewrite E in *. boolprops. simpl in *.
      lia. }
    destruct (stored_index s positionIndex Hinv Hi) as [Hidx Hne].
    eapply ledgerInvariant_ext;
      [| | | apply (ledgerInvariant_removePosition positionIndex s Hinv Hne)];
      reflexivity.
  - unfold auction in H. inv_success H.
    assert (Hi : is_Some (idxPositionMap s !! positionIndex)).
    { apply stored_of_nonzero. intros E. rewrite E in *.
      match goal with H : isValidPostion _ _ _ = Ok _ |- _ =>
        rewrite isValidPostion_zero in H; discriminate end. }
    destruct (stored_index s positionIndex Hinv Hi) as [Hidx Hne].
    match goal with H : (if _ then _ else _) _ _ = Success _ _ _ |- _ =>
      split_if H; [| split_if H]; inv_success H end.
    + apply ledgerInvariant_removePosition; assumption.
    + apply ledgerInvariant_removePosition; assumption.
    + apply ledgerInvariant_stored; assumption.
Qed.

(** The ledger of the example after Alice, and then Bob, opened their
    positions. *)
Lemma aliceOpened_ledger : ledgerInvariant (Example.aliceOpened (15 * 10 ^ 15)).
Proof.
  assert (H0 : ledgerInvariant (Example.deployed (15 * 10 ^ 15))).
  { apply ledgerInvariant_empty; vm_compute; reflexivity. }
  eapply ledgerInvariant_ext;
    [| | | apply (ledgerInvariant_opened
                    (mkPosition 1 Example.alice Example.busd (1500 * unit)
                                Example.kApple (100 * unit))
                    (Example.deployed (15 * 10 ^ 15)) H0)];
    vm_compute; reflexivity.
Qed.

Lemma bobOpened_ledger : ledgerInvariant (Example.bobOpened (15 * 10 ^ 15)).
Proof.
  eapply ledgerInvariant_ext;
    [| | | apply (ledgerInvariant_opened
                    (mkPosition 2 Example.bob Example.busd (3000 * unit)
                                Example.kApple (150 * unit))
                    (Example.aliceOpened (15 * 10 ^ 15)) aliceOpened_ledger)];
    vm_compute; reflexivity.
Qed.

Lemma ledger_stays_consistent_witness :
  ledgerInvariant
    (exec (closePosition (Example.env Example.alice (10 * unit) Example.allTrue) 1)
          (Example.bobOpened (15 * 10 ^ 15))).
Proof.
  refine (proj2 (proj2 ledger_stays_consistent)
                (Example.env Example.alice (10 * unit) Example.allTrue)
                (ClosePosition 1) (Example.bobOpened (15 * 10 ^ 15)) _
                (callsOf (closePosition
                            (Example.env Example.alice (10 * unit) Example.allTrue) 1)
                         (Example.bobOpened (15 * 10 ^ 15)))
                bobOpened_ledger _ _).
  - vm_compute. reflexivity.
  - vm_compute. reflexivity.
Defined.

(** ** What the enumeration lists *)

Lemma NoDup_filter_map {A B : Type} (f : B -> bool) (g : A -> B) (l : list A) :
  (forall (j1 j2 : nat) x1 x2,
      l !! j1 = Some x1 -> l !! j2 = Some x2 ->
      f (g x1) = true -> g x1 = g x2 -> j1 = j2) ->
  NoDup (List.filter f (map g l)).
Proof.
  induction l as [| a l IH]; intros Hinj; [apply NoDup_nil_2 |].
  assert (Htail : NoDup (List.filter f (map g l))).
  { apply IH. intros j1 j2 x1 x2 H1 H2 Hf Hg.
    pose proof (Hinj (S j1) (S j2) x1 x2 H1 H2 Hf Hg). lia. }
  cbn [map List.filter]. destruct (f (g a)) eqn:Hfa; [| exact Htail].
  apply NoDup_cons. split; [| exact Htail].
  intros Hin. apply list_elem_of_In, filter_In in Hin as [Hin _].
  apply in_map_iff in Hin as (x & Hx & Hin).
  apply list_elem_of_In, list_elem_of_lookup_1 in Hin as [j Hj].
  pose proof (Hinj 0%nat (S j) a x eq_refl Hj Hfa (eq_sym Hx)). lia.
Qed.

Lemma queryAllPositions_visited s owner_ :
  owner_ <> 0 ->
  queryAllPositions s owner_
  = Ok (arraysOf (visited s (fun position => owner position =? owner_))
          (List.length (postionIdxArray s)
           - List.length (visited s (fun position => owner position =? owner_)))).
Proof.
  intros Ho. unfold queryAllPositions. apply Z.eqb_neq in Ho. rewrite Ho.
  cbn [negb rrequire rbind].
  change (newArrays (List.length (postionIdxArray s)))
    with (arraysOf [] (List.length (postionIdxArray s))).
  change 0%nat with (List.length (@nil Position)) at 1.
  rewrite (scanPositions_rows s (fun position => owner position =? owner_)) by lia.
  reflexivity.
Qed.

(** X18. On a consistent ledger [queryAllPositions] lists exactly the
    stored positions of the owner, each once: the rows it returns before
    the rows of zeros have no duplicate, and a position is among them
    exactly when it is stored at its own index and belongs to the owner.
    The slots that removals left behind contribute no row. *)
Theorem queryAllPositions_lists_each_position_once :
  forall s owner_,
    ledgerInvariant s -> owner_ <> 0 ->
    let rows := visited s (fun position => owner position =? owner_) in
    queryAllPositions s owner_
    = Ok (arraysOf rows (List.length (postionIdxArray s) - List.length rows))
    /\ NoDup rows
    /\ forall position,
         position ∈ rows
         <-> idxPositionMap s !! idx position = Some position
             /\ owner position = owner_.
Proof.
  intros s o Hinv Ho rows. subst rows.
  split; [apply queryAllPositions_visited; exact Ho |].
  assert (Hstored : forall i, owner (readPosition s i) = o ->
             idxPositionMap s !! i = Some (readPosition s i)
             /\ idx (readPosition s i) = i /\ i <> 0).
  { intros i Hi.
    assert (Hs : is_Some (idxPositionMap s !! i)).
    { apply stored_of_nonzero. intros E. rewrite E in Hi. simpl in Hi. congruence. }
    destruct (stored_index s i Hinv Hs) as [Hidx Hne].
    split; [| split; assumption].
    unfold readPosition. destruct Hs as [q ->]. reflexivity. }
  destruct Hinv as (Hc & Hm & Ha & Hd).
  split.
  - unfold visited. apply NoDup_filter_map.
    intros j1 j2 x1 x2 H1 H2 Hf Hg. apply Z.eqb_eq in Hf.
    destruct (Hstored x1 Hf) as (_ & I1 & N1).
    rewrite Hg in Hf. destruct (Hstored x2 Hf) as (_ & I2 & _).
    assert (x1 = x2) as <- by congruence.
    apply (Hd j1 j2 x1 N1 H1 H2).
  - intros p. unfold visited.
    rewrite list_elem_of_In, filter_In, in_map_iff, Z.eqb_eq. split.
    + intros [(i & <- & _) Hown]. split; [| exact Hown].
      destruct (Hstored i Hown) as (S1 & I1 & _). rewrite I1. exact S1.
    + intros [Hp Hown]. split; [| exact Hown].
      destruct (Hm _ _ Hp) as [_ Hpos].
      exists (idx p). split.
      * unfold readPosition. rewrite Hp. reflexivity.
      * apply list_elem_of_In, Ha; [lia | eauto].
Qed.

Lemma queryAllPositions_lists_each_position_once_witness :
  let s := Example.bobOpened (15 * 10 ^ 15) in
  let rows := visited s (fun position => owner position =? Example.alice) in
  queryAllPositions s Example.alice
  = Ok (arraysOf rows (List.length (postionIdxArray s) - List.length rows))
  /\ NoDup rows
  /\ forall position,
       position ∈ rows
       <-> idxPositionMap s !! idx position = Some position
           /\ owner position = Example.alice.
Proof.
  refine (queryAllPositions_lists_each_position_once
            (Example.bobOpened (15 * 10 ^ 15)) Example.alice bobOpened_ledger _).
  vm_compute. intros [=].
Defined.

(** ** Opening on a consistent ledger *)

(** X19. On a consistent ledger [openPosition] never overwrites: the index
    it returns held no position and was not listed, the array of indices
    grows by exactly this index, the counter moves one past it, every other
    position reads as before, and the owner's index for the caller and the
    pair of tokens now gives the new index while every other entry of the
    owner's index is unchanged. *)
Theorem openPosition_takes_fresh_index :
  forall env s collateralToken_ collateralAmount_ assetToken_ collateralRatio
         index s' calls,
    ledgerInvariant s ->
    currentpositionIndex s < MAX_UINT ->
    openPosition env collateralToken_ collateralAmount_ assetToken_ collateralRatio s []
    = Success index s' calls ->
    idxPositionMap s !! index = None
    /\ (index ∉ postionIdxArray s)
    /\ postionIdxArray s' = postionIdxArray s ++ [index]
    /\ currentpositionIndex s' = index + 1
    /\ (forall j, j <> index -> readPosition s' j = readPosition s j)
    /\ queryPositionIndex s' (msgSender env) collateralToken_ assetToken_ = index
    /\ (forall o c a,
          (o, c, a) <> (msgSender env, collateralToken_, assetToken_) ->
          queryPositionIndex s' o c a = queryPositionIndex s o c a).
Proof.
  intros env s c amt t r index s' calls (Hc & Hm & Ha & Hd) Hmax H.
  unfold openPosition in H. inv_success H. cbn [idx].
  assert (Hfresh : idxPositionMap s !! currentpositionIndex s = None).
  { destruct (idxPositionMap s !! currentpositionIndex s) eqn:E; [| reflexivity].
    destruct (Hm _ _ E). lia. }
  assert (Hout : arrayContains (postionIdxArray s) (currentpositionIndex s) = false).
  { destruct (arrayContains _ _) eqn:E; [| reflexivity].
    apply arrayContains_elem_of, Ha in E as [q Hq]; [congruence | lia]. }
  split; [exact Hfresh |]. split.
  { intros Hin. apply arrayContains_elem_of in Hin. congruence. }
  unfold queryPositionIndex, readOwnerPositionIndex, readPosition, savePosition_state.
  rewrite Hout. simpl.
  split; [reflexivity |]. split.
  { unfold wrap. apply Z.mod_small. unfold MAX_UINT in Hmax. lia. }
  split.
  { intros j Hj. rewrite lookup_insert_ne by congruence. reflexivity. }
  split.
  { rewrite lookup_insert_eq. reflexivity. }
  intros o c' a' Hne. rewrite lookup_insert_ne by congruence. reflexivity.
Qed.

Lemma openPosition_takes_fresh_index_witness :
  let s := Example.aliceOpened (15 * 10 ^ 15) in
  let s' := Example.bobOpened (15 * 10 ^ 15) in
  idxPositionMap s !! 2 = None
  /\ (2 ∉ postionIdxArray s)
  /\ postionIdxArray s' = postionIdxArray s ++ [2]
  /\ currentpositionIndex s' = 2 + 1
  /\ (forall j, j <> 2 -> readPosition s' j = readPosition s j)
  /\ queryPositionIndex s' Example.bob Example.busd Example.kApple = 2
  /\ (forall o c a,
        (o, c, a) <> (Example.bob, Example.busd, Example.kApple) ->
        queryPositionIndex s' o c a = queryPositionIndex s o c a).
Proof.
  refine (openPosition_takes_fresh_index
            (Example.env Example.bob (10 * unit) Example.allTrue)
            (Example.aliceOpened (15 * 10 ^ 15))
            Example.busd (3000 * unit) Example.kApple (2 * unit) 2
            (Example.bobOpened (15 * 10 ^ 15))
            [CallTransferFrom Example.busd Example.bob Example.mintContract (3000 * unit);
             CallMint Example.kApple Example.bob (150 * unit)]
            aliceOpened_ledger _ _).
  - vm_compute. reflexivity.
  - vm_compute. reflexivity.
Defined.

(** ** A price expiry time beyond the block time *)

Lemma queryPrice_expiry_beyond_now env s target denominate :
  blockTimestamp env < _priceExpireTime s ->
  exists m, queryPrice env s target denominate = Err m.
Proof.
  intros Hlate. unfold queryPrice.
  destruct (readPrice env s target) as [tp tt].
  destruct (readPrice env s denominate) as [dp dt].
  destruct (tp >? 0); [| simpl; eauto].
  destruct (dp >? 0); [| simpl; eauto].
  cbn [rrequire rbind].
  destruct (divideDecimal tp dp); [| simpl; eauto].
  cbn [rbind]. unfold SafeMath.sub.
  destruct (Z.leb_spec (_priceExpireTime s) (blockTimestamp env)); [lia |].
  simpl. eauto.
Qed.

Ltac blocked_price Hlate :=
  repeat (apply bind_reverts; intros ? ? ? ?H;
          match goal with H : _ = Success _ _ _ |- _ => inv_success H end;
          try match goal with H : queryPrice ?env ?s ?a ?b = Ok _ |- _ =>
                destruct (queryPrice_expiry_beyond_now env s a b Hlate); congruence
              end).

(** X20. [updateConfig] does not bound the price expiry time: the owner
    can set any.  One that lies beyond the block time disables the relative
    price: the subtraction [block.timestamp - priceExpireTime] fails, so
    every price query fails and with it every [openPosition], [withdraw]
    and [mint], whatever the oracle says. *)
Theorem expiry_beyond_now_blocks_pricing :
  (forall env s factory oracle collector baseToken protocolFeeRate priceExpireTime,
      ownable_owner s = msgSender env ->
      exists s',
        updateConfig env factory oracle collector baseToken protocolFeeRate
                     priceExpireTime s [] = Success () s' []
        /\ _priceExpireTime s' = priceExpireTime)
  /\ (forall env s,
        blockTimestamp env < _priceExpireTime s ->
        (forall target denominate,
            exists m, queryPrice env s target denominate = Err m)
        /\ (forall collateralToken_ collateralAmount_ assetToken_ collateralRatio,
              reverts (openPosition env collateralToken_ collateralAmount_ assetToken_
                                    collateralRatio s []))
        /\ (forall positionIndex tok amount,
              reverts (withdraw env positionIndex tok amount s [])
              /\ reverts (mint env positionIndex tok amount s []))).
Proof.
  split.
  { intros env s f o c b r t Hown. unfold updateConfig, onlyOwner.
    exists (set_config f o c b r t s). split; [| reflexivity].
    unfold bind, getState, require. apply Z.eqb_eq in Hown. rewrite Hown. reflexivity. }
  intros env s Hlate.
  split; [intros; apply queryPrice_expiry_beyond_now; exact Hlate |].
  split; [intros c amt t r | intros i tok amt; split].
  - unfold openPosition. blocked_price Hlate.
  - unfold withdraw. blocked_price Hlate.
  - unfold mint. blocked_price Hlate.
Qed.

Lemma expiry_beyond_now_blocks_pricing_witness :
  let admin := Example.env Example.deployer (10 * unit) Example.allTrue in
  let s := exec (updateConfig admin Example.factory Example.oracle Example.collector
                              Example.busd (15 * 10 ^ 15) 2000)
                (Example.bobOpened (15 * 10 ^ 15)) in
  _priceExpireTime s = 2000
  /\ reverts (mint (Example.env Example.alice (10 * unit) Example.allTrue) 1
                   Example.kApple unit s []).
Proof.
  intros admin s.
  pose proof expiry_beyond_now_blocks_pricing as (_ & Hblock).
  split; [vm_compute; reflexivity |].
  refine (proj2 (proj2 (proj2 (Hblock (Example.env Example.alice (10 * unit)
                                                   Example.allTrue) s _))
                       1 Example.kApple unit)).
  vm_compute. reflexivity.
Defined.

(** ** Stored positions stay sound *)

Lemma wrap_succ c : c < MAX_UINT -> c < wrap (c + 1).
Proof.
  intros Hmax. destruct (Z_le_gt_dec 0 (c + 1)) as [Hpos | Hneg].
  - rewrite wrap_small by lia. lia.
  - pose proof (wrap_range (c + 1)) as [Hr _]. lia.
Qed.

Lemma positionsInvariant_shrink s s' :
  (forall i p, idxPositionMap s' !! i = Some p -> idxPositionMap s !! i = Some p) ->
  (forall k i, ownerPositionIndex s' !! k = Some i -> ownerPositionIndex s !! k = Some i) ->
  currentpositionIndex s' = currentpositionIndex s ->
  positionsInvariant s -> positionsInvariant s'.
Proof.
  intros Hm Hx Hc [Hp Ho]. split.
  - intros i p H. apply (Hp i p), Hm, H.
  - intros o c a i H. rewrite Hc. apply Hx in H. destruct (Ho o c a i H) as [Hlt Hat].
    split; [exact Hlt |]. intros p Hpi. apply Hat, Hm, Hpi.
Qed.

Lemma positionsInvariant_empty s :
  idxPositionMap s = ∅ -> ownerPositionIndex s = ∅ -> positionsInvariant s.
Proof.
  intros Hm Hx. split.
  - intros i p H. rewrite Hm, lookup_empty in H. discriminate.
  - intros o c a i H. rewrite Hx, lookup_empty in H. discriminate.
Qed.

Lemma positionsInvariant_stored i p q s :
  positionsInvariant s -> idxPositionMap s !! i = Some q ->
  owner p = owner q -> collateralToken p = collateralToken q ->
  assetToken p = assetToken q -> 0 < assetAmount p ->
  positionsInvariant (set_idxPositionMap (<[i := p]> (idxPositionMap s)) s).
Proof.
  intros [Hp Ho] Hq E1 E2 E3 Hpos. split; simpl.
  - intros j r. rewrite lookup_insert. destruct (decide (i = j)) as [<- | _].
    + intros [= <-]. destruct (Hp i q Hq) as (_ & T1 & T2).
      rewrite E2, E3. auto.
    + apply Hp.
  - intros o c a j H. destruct (Ho o c a j H) as [Hlt Hat].
    split; [exact Hlt |]. intros r. rewrite lookup_insert.
    destruct (decide (i = j)) as [<- | _]; [| apply Hat].
    intros [= <-]. rewrite E1, E2, E3. apply Hat, Hq.
Qed.

Lemma positionsInvariant_savePosition i p q s :
  positionsInvariant s -> idxPositionMap s !! i = Some q ->
  owner p = owner q -> collateralToken p = collateralToken q ->
  assetToken p = assetToken q -> 0 < assetAmount p ->
  positionsInvariant (savePosition_state i p s).
Proof.
  intros Hinv Hq E1 E2 E3 Hpos.
  pose proof (positionsInvariant_stored i p q s Hinv Hq E1 E2 E3 Hpos) as H.
  unfold savePosition_state. destruct (arrayContains _ _); [exact H |].
  destruct H as [Hp Ho]. split; [exact Hp | exact Ho].
Qed.

Lemma positionsInvariant_removePosition i s :
  positionsInvariant s -> positionsInvariant (removePosition_state i s).
Proof.
  apply positionsInvariant_shrink; simpl; [| auto | reflexivity].
  intros j p. rewrite lookup_delete. destruct (decide (i = j)); [discriminate | auto].
Qed.

Lemma positionsInvariant_opened p s :
  positionsInvariant s -> currentpositionIndex s < MAX_UINT ->
  0 < assetAmount p -> assetToken p <> 0 -> collateralToken p <> 0 ->
  positionsInvariant
    (set_ownerPositionIndex
       (<[(owner p, collateralToken p, assetToken p) := currentpositionIndex s]>
          (ownerPositionIndex s))
       (set_currentpositionIndex (wrap (currentpositionIndex s + 1))
          (savePosition_state (currentpositionIndex s) p s))).
Proof.
  intros [Hp Ho] Hmax Hpos Ha Hc. pose proof (wrap_succ _ Hmax) as Hw.
  unfold savePosition_state. destruct (arrayContains _ _); split; simpl.
  1, 3: intros j r; rewrite lookup_insert;
    destruct (decide (currentpositionIndex s = j)) as [<- | _];
    [intros [= <-]; auto | apply Hp].
  all: intros o c a j; rewrite lookup_insert;
    destruct (decide ((owner p, collateralToken p, assetToken p) = (o, c, a)))
      as [[= <- <- <-] | _];
    [ intros [= <-]; split; [exact Hw |]; intros r; rewrite lookup_insert_eq;
      intros [= <-]; auto
    | intros H; destruct (Ho o c a j H) as [Hlt Hat]; split; [lia |];
      intros r; rewrite lookup_insert_ne by lia; apply Hat ].
Qed.

Lemma stored_position s i :
  readPosition s i <> zeroPosition ->
  idxPositionMap s !! i = Some (readPosition s i).
Proof.
  unfold readPosition. destruct (idxPositionMap s !! i); [reflexivity |].
  intros H. contradiction H. reflexivity.
Qed.

Lemma add_lower a b c : SafeMath.add a b = Ok c -> a <= c.
Proof.
  unfold SafeMath.add. destruct (Z.geb_spec (wrap (a + b)) a); [| discriminate].
  intros [= <-]. lia.
Qed.

Lemma sub_nonneg a b c : SafeMath.sub a b = Ok c -> 0 <= c.
Proof.
  unfold SafeMath.sub. destruct (b <=? a); [| discriminate].
  intros [= <-]. apply wrap_range.
Qed.

Lemma positionsInvariant_ext s s' :
  idxPositionMap s' = idxPositionMap s ->
  ownerPositionIndex s' = ownerPositionIndex s ->
  currentpositionIndex s' = currentpositionIndex s ->
  positionsInvariant s -> positionsInvariant s'.
Proof.
  intros Hm Hx Hc. apply positionsInvariant_shrink; [| | exact Hc].
  - rewrite Hm. auto.
  - rewrite Hx. auto.
Qed.

(** X21. The stored positions stay sound.  Say that they are sound when
    each carries a positive debt in a nonzero asset token against a nonzero
    collateral token, and every entry of the owner's index is below the
    counter and, where a position is stored at it, that position belongs to
    this owner and has this pair of tokens.  [initialize] makes a storage
    without positions sound, the calls of the owner and the factory keep it
    sound, and so do [openPosition], [deposit], [withdraw], [mint],
    [closePosition] and [auction], as long as the counter has not reached
    the largest value.  As every stored position carries debt, the branch
    of [withdraw] that removes an emptied position is never taken: the
    position is still stored after every successful [withdraw]. *)
Theorem positions_stay_sound :
  (forall env factory oracle collector baseToken protocolFeeRate priceExpireTime
          s s' calls,
      idxPositionMap s = ∅ -> ownerPositionIndex s = ∅ ->
      initialize env factory oracle collector baseToken protocolFeeRate priceExpireTime
                 s [] = Success () s' calls ->
      positionsInvariant s')
  /\ (forall env a s s' calls,
         positionsInvariant s ->
         administer env a s [] = Success () s' calls ->
         positionsInvariant s')
  /\ (forall env op s s' calls,
         positionsInvariant s ->
         currentpositionIndex s < MAX_UINT ->
         perform env op s [] = Success () s' calls ->
         positionsInvariant s')
  /\ (forall env s positionIndex collateralToken_ amount s' calls,
         positionsInvariant s ->
         withdraw env positionIndex collateralToken_ amount s [] = Success () s' calls ->
         is_Some (idxPositionMap s' !! positionIndex)).
Proof.
  split; [| split; [| split]].
  { intros env f o c b r t s s' calls Hm Hx H. unfold initialize, initializer, _updateConfig in H.
    inv_success H. apply positionsInvariant_empty; simpl; assumption. }
  { intros env a s s' calls Hinv H.
    destruct a; cbn [administer] in H;
      [ unfold setFactory in H
      | unfold updateConfig, _updateConfig in H
      | unfold updateAsset, _saveAsset, saveAssetConfig in H
      | unfold registerAsset, _saveAsset, saveAssetConfig in H
      | unfold registerMigration, saveAssetConfig in H ];
      inv_success H;
      try match goal with H : (if _ then _ else _) _ _ = Success _ _ _ |- _ =>
            split_if H; inv_success H end;
      (eapply positionsInvariant_shrink; [| | | exact Hinv]; simpl; auto). }
  { intros env op s s' calls Hinv Hmax H. destruct op; cbn [perform] in H.
    - unfold openPosition in H. inv_success H. boolprops.
      match goal with |- context [savePosition_state _ ?p s] =>
        pose proof (positionsInvariant_opened p s Hinv Hmax) as Hopen end.
      unfold savePosition_state in *.
      destruct (arrayContains _ _); simpl in *; (apply Hopen; assumption).
    - unfold deposit in H. inv_success H. boolprops.
      assert (Hq : idxPositionMap s !! positionIndex
                   = Some (readPosition s positionIndex)).
      { apply stored_position. intros E. rewrite E in *. simpl in *. congruence. }
      destruct (proj1 Hinv _ _ Hq) as (Hdebt & _).
      apply (positionsInvariant_savePosition _ _ _ _ Hinv Hq); auto.
    - unfold withdraw in H. inv_success H. boolprops.
      assert (Hq : idxPositionMap s !! positionIndex
                   = Some (readPosition s positionIndex)).
      { apply stored_position. intros E. rewrite E in *. simpl in *. congruence. }
      destruct (proj1 Hinv _ _ Hq) as (Hdebt & _).
      match goal with H : (if _ then _ else _) _ _ = Success _ _ _ |- _ =>
        split_if H; inv_success H end.
      + apply positionsInvariant_removePosition; exact Hinv.
      + apply (positionsInvariant_savePosition _ _ _ _ Hinv Hq); auto.
    - unfold mint in H. inv_success H. boolprops.
      assert (Hq : idxPositionMap s !! positionIndex
                   = Some (readPosition s positionIndex)).
      { apply stored_position. intros E. rewrite E in *. simpl in *. congruence. }
      destruct (proj1 Hinv _ _ Hq) as (Hdebt & _).
      apply (positionsInvariant_savePosition _ _ _ _ Hinv Hq); auto.
      simpl. match goal with H : SafeMath.add (assetAmount _) _ = Ok _ |- _ =>
        apply add_lower in H end. lia.
    - unfold closePosition in H. inv_success H.
      eapply positionsInvariant_shrink;
        [| | | apply (positionsInvariant_removePosition positionIndex s Hinv)];
        simpl; auto.
      intros k i. rewrite lookup_delete. destruct (decide (_ = k)); [discriminate | auto].
    - unfold auction in H. inv_success H.
      assert (Hq : idxPositionMap s !! positionIndex
                   = Some (readPosition s positionIndex)).
      { apply stored_position. intros E. rewrite E in *.
        match goal with H : isValidPostion _ _ _ = Ok _ |- _ =>
          rewrite isValidPostion_zero in H; discriminate end. }
      match goal with H : (if _ then _ else _) _ _ = Success _ _ _ |- _ =>
        split_if H; [| split_if H]; inv_success H end.
      + apply positionsInvariant_removePosition; exact Hinv.
      + apply positionsInvariant_removePosition; exact Hinv.
      + apply (positionsInvariant_stored _ _ _ _ Hinv Hq); auto.
        simpl in *.
        match goal with H : SafeMath.sub _ _ = Ok ?v, N : (?v =? 0) = false |- _ =>
          apply sub_nonneg in H; apply Z.eqb_neq in N end. lia. }
  intros env s i tok amt s' calls Hinv H.
  unfold withdraw in H. inv_success H. boolprops.
  assert (Hq : idxPositionMap s !! i = Some (readPosition s i)).
  { apply stored_position. intros E. rewrite E in *. simpl in *. congruence. }
  destruct (proj1 Hinv _ _ Hq) as (Hdebt & _).
  match goal with H : (if _ then _ else _) _ _ = Success _ _ _ |- _ =>
    split_if H; inv_success H end.
  - boolprops. simpl in *. lia.
  - unfold savePosition_state. simpl. rewrite lookup_insert_eq. eauto.
Qed.

(** The positions of the example after Alice and Bob opened theirs. *)
Lemma bobOpened_sound : positionsInvariant (Example.bobOpened (15 * 10 ^ 15)).
Proof.
  assert (H0 : positionsInvariant (Example.deployed (15 * 10 ^ 15))).
  { apply positionsInvariant_empty; vm_compute; reflexivity. }
  assert (H1 : positionsInvariant (Example.aliceOpened (15 * 10 ^ 15))).
  { eapply positionsInvariant_ext;
      [| | | apply (positionsInvariant_opened
                      (mkPosition 1 Example.alice Example.busd (1500 * unit)
                                  Example.kApple (100 * unit))
                      (Example.deployed (15 * 10 ^ 15)) H0)];
      vm_compute; try reflexivity; intros [=]. }
  eapply positionsInvariant_ext;
    [| | | apply (positionsInvariant_opened
                    (mkPosition 2 Example.bob Example.busd (3000 * unit)
                                Example.kApple (150 * unit))
                    (Example.aliceOpened (15 * 10 ^ 15)) H1)];
    vm_compute; try reflexivity; intros [=].
Qed.

Lemma positions_stay_sound_witness :
  let env := Example.env Example.bob (10 * unit) Example.allTrue in
  let s := Example.bobOpened (15 * 10 ^ 15) in
  positionsInvariant (exec (withdraw env 2 Example.busd (500 * unit)) s)
  /\ is_Some (idxPositionMap (exec (withdraw env 2 Example.busd (500 * unit)) s) !! 2).
Proof.
  intros env s.
  pose proof positions_stay_sound as (_ & _ & Hstep & Hkept).
  split.
  - refine (Hstep env (Withdraw 2 Example.busd (500 * unit)) s _
                  (callsOf (withdraw env 2 Example.busd (500 * unit)) s)
                  bobOpened_sound _ _).
    + vm_compute. reflexivity.
    + vm_compute. reflexivity.
  - refine (Hkept env s 2 Example.busd (500 * unit) _
                  (callsOf (withdraw env 2 Example.busd (500 * unit)) s)
                  bobOpened_sound _).
    vm_compute. reflexivity.
Defined.

(** ** The protocol fee *)

(** X22. [calculateProtocolFee] is the truncated product of the amount and
    the fee rate: it gives [amount * protocolFeeRate / unit] when the
    product fits a word and fails with the multiplication overflow
    otherwise.  With a fee rate of at most one unit, the bound that
    [initialize] checks, the fee never exceeds the amount, so that the
    payout [amount - fee] can always be computed. *)
Theorem protocol_fee_within_amount :
  forall s amount,
    in_range amount -> 0 <= _protocolFeeRate s ->
    (amount * _protocolFeeRate s <= MAX_UINT ->
     calculateProtocolFee s amount = Ok (amount * _protocolFeeRate s / unit))
    /\ (MAX_UINT < amount * _protocolFeeRate s ->
        calculateProtocolFee s amount = Err "SafeMath: multiplication overflow")
    /\ (_protocolFeeRate s <= unit ->
        forall fee,
          calculateProtocolFee s amount = Ok fee ->
          0 <= fee <= amount /\ SafeMath.sub amount fee = Ok (amount - fee)).
Proof.
  intros s x [Hx0 Hx1] Hr. unfold calculateProtocolFee. split; [| split].
  - intros Hfit. unfold multiplyDecimal. rewrite mul_intro by assumption. reflexivity.
  - intros Hbig. unfold multiplyDecimal.
    destruct (SafeMath.mul x (_protocolFeeRate s)) as [p | m] eqn:E.
    + apply mul_Ok in E as [_ Hfit]; [lia | assumption | assumption].
    + apply mul_Err in E as ->. reflexivity.
  - intros Hle fee H. apply multiplyDecimal_Ok in H as [-> _]; [| assumption | assumption].
    pose proof unit_pos as Hu.
    assert (Hfee : 0 <= x * _protocolFeeRate s / unit <= x).
    { split; [apply Z.div_pos; [apply Z.mul_nonneg_nonneg; assumption | exact Hu] |].
      apply Z.div_le_upper_bound; [exact Hu |]. nia. }
    split; [exact Hfee |].
    unfold SafeMath.sub. destruct (Z.leb_spec (x * _protocolFeeRate s / unit) x); [| lia].
    rewrite wrap_small by lia. reflexivity.
Qed.

Lemma protocol_fee_within_amount_witness :
  calculateProtocolFee (Example.bobOpened (15 * 10 ^ 15)) (3000 * unit)
  = Ok (3000 * unit * _protocolFeeRate (Example.bobOpened (15 * 10 ^ 15)) / unit).
Proof.
  refine (proj1 (protocol_fee_within_amount (Example.bobOpened (15 * 10 ^ 15))
                                            (3000 * unit) _ _) _).
  - vm_compute. split; intros [=].
  - vm_compute. intros [=].
  - vm_compute. intros [=].
Defined.

(** ** Setting and reading the configuration *)

(** X23. The configuration reads back as it was set.  On a storage that was
    not initialized, [initialize] succeeds exactly when the fee rate is at
    most one unit; it then marks the storage initialized, makes the caller
    the owner, starts the counter at one, and [queryConfig] returns its six
    arguments.  On a storage that was initialized, [initialize] reverts
    whatever its arguments and changes nothing.  After a successful
    [updateConfig], which only the owner can make, [queryConfig] returns
    the six arguments, and after a successful [setFactory] it returns the
    new factory, which is not the zero address, and the other five values
    as before. *)
Theorem configuration_reads_back :
  (forall env s factory oracle collector baseToken protocolFeeRate priceExpireTime,
      _initialized s = false ->
      (protocolFeeRate <= unit ->
       exists s',
         initialize env factory oracle collector baseToken protocolFeeRate
                    priceExpireTime s [] = Success () s' []
         /\ queryConfig s'
            = (factory, oracle, collector, baseToken, protocolFeeRate, priceExpireTime)
         /\ ownable_owner s' = msgSender env
         /\ currentpositionIndex s' = 1
         /\ _initialized s' = true)
      /\ (unit < protocolFeeRate ->
          revertsWith "protocolFeeRate must be less than 100%."
                      (initialize env factory oracle collector baseToken protocolFeeRate
                                  priceExpireTime s [])))
  /\ (forall env s factory oracle collector baseToken protocolFeeRate priceExpireTime,
         _initialized s = true ->
         transact (initialize env factory oracle collector baseToken protocolFeeRate
                              priceExpireTime) s
         = (s, [], Err "Initializable: contract is already initialized"))
  /\ (forall env s factory oracle collector baseToken protocolFeeRate priceExpireTime
             s' calls,
         updateConfig env factory oracle collector baseToken protocolFeeRate
                      priceExpireTime s [] = Success () s' calls ->
         ownable_owner s = msgSender env
         /\ queryConfig s'
            = (factory, oracle, collector, baseToken, protocolFeeRate, priceExpireTime))
  /\ (forall env s factory s' calls,
         setFactory env factory s [] = Success () s' calls ->
         ownable_owner s = msgSender env /\ factory <> 0
         /\ queryConfig s'
            = (factory, _oracle s, _collector s, _baseToken s, _protocolFeeRate s,
               _priceExpireTime s)).
Proof.
  split; [| split; [| split]].
  - intros env s f o c b r t Hfresh. split.
    + intros Hle. apply Z.leb_le in Hle.
      exists (set_config f o c b r t
                (set_currentpositionIndex 1
                   (set_ownable_owner (msgSender env) (set_initialized true s)))).
      split; [| repeat split].
      unfold initialize, initializer, _updateConfig, bind, getState, modify, require.
      rewrite Hfresh, Hle. reflexivity.
    + intros Hgt. apply Z.leb_gt in Hgt.
      unfold initialize, initializer, _updateConfig, bind, getState, modify, require.
      rewrite Hfresh, Hgt. simpl. reflexivity.
  - intros env s f o c b r t Hdone.
    unfold transact, initialize, initializer, bind, getState, require.
    rewrite Hdone. reflexivity.
  - intros env s f o c b r t s' calls H.
    unfold updateConfig, _updateConfig, onlyOwner in H. inv_success H. boolprops.
    split; [assumption | reflexivity].
  - intros env s f s' calls H.
    unfold setFactory, onlyOwner in H. inv_success H. boolprops.
    split; [assumption | split; [assumption | reflexivity]].
Qed.

Lemma configuration_reads_back_witness :
  let env := Example.env Example.deployer (10 * unit) Example.allTrue in
  exists s',
    initialize env Example.factory Example.oracle Example.collector Example.busd
               (15 * 10 ^ 15) 60 Example.blank [] = Success () s' []
    /\ queryConfig s'
       = (Example.factory, Example.oracle, Example.collector, Example.busd,
          15 * 10 ^ 15, 60)
    /\ ownable_owner s' = msgSender env
    /\ currentpositionIndex s' = 1
    /\ _initialized s' = true.
Proof.
  intros env.
  refine (proj1 (proj1 configuration_reads_back env Example.blank Example.factory
                       Example.oracle Example.collector Example.busd
                       (15 * 10 ^ 15) 60 _) _).
  - reflexivity.
  - vm_compute. intros [=].
Defined.

(** ** Opening and closing again *)

Lemma removeLoop_last (arr : list Z) i :
  distinctNonzero (arr ++ [i]) -> i <> 0 ->
  removeLoop i (length (arr ++ [i])) (length (arr ++ [i])) 0 (arr ++ [i]) = arr ++ [0].
Proof.
  intros Hd Hi.
  rewrite (removeLoop_present i _ 0 (length arr) _ Hd Hi).
  - rewrite length_app. simpl length.
    replace (length arr + 1 - 1)%nat with (length arr) by lia.
    rewrite list_insert_insert_eq, insert_app_r_alt by lia.
    rewrite Nat.sub_diag. reflexivity.
  - apply list_lookup_middle. reflexivity.
  - rewrite length_app. simpl. lia.
Qed.

(** The storage that a successful [openPosition] leaves on a consistent
    ledger. *)
Lemma openPosition_result env s c amt t r index s1 calls :
  ledgerInvariant s ->
  openPosition env c amt t r s [] = Success index s1 calls ->
  exists mintAmount,
    index = currentpositionIndex s
    /\ idxPositionMap s1
       = <[index := mkPosition index (msgSender env) c amt t mintAmount]>
           (idxPositionMap s)
    /\ postionIdxArray s1 = postionIdxArray s ++ [index]
    /\ currentpositionIndex s1 = wrap (index + 1)
    /\ ownerPositionIndex s1 = <[(msgSender env, c, t) := index]> (ownerPositionIndex s)
    /\ sameConfiguration s s1
    /\ 0 < mintAmount /\ 0 < amt /\ t <> 0.
Proof.
  intros (Hc & Hm & Ha & Hd) H.
  assert (Hout : arrayContains (postionIdxArray s) (currentpositionIndex s) = false).
  { destruct (arrayContains _ _) eqn:E; [| reflexivity].
    apply arrayContains_elem_of, Ha in E as [q Hq]; [| lia].
    destruct (Hm _ _ Hq). lia. }
  unfold openPosition in H. inv_success H. boolprops. cbn [idx].
  match goal with |- context [mkPosition _ _ _ _ _ ?m] => exists m end.
  unfold savePosition_state, sameConfiguration, queryConfig. rewrite Hout. simpl.
  repeat split; auto.
Qed.

(** X24. Opening a position and closing it again does not give back the
    storage one started from.  On a consistent ledger, after a successful
    [openPosition] and a successful [closePosition] of the index it
    returned, the closing caller is the opener, the stored positions and
    the configuration are as before the opening, the owner's index for the
    caller and the pair of tokens reads zero, the counter has moved on by
    one, and the array of indices is longer by one slot, which holds
    zero. *)
Theorem open_then_close_leaves_a_slot :
  forall env env' s collateralToken_ collateralAmount_ assetToken_ collateralRatio
         index s1 calls1 s2 calls2,
    ledgerInvariant s ->
    currentpositionIndex s < MAX_UINT ->
    openPosition env collateralToken_ collateralAmount_ assetToken_ collateralRatio s []
    = Success index s1 calls1 ->
    closePosition env' index s1 [] = Success () s2 calls2 ->
    msgSender env' = msgSender env
    /\ idxPositionMap s2 = idxPositionMap s
    /\ postionIdxArray s2 = postionIdxArray s ++ [0]
    /\ currentpositionIndex s2 = currentpositionIndex s + 1
    /\ queryPositionIndex s2 (msgSender env) collateralToken_ assetToken_ = 0
    /\ sameConfiguration s s2.
Proof.
  intros env env' s c amt t r index s1 calls1 s2 calls2 Hinv Hmax Hopen Hclose.
  destruct (openPosition_result _ _ _ _ _ _ _ _ _ Hinv Hopen)
    as (m & -> & Hmap & Harr & Hcnt & Hidx & Hcfg & Hpos & Hamt & Ht).
  set (p := mkPosition (currentpositionIndex s) (msgSender env) c amt t m) in *.
  pose proof (ledgerInvariant_opened p s Hinv Hmax eq_refl) as (_ & _ & _ & Hd1).
  pose proof Hinv as (Hc & Hm & Ha & Hd).
  assert (Hfresh : idxPositionMap s !! currentpositionIndex s = None).
  { destruct (idxPositionMap s !! currentpositionIndex s) eqn:E; [| reflexivity].
    destruct (Hm _ _ E). lia. }
  assert (Hd2 : distinctNonzero (postionIdxArray s ++ [currentpositionIndex s])).
  { rewrite <- Harr. unfold savePosition_state in Hd1.
    destruct (arrayContains (postionIdxArray s) (currentpositionIndex s)) eqn:E.
    - exfalso. apply arrayContains_elem_of, Ha in E as [q Hq]; [congruence | lia].
    - simpl in Hd1. rewrite Harr. exact Hd1. }
  assert (Hread : readPosition s1 (currentpositionIndex s) = p).
  { unfold readPosition. rewrite Hmap, lookup_insert_eq. reflexivity. }
  unfold closePosition in Hclose. inv_success Hclose. boolprops.
  rewrite Hread in *. simpl in *.
  unfold queryPositionIndex, readOwnerPositionIndex, removePosition_state. simpl.
  split; [congruence |].
  split; [rewrite Hmap; apply delete_insert_id; exact Hfresh |].
  split; [rewrite Harr; apply removeLoop_last; [exact Hd2 | lia] |].
  split; [rewrite Hcnt; apply wrap_small; unfold MAX_UINT in *; lia |].
  split.
  - rewrite Hidx.
    match goal with H : msgSender env = msgSender env' |- _ => rewrite <- H end.
    rewrite lookup_delete_eq. reflexivity.
  - destruct Hcfg as (C1 & C2 & C3 & C4). unfold sameConfiguration, queryConfig in *.
    simpl. auto.
Qed.

Lemma open_then_close_leaves_a_slot_witness :
  let bob := Example.env Example.bob (10 * unit) Example.allTrue in
  let s := Example.aliceOpened (15 * 10 ^ 15) in
  let s2 := exec (closePosition bob 2) (Example.bobOpened (15 * 10 ^ 15)) in
  msgSender bob = msgSender bob
  /\ idxPositionMap s2 = idxPositionMap s
  /\ postionIdxArray s2 = postionIdxArray s ++ [0]
  /\ currentpositionIndex s2 = currentpositionIndex s + 1
  /\ queryPositionIndex s2 (msgSender bob) Example.busd Example.kApple = 0
  /\ sameConfiguration s s2.
Proof.
  intros bob s s2.
  refine (open_then_close_leaves_a_slot bob bob s Example.busd (3000 * unit)
            Example.kApple (2 * unit) 2 (Example.bobOpened (15 * 10 ^ 15))
            (callsOf (openPosition bob Example.busd (3000 * unit) Example.kApple
                                   (2 * unit)) s)
            s2 (callsOf (closePosition bob 2) (Example.bobOpened (15 * 10 ^ 15)))
            aliceOpened_ledger _ _ _).
  - vm_compute. reflexivity.
  - vm_compute. reflexivity.
  - vm_compute. reflexivity.
Defined.

(** X25. The array of position indices never shrinks.  A successful
    operation on positions leaves it as long as it was or longer by one,
    and [closePosition] and [auction], the operations that remove
    positions, leave its length unchanged: a removal zeroes a slot and
    never takes one away. *)
Theorem postionIdxArray_never_shrinks :
  forall env op s s' calls,
    perform env op s [] = Success () s' calls ->
    (List.length (postionIdxArray s) <= List.length (postionIdxArray s')
     <= List.length (postionIdxArray s) + 1)%nat
    /\ ((exists i, op = ClosePosition i) \/ (exists i a, op = Auction i a) ->
        List.length (postionIdxArray s') = List.length (postionIdxArray s)).
Proof.
  intros env op s s' calls H.
  assert (Hgoal : forall P : Prop,
             List.length (postionIdxArray s') = List.length (postionIdxArray s) ->
             (List.length (postionIdxArray s) <= List.length (postionIdxArray s')
              <= List.length (postionIdxArray s) + 1)%nat
             /\ (P -> List.length (postionIdxArray s')
                      = List.length (postionIdxArray s))).
  { intros P E. rewrite E. split; [lia | auto]. }
  assert (Hsave : forall i p,
             (List.length (postionIdxArray s)
              <= List.length (postionIdxArray (savePosition_state i p s))
              <= List.length (postionIdxArray s) + 1)%nat).
  { intros i p. unfold savePosition_state. destruct (arrayContains _ _); simpl;
      rewrite ?length_app; simpl; lia. }
  assert (Hremove : forall i,
             List.length (postionIdxArray (removePosition_state i s))
             = List.length (postionIdxArray s)).
  { intros i. unfold removePosition_state. simpl. apply removeLoop_length. }
  destruct op; cbn [perform] in H.
  - unfold openPosition in H. inv_success H.
    split; [apply Hsave | intros [[? [=]] | (? & ? & [=])]].
  - unfold deposit in H. inv_success H.
    split; [apply Hsave | intros [[? [=]] | (? & ? & [=])]].
  - unfold withdraw in H. inv_success H.
    match goal with H : (if _ then _ else _) _ _ = Success _ _ _ |- _ =>
      split_if H; inv_success H end.
    + apply Hgoal, Hremove.
    + split; [apply Hsave | intros [[? [=]] | (? & ? & [=])]].
  - unfold mint in H. inv_success H.
    split; [apply Hsave | intros [[? [=]] | (? & ? & [=])]].
  - unfold closePosition in H. inv_success H. apply Hgoal, Hremove.
  - unfold auction in H. inv_success H.
    match goal with H : (if _ then _ else _) _ _ = Success _ _ _ |- _ =>
      split_if H; [| split_if H]; inv_success H end.
    + apply Hgoal, Hremove.
    + apply Hgoal, Hremove.
    + apply Hgoal. reflexivity.
Qed.

Lemma postionIdxArray_never_shrinks_witness :
  let alice := Example.env Example.alice (10 * unit) Example.allTrue in
  let s := Example.bobOpened (15 * 10 ^ 15) in
  List.length (postionIdxArray (exec (closePosition alice 1) s))
  = List.length (postionIdxArray s).
Proof.
  intros alice s.
  refine (proj2 (postionIdxArray_never_shrinks alice (ClosePosition 1) s _
                   (callsOf (closePosition alice 1) s) _) _).
  - vm_compute. reflexivity.
  - left. exists 1. reflexivity.
Defined.
